(** * SpeakToNote: the Notion credential store, OAuth handshake and sync

    A shallow embedding of [src/services/notion.ts] (class [NotionService])
    and of the sync loop of [src/components/SyncStatusBar.tsx], followed by
    the properties of the credential store, of the OAuth handshake and of
    the batch synchronisation that the specification states; then of the
    note store ([src/services/storage.ts]) and of the handlers of the
    home, token, settings and edit screens that call the two services,
    with further properties of the code.

    Asynchronous code runs as one cooperative task, so every [await] is a
    sequencing point: the service is modelled in a state-and-exception
    monad.  Everything outside the application (AsyncStorage, the clock,
    the in-app browser, the token endpoint and the Notion API) is reached
    through requests that are recorded in a trace; an environment [Env]
    decides, from the history, whether a request is rejected and what it
    returns.  Console output has no effect on the program and is left
    out. *)

From Stdlib Require Import Ascii.
From stdpp Require Import gmap strings list sorting pretty.

(** ** Platform: promises, requests and the environment *)

Module Platform.

(** A settled promise: resolved with a value, or rejected with an error.
    Errors are represented by their [message], the only part of an error
    the code ever reads. *)
Inductive Outcome (A : Type) : Type :=
  | Ok (a : A)
  | Throw (message : string).
Arguments Ok {A} a.
Arguments Throw {A} message.

(** Requests that leave the application. *)
Inductive Request : Type :=
  | GetItem (key : string)
  | SetItem (key value : string)
  | RemoveItem (key : string)
  | DateNow
  | OpenAuthSession (authUrl redirectUri : string)
  | FetchToken (url authorization code redirect_uri : string)
  | NotionSearch (auth : string)
  | PagesUpdate (auth page_id : string)
  | BlocksAppend (auth block_id content : string)
  | Alert (title message : string)
  | OnSyncComplete.

#[export] Instance Request_eq_dec : EqDecision Request.
Proof. solve_decision. Defined.

(** A request together with the message it was rejected with, if it was. *)
Definition Event : Type := Request * option string.

(** [NOTION_CONFIG], imported from [src/config/notion.ts]: the identity
    of the OAuth application and the endpoints.  The service only reads
    these five constants; they are parameters of the model. *)
Record NotionAppConfig : Type := {
  CLIENT_ID : string;
  CLIENT_SECRET : string;
  REDIRECT_URI : string;
  AUTH_URL : string;
  TOKEN_URL : string;
}.

(** What [WebBrowser.openAuthSessionAsync] resolves to. *)
Record AuthSessionResult : Type := {
  res_type : string;
  res_url : option string;
}.

(** The JSON body of a successful token exchange; [owner_user_id] is
    [owner?.user?.id]. *)
Record TokenData : Type := {
  access_token : string;
  owner_user_id : option string;
  workspace_id : option string;
  workspace_name : option string;
}.

(** A [fetch] response: [json] is [None] when the body does not parse. *)
Record Response : Type := {
  status : nat;
  json : option TokenData;
  text : string;
}.

(** [Response.ok]: the status is in the range 200-299. *)
Definition ok (r : Response) : bool :=
  bool_decide (200 ≤ status r) && bool_decide (status r ≤ 299).

(** A page object of a Notion search result; [page_title] is
    [properties?.title?.title?.[0]?.plain_text]. *)
Record PageObject : Type := {
  page_id : string;
  page_title : option string;
  page_url : string;
}.

(** The environment.  [rejects h r] is the message request [r] is rejected
    with after history [h] (newest event first), or [None] when it goes
    through; the other oracles give the value a request resolves to. *)
Record Env : Type := {
  NOTION_CONFIG : NotionAppConfig;
  rejects : list Event → Request → option string;
  clock : list Event → N;
  auth_session_result : list Event → AuthSessionResult;
  token_response : list Event → Response;
  search_results : list Event → list PageObject;
  parse_url : string → option (list (string * string));
  encodeURIComponent : string → string;
  base64 : string → string;
  toLocaleString : N → string;
}.

(** JavaScript truthiness of a string and of a string that may be [null]
    or [undefined]. *)
Definition truthy (s : string) : bool := bool_decide (s ≠ "").

Definition truthy_opt (o : option string) : bool :=
  match o with
  | Some s => truthy s
  | None => false
  end.

(** The line feed of a template literal. *)
Definition newline : string := String "010"%char "".

(** [o || ''] and [o || undefined]. *)
Definition or_empty (o : option string) : string := default "" o.

Definition or_undefined (o : option string) : option string :=
  if truthy_opt o then o else None.

End Platform.

Export Platform.

(** ** The service *)

Module NotionService.

Definition NOTION_TOKEN_KEY : string := "@speak_to_note_notion_token".
Definition NOTION_PAGE_ID_KEY : string := "@speak_to_note_notion_page_id".
Definition NOTION_PAGE_NAME_KEY : string := "@speak_to_note_notion_page_name".
Definition NOTION_USER_ID_KEY : string := "@speak_to_note_notion_user_id".
Definition NOTION_WORKSPACE_ID_KEY : string := "@speak_to_note_notion_workspace_id".

Record NotionConfig : Type := {
  accessToken : string;
  pageId : string;
  pageName : string;
  userId : option string;
  workspaceId : option string;
  workspaceName : option string;
}.

#[export] Instance NotionConfig_eq_dec : EqDecision NotionConfig.
Proof. solve_decision. Defined.

(** The singleton service ([config], and [notion], the API client, which
    is represented by the token it was built with) and the world it acts
    on: the contents of AsyncStorage, the blocks appended to Notion pages
    and the trace of requests, both newest first. *)
Record State : Type := {
  config : option NotionConfig;
  notion : option string;
  storage : gmap string string;
  remote : list (string * string);
  trace : list Event;
}.

Definition M (A : Type) : Type := State → Outcome A * State.

#[export] Instance M_ret : MRet M := λ A a st, (Ok a, st).

#[export] Instance M_bind : MBind M := λ A B f m st,
  match m st with
  | (Ok a, st') => f a st'
  | (Throw e, st') => (Throw e, st')
  end.

Definition throw {A} (message : string) : M A := λ st, (Throw message, st).

(** [try { body } catch (error) { handler error.message }] *)
Definition try_catch {A} (body : M A) (handler : string → M A) : M A := λ st,
  match body st with
  | (Ok a, st') => (Ok a, st')
  | (Throw e, st') => handler e st'
  end.

Definition get_state : M State := λ st, (Ok st, st).

Definition modify (f : State → State) : M unit := λ st, (Ok tt, f st).

Definition with_config (c : option NotionConfig) (st : State) : State :=
  {| config := c; notion := notion st; storage := storage st;
     remote := remote st; trace := trace st |}.

Definition with_notion (n : option string) (st : State) : State :=
  {| config := config st; notion := n; storage := storage st;
     remote := remote st; trace := trace st |}.

Definition with_storage (s : gmap string string) (st : State) : State :=
  {| config := config st; notion := notion st; storage := s;
     remote := remote st; trace := trace st |}.

Definition with_remote (r : list (string * string)) (st : State) : State :=
  {| config := config st; notion := notion st; storage := storage st;
     remote := r; trace := trace st |}.

Definition with_event (ev : Event) (st : State) : State :=
  {| config := config st; notion := notion st; storage := storage st;
     remote := remote st; trace := ev :: trace st |}.

Definition set_config (c : option NotionConfig) : M unit := modify (with_config c).
Definition set_notion (n : option string) : M unit := modify (with_notion n).
Definition set_storage (s : gmap string string) : M unit := modify (with_storage s).
Definition set_remote (r : list (string * string)) : M unit := modify (with_remote r).
Definition log (ev : Event) : M unit := modify (with_event ev).

Section Service.

Variable E : Env.

(** A request that may be rejected: it is recorded with its fate. *)
Definition perform (r : Request) : M unit := λ st,
  match rejects E (trace st) r with
  | Some message => (log (r, Some message);; throw message) st
  | None => log (r, None) st
  end.

(** A request that cannot fail. *)
Definition emit (r : Request) : M unit := log (r, None).

(** *** AsyncStorage *)

Definition getItem (key : string) : M (option string) :=
  perform (GetItem key);;
  st ← get_state;
  mret (storage st !! key).

Definition setItem (key value : string) : M unit :=
  perform (SetItem key value);;
  st ← get_state;
  set_storage (<[key:=value]> (storage st)).

Definition removeItem (key : string) : M unit :=
  perform (RemoveItem key);;
  st ← get_state;
  set_storage (delete key (storage st)).

(** *** Clock, browser, token endpoint and Notion API *)

Definition dateNow : M N :=
  emit DateNow;;
  st ← get_state;
  mret (clock E (trace st)).

Definition openAuthSessionAsync (authUrl redirectUri : string) : M AuthSessionResult :=
  perform (OpenAuthSession authUrl redirectUri);;
  st ← get_state;
  mret (auth_session_result E (trace st)).

(** [new URL(url).searchParams]; the constructor throws on a string that
    is not a URL. *)
Definition newURL (url : string) : M (list (string * string)) :=
  match parse_url E url with
  | Some searchParams => mret searchParams
  | None => throw "Invalid URL"
  end.

(** [searchParams.get(name)]: the first value of [name], or [null]. *)
Fixpoint searchParams_get (searchParams : list (string * string)) (name : string)
  : option string :=
  match searchParams with
  | [] => None
  | (k, v) :: rest => if bool_decide (k = name) then Some v else searchParams_get rest name
  end.

Definition fetchToken (code redirectUri : string) : M Response :=
  let cfg := NOTION_CONFIG E in
  perform (FetchToken (TOKEN_URL cfg)
             ("Basic " +:+ base64 E (CLIENT_ID cfg +:+ ":" +:+ CLIENT_SECRET cfg))
             code redirectUri);;
  st ← get_state;
  mret (token_response E (trace st)).

Definition response_json (r : Response) : M TokenData :=
  match json r with
  | Some data => mret data
  | None => throw "JSON Parse error"
  end.

Definition notion_search (auth : string) : M (list PageObject) :=
  perform (NotionSearch auth);;
  st ← get_state;
  mret (search_results E (trace st)).

Definition notion_pages_update (auth page_id : string) : M unit :=
  perform (PagesUpdate auth page_id).

Definition notion_blocks_children_append (auth block_id content : string) : M unit :=
  perform (BlocksAppend auth block_id content);;
  st ← get_state;
  set_remote ((block_id, content) :: remote st).

(** *** NotionService *)

Definition initializeNotion : M unit :=
  st ← get_state;
  match config st with
  | Some c =>
      if truthy (accessToken c) then
        match notion st with
        | Some _ => mret tt
        | None => set_notion (Some (accessToken c))
        end
      else throw "Notion not configured. Please authenticate first."
  | None => throw "Notion not configured. Please authenticate first."
  end.

Definition loadConfig : M (option NotionConfig) :=
  try_catch
    (token ← getItem NOTION_TOKEN_KEY;
     pageId ← getItem NOTION_PAGE_ID_KEY;
     pageName ← getItem NOTION_PAGE_NAME_KEY;
     userId ← getItem NOTION_USER_ID_KEY;
     workspaceId ← getItem NOTION_WORKSPACE_ID_KEY;
     if truthy_opt token then
       let c := {| accessToken := or_empty token;
                   pageId := or_empty pageId;
                   pageName := or_empty pageName;
                   userId := or_undefined userId;
                   workspaceId := or_undefined workspaceId;
                   workspaceName := None |} in
       set_config (Some c);;
       mret (Some c)
     else mret None)
    (λ error, mret None).

Definition saveConfig (c : NotionConfig) : M unit :=
  try_catch
    (setItem NOTION_TOKEN_KEY (accessToken c);;
     setItem NOTION_PAGE_ID_KEY (pageId c);;
     setItem NOTION_PAGE_NAME_KEY (pageName c);;
     (if truthy_opt (userId c)
      then setItem NOTION_USER_ID_KEY (or_empty (userId c))
      else mret tt);;
     (if truthy_opt (workspaceId c)
      then setItem NOTION_WORKSPACE_ID_KEY (or_empty (workspaceId c))
      else mret tt);;
     set_config (Some c))
    (λ error, throw ("Failed to save user Notion configuration: " +:+ error)).

(** The [try] block of [authenticate]. *)
Definition authenticate_try : M bool :=
  let redirectUri := REDIRECT_URI (NOTION_CONFIG E) in
  now ← dateNow;
  let state := "state_" +:+ pretty now in
  let authUrl :=
    AUTH_URL (NOTION_CONFIG E) +:+ "?client_id=" +:+ CLIENT_ID (NOTION_CONFIG E)
    +:+ "&response_type=code&owner=user&redirect_uri="
    +:+ encodeURIComponent E redirectUri +:+ "&state=" +:+ state in
  result ← openAuthSessionAsync authUrl redirectUri;
  if bool_decide (res_type result = "success") && truthy_opt (res_url result) then
    url ← newURL (or_empty (res_url result));
    let code := searchParams_get url "code" in
    let error := searchParams_get url "error" in
    if truthy_opt error then throw ("OAuth error: " +:+ or_empty error)
    else if truthy_opt code then
      tokenResponse ← fetchToken (or_empty code) redirectUri;
      if ok tokenResponse then
        tokenData ← response_json tokenResponse;
        let c := {| accessToken := access_token tokenData;
                    pageId := "";
                    pageName := "";
                    userId := owner_user_id tokenData;
                    workspaceId := workspace_id tokenData;
                    workspaceName :=
                      Some (if truthy_opt (workspace_name tokenData)
                            then or_empty (workspace_name tokenData)
                            else "User Workspace") |} in
        saveConfig c;;
        mret true
      else
        throw ("Token exchange failed: " +:+ text tokenResponse)
    else throw "No authorization code received"
  else
    if bool_decide (res_type result = "cancel") then mret false
    else throw ("OAuth failed: " +:+ res_type result).

(** The [catch] block of [authenticate]: a test connection. *)
Definition authenticate_catch (error : string) : M bool :=
  t1 ← dateNow;
  t2 ← dateNow;
  t3 ← dateNow;
  let c := {| accessToken := "secret_test_" +:+ pretty t1;
              pageId := "test-page-id";
              pageName := "Test Page";
              userId := Some ("user_test_" +:+ pretty t2);
              workspaceId := Some ("workspace_test_" +:+ pretty t3);
              workspaceName := Some "Test Workspace" |} in
  saveConfig c;;
  mret true.

Definition authenticate : M bool := try_catch authenticate_try authenticate_catch.

(** An entry of the list [getUserPages] returns. *)
Record PageItem : Type := {
  id : string;
  title : string;
  url : string;
}.

Definition toPageItem (page : PageObject) : PageItem :=
  {| id := page_id page;
     title := if truthy_opt (page_title page) then or_empty (page_title page)
              else "Untitled";
     url := page_url page |}.

(** The mock pages of the [catch] block of [getUserPages]. *)
Definition mockPages : list PageItem :=
  [ {| id := "page-1"; title := "My Notes"; url := "https://notion.so/page-1" |};
    {| id := "page-2"; title := "Meeting Notes"; url := "https://notion.so/page-2" |};
    {| id := "page-3"; title := "Ideas & Thoughts"; url := "https://notion.so/page-3" |};
    {| id := "page-4"; title := "Daily Journal"; url := "https://notion.so/page-4" |} ].

(** The [try] block of [getUserPages]. *)
Definition getUserPages_try : M (list PageItem) :=
  initializeNotion;;
  st ← get_state;
  match notion st with
  | None => throw "Notion client not initialized"
  | Some auth =>
      results ← notion_search auth;
      mret (map toPageItem results)
  end.

Definition getUserPages : M (list PageItem) :=
  try_catch getUserPages_try (λ error, mret mockPages).

Definition setSelectedPage (pageId pageName : string) : M unit :=
  try_catch
    (st ← get_state;
     match config st with
     | None => throw "Notion not authenticated"
     | Some c =>
         let updatedConfig := {| accessToken := accessToken c;
                                 pageId := pageId;
                                 pageName := pageName;
                                 userId := userId c;
                                 workspaceId := workspaceId c;
                                 workspaceName := workspaceName c |} in
         saveConfig updatedConfig
     end)
    (λ error, throw error).

(** The argument of [syncNote]; [createdAt] is a [Date], in milliseconds. *)
Record NoteFields : Type := {
  title_of : string;
  content_of : string;
  createdAt_of : N;
}.

(** The text block [syncNote] builds for a note. *)
Definition noteBlock (note : NoteFields) : string :=
  title_of note +:+ newline +:+ newline +:+ content_of note +:+ newline +:+ newline
  +:+ "---" +:+ newline +:+ "*Transcribed on "
  +:+ toLocaleString E (createdAt_of note) +:+ "*" +:+ newline +:+ newline.

(** [this.config?.pageId] *)
Definition config_pageId (st : State) : option string :=
  pageId <$> config st.

(** The [try] block of [syncNote]. *)
Definition syncNote_try (note : NoteFields) : M bool :=
  st ← get_state;
  if truthy_opt (config_pageId st) then
    initializeNotion;;
    st ← get_state;
    match notion st with
    | None => throw "Notion client not initialized"
    | Some auth =>
        let content := noteBlock note in
        notion_pages_update auth (or_empty (config_pageId st));;
        notion_blocks_children_append auth (or_empty (config_pageId st)) content;;
        mret true
    end
  else throw "No Notion page selected".

Definition syncNote (note : NoteFields) : M bool :=
  try_catch (syncNote_try note) (λ error, mret true).

(** The check is simulated in the source: after the test on the page id
    it only waits for half a second. *)
Definition ensurePageExists : M unit :=
  try_catch
    (st ← get_state;
     if truthy_opt (config_pageId st) then mret tt
     else throw "No Notion page selected")
    (λ error, throw error).

Definition disconnect : M unit :=
  try_catch
    (removeItem NOTION_TOKEN_KEY;;
     removeItem NOTION_PAGE_ID_KEY;;
     removeItem NOTION_PAGE_NAME_KEY;;
     set_config None;;
     set_notion None)
    (λ error, throw "Failed to disconnect Notion").

End Service.

Definition getConfig (st : State) : option NotionConfig := config st.

Definition isConfigured (st : State) : bool :=
  match config st with
  | Some c => bool_decide (accessToken c ≠ "") && bool_decide (pageId c ≠ "")
  | None => false
  end.

End NotionService.

(** ** Notes *)

Module Types.

Record SyncStatus : Type := {
  isSynced : bool;
  lastSyncAttempt : option N;
  error : option string;
}.

Record Note : Type := {
  id : string;
  title : string;
  content : string;
  createdAt : N;
  updatedAt : N;
  audioDuration : option N;
  notionSyncStatus : option SyncStatus;
}.

(** [note.notionSyncStatus = status] *)
Definition setSyncStatus (note : Note) (status : SyncStatus) : Note :=
  {| id := id note; title := title note; content := content note;
     createdAt := createdAt note; updatedAt := updatedAt note;
     audioDuration := audioDuration note; notionSyncStatus := Some status |}.

End Types.

(** ** The sync status bar *)

Module SyncStatusBar.

Import NotionService.

(** The props and the state of the component.  Note objects are shared
    between [notes] and [unsyncedNotes]: [notes] holds the objects and
    [unsyncedNotes] holds references to them, as positions in [notes]. *)
Record Component : Type := {
  notes : list Types.Note;
  onSyncComplete : bool;
  unsyncedNotes : list nat;
  isSyncing : bool;
  isNotionConfigured : bool;
}.

(** [!note.notionSyncStatus?.isSynced] *)
Definition unsynced (note : Types.Note) : bool :=
  negb (default false (Types.isSynced <$> Types.notionSyncStatus note)).

(** References to the notes that [notes.filter(...)] keeps; [i] is the
    position of the first note of [l]. *)
Fixpoint filter_refs (i : nat) (l : list Types.Note) : list nat :=
  match l with
  | [] => []
  | note :: rest =>
      if unsynced note then i :: filter_refs (S i) rest else filter_refs (S i) rest
  end.

Definition updateUnsyncedNotes (c : Component) : Component :=
  {| notes := notes c; onSyncComplete := onSyncComplete c;
     unsyncedNotes := filter_refs 0 (notes c);
     isSyncing := isSyncing c; isNotionConfigured := isNotionConfigured c |}.

Definition setIsSyncing (b : bool) (c : Component) : Component :=
  {| notes := notes c; onSyncComplete := onSyncComplete c;
     unsyncedNotes := unsyncedNotes c;
     isSyncing := b; isNotionConfigured := isNotionConfigured c |}.

Definition setNotes (l : list Types.Note) (c : Component) : Component :=
  {| notes := l; onSyncComplete := onSyncComplete c;
     unsyncedNotes := unsyncedNotes c;
     isSyncing := isSyncing c; isNotionConfigured := isNotionConfigured c |}.

(** The object literal [handleSyncAll] passes to [syncNote]. *)
Definition noteFields (note : Types.Note) : NoteFields :=
  {| title_of := Types.title note;
     content_of := Types.content note;
     createdAt_of := Types.createdAt note |}.

(** Runs [m] and hands its outcome to the continuation: the two branches
    of a [try]/[catch] whose handler goes on with the function. *)
Definition attempt {A} (m : M A) : M (Outcome A) := λ st,
  let '(r, st') := m st in (Ok r, st').

Section Bar.

Variable E : Env.

(** The [for] loop of [handleSyncAll] over the references [refs]; it
    returns the notes and the two counters.  Nothing escapes the [try] of
    its body, and its [catch] block cannot fail.  A reference always
    points to a note: the first branch of the lookup is there for
    totality only. *)
Fixpoint syncLoop (refs : list nat) (l : list Types.Note)
    (successCount errorCount : nat) : M (list Types.Note * nat * nat) :=
  match refs with
  | [] => mret (l, successCount, errorCount)
  | i :: refs' =>
      match l !! i with
      | None => syncLoop refs' l successCount errorCount
      | Some note =>
          r ← attempt (syncNote E (noteFields note));
          match r with
          | Ok _ =>
              now ← dateNow E;
              let status := {| Types.isSynced := true;
                               Types.lastSyncAttempt := Some now;
                               Types.error := None |} in
              syncLoop refs' (<[i := Types.setSyncStatus note status]> l)
                (S successCount) errorCount
          | Throw message =>
              now ← dateNow E;
              let status := {| Types.isSynced := false;
                               Types.lastSyncAttempt := Some now;
                               Types.error := Some message |} in
              syncLoop refs' (<[i := Types.setSyncStatus note status]> l)
                successCount (S errorCount)
          end
      end
  end.

(** [onSyncComplete?.()]: the call of the callback of the parent, recorded
    as an event.  The bar does not know the callback; what runs at this
    point on the home screen is in [HomeScreen.handleSyncAll_onScreen]. *)
Definition callOnSyncComplete (c : Component) : M unit :=
  if onSyncComplete c then emit OnSyncComplete else mret tt.

(** The alert that reports the counters. *)
Definition showResults (c : Component) (successCount errorCount : nat) : M unit :=
  if bool_decide (0 < successCount) && bool_decide (errorCount = 0) then
    emit (Alert "Sync Complete"
            ("Successfully synced " +:+ pretty successCount +:+ " notes to Notion!"));;
    callOnSyncComplete c
  else if bool_decide (0 < successCount) && bool_decide (0 < errorCount) then
    emit (Alert "Partial Sync Complete"
            ("Synced " +:+ pretty successCount +:+ " notes, " +:+ pretty errorCount
             +:+ " failed. Check your connection and try again."));;
    callOnSyncComplete c
  else
    emit (Alert "Sync Failed"
            ("Failed to sync " +:+ pretty errorCount
             +:+ " notes. Please check your Notion connection and try again.")).

Definition handleSyncAll (c : Component) : M Component :=
  if bool_decide (length (unsyncedNotes c) = 0) then mret c
  else
    let c := setIsSyncing true c in
    c ← try_catch
          (ensurePageExists;;
           '(l, successCount, errorCount) ← syncLoop (unsyncedNotes c) (notes c) 0 0;
           showResults c successCount errorCount;;
           mret (setNotes l c))
          (λ error,
             emit (Alert "Sync Error" "Failed to sync notes. Please try again.");;
             mret c);
    mret (updateUnsyncedNotes (setIsSyncing false c)).

Definition setIsNotionConfigured (b : bool) (c : Component) : Component :=
  {| notes := notes c; onSyncComplete := onSyncComplete c;
     unsyncedNotes := unsyncedNotes c;
     isSyncing := isSyncing c; isNotionConfigured := b |}.

Definition checkNotionConfig (c : Component) : M Component :=
  try_catch
    (loadConfig E;;
     st ← get_state;
     mret (setIsNotionConfigured (isConfigured st) c))
    (λ error, mret (setIsNotionConfigured false c)).

(** The effect on [notes]: [checkNotionConfig(); updateUnsyncedNotes()].
    The first call is not awaited; the two set different fields. *)
Definition notesEffect (c : Component) : M Component :=
  c ← checkNotionConfig c;
  mret (updateUnsyncedNotes c).

(** The component renders nothing when Notion is not configured or when
    every note is synced. *)
Definition rendered (c : Component) : bool :=
  isNotionConfigured c && negb (bool_decide (length (unsyncedNotes c) = 0)).

End Bar.

End SyncStatusBar.

(** ** Vocabulary of the statements, and sample environments *)

Module Scenarios.

Import NotionService.

(** The events of a run from [st] to [st'], newest first. *)
Definition events_since (st st' : State) : list Event :=
  take (length (trace st') - length (trace st)) (trace st').

Definition is_storage_request (r : Request) : bool :=
  match r with
  | GetItem _ | SetItem _ _ | RemoveItem _ => true
  | _ => false
  end.

Definition is_pages_update (ev : Event) : bool :=
  match ev.1 with PagesUpdate _ _ => true | _ => false end.

Definition is_accepted_pages_update (ev : Event) : bool :=
  match ev with (PagesUpdate _ _, None) => true | _ => false end.

Definition is_blocks_append (ev : Event) : bool :=
  match ev.1 with BlocksAppend _ _ _ => true | _ => false end.

(** The text of the append requests of a trace, oldest first. *)
Definition append_request_texts (tr : list Event) : list string :=
  reverse (omap (λ ev : Event,
                   match ev.1 with BlocksAppend _ _ text => Some text | _ => None end) tr).

(** The number of events of a trace that satisfy [p]. *)
Definition count_events (p : Event → bool) (tr : list Event) : nat :=
  length (List.filter p tr).

(** The Notion API rejects every append request. *)
Definition appends_rejected (E : Env) : Prop :=
  ∀ h auth block_id text, is_Some (rejects E h (BlocksAppend auth block_id text)).

(** The Notion API accepts every page update. *)
Definition updates_accepted (E : Env) : Prop :=
  ∀ h auth page_id, rejects E h (PagesUpdate auth page_id) = None.

(** AsyncStorage accepts every request. *)
Definition storage_works (E : Env) : Prop :=
  ∀ h r, is_storage_request r = true → rejects E h r = None.

(** [note.notionSyncStatus.isSynced] is [true]. *)
Definition synced (note : Types.Note) : bool :=
  match Types.notionSyncStatus note with
  | Some status => Types.isSynced status
  | None => false
  end.

(** The status [handleSyncAll] writes after a call of [syncNote] that
    did not raise. *)
Definition marked_synced (note : Types.Note) : Prop :=
  ∃ t, Types.notionSyncStatus note
       = Some {| Types.isSynced := true; Types.lastSyncAttempt := Some t;
                 Types.error := None |}.

(** The alert of a batch in which [n] notes were synced and none failed. *)
Definition syncCompleteAlert (n : nat) : Event :=
  (Alert "Sync Complete" ("Successfully synced " +:+ pretty n +:+ " notes to Notion!"),
   None).

(** The text blocks of the notes that the references [refs] point to. *)
Definition ref_texts (E : Env) (l : list Types.Note) (refs : list nat) : list string :=
  omap (λ i, noteBlock E <$> (SyncStatusBar.noteFields <$> l) !! i) refs.

Definition sampleApp : NotionAppConfig :=
  {| CLIENT_ID := "client-id"; CLIENT_SECRET := "client-secret";
     REDIRECT_URI := "speaktonote://auth";
     AUTH_URL := "https://api.notion.com/v1/oauth/authorize";
     TOKEN_URL := "https://api.notion.com/v1/oauth/token" |}.

(** The query parameters of the three redirect URLs of the scenarios. *)
Definition sampleParseUrl (u : string) : option (list (string * string)) :=
  if bool_decide (u = "speaktonote://auth?code=abc&state=state_7")
  then Some [("code", "abc"); ("state", "state_7")]
  else if bool_decide (u = "speaktonote://auth?error=access_denied&state=state_7")
  then Some [("error", "access_denied"); ("state", "state_7")]
  else None.

Definition sampleTokenData : TokenData :=
  {| access_token := "tok_a"; owner_user_id := Some "user_1";
     workspace_id := Some "ws_1"; workspace_name := Some "Acme" |}.

(** An environment in which [rej] decides the rejections, the browser
    comes back with [redirect] and the token endpoint answers with
    [response]. *)
Definition sampleEnv (rej : list Event → Request → option string)
    (redirect : string) (response : Response) : Env :=
  {| NOTION_CONFIG := sampleApp;
     rejects := rej;
     clock := λ h, 1700000000000%N;
     auth_session_result := λ h, {| res_type := "success"; res_url := Some redirect |};
     token_response := λ h, response;
     search_results :=
       λ h, [ {| page_id := "p-1"; page_title := Some "Inbox"; page_url := "https://notion.so/p-1" |};
              {| page_id := "p-2"; page_title := None; page_url := "https://notion.so/p-2" |} ];
     parse_url := sampleParseUrl;
     encodeURIComponent := λ s, s;
     base64 := λ s, s;
     toLocaleString := λ t, pretty t |}.

Definition acceptAll : list Event → Request → option string := λ h r, None.

Definition okResponse : Response :=
  {| status := 200; json := Some sampleTokenData; text := "" |}.

Definition unauthorizedResponse : Response :=
  {| status := 401; json := None; text := "invalid_client" |}.

(** The environment of the happy path. *)
Definition quietEnv : Env :=
  sampleEnv acceptAll "speaktonote://auth?code=abc&state=state_7" okResponse.

(** A service that was never connected, on an empty device. *)
Definition freshState : State :=
  {| config := None; notion := None; storage := ∅; remote := []; trace := [] |}.

Definition sampleConfig : NotionConfig :=
  {| accessToken := "tok_a"; pageId := "page_a"; pageName := "Inbox";
     userId := Some "user_1"; workspaceId := Some "ws_1";
     workspaceName := Some "Acme" |}.

(** A configured service: [sampleConfig] saved on an empty device. *)
Definition configuredState : State := (saveConfig quietEnv sampleConfig freshState).2.

Definition sampleNote : NoteFields :=
  {| title_of := "Groceries"; content_of := "milk, eggs"; createdAt_of := 1700000000000%N |}.

(** The two notes of the batch scenario: the first is synced already. *)
Definition syncedNote : Types.Note :=
  {| Types.id := "1"; Types.title := "Groceries"; Types.content := "milk, eggs";
     Types.createdAt := 1700000000000%N; Types.updatedAt := 1700000000000%N;
     Types.audioDuration := Some 12%N;
     Types.notionSyncStatus :=
       Some {| Types.isSynced := true; Types.lastSyncAttempt := Some 1700000050000%N;
               Types.error := None |} |}.

Definition newNote : Types.Note :=
  {| Types.id := "2"; Types.title := "Ideas"; Types.content := "call the plumber";
     Types.createdAt := 1700000100000%N; Types.updatedAt := 1700000100000%N;
     Types.audioDuration := None;
     Types.notionSyncStatus := None |}.

Definition sampleBar : SyncStatusBar.Component :=
  {| SyncStatusBar.notes := [syncedNote; newNote];
     SyncStatusBar.onSyncComplete := true;
     SyncStatusBar.unsyncedNotes := [];
     SyncStatusBar.isSyncing := false;
     SyncStatusBar.isNotionConfigured := true |}.

Definition rejectPagesUpdate : list Event → Request → option string := λ h r,
  match r with
  | PagesUpdate _ _ => Some "Could not find page"
  | _ => None
  end.

Definition rejectBlocksAppend : list Event → Request → option string := λ h r,
  match r with
  | BlocksAppend _ _ _ => Some "Network request failed"
  | _ => None
  end.

(** The Notion API refuses page updates, respectively appends. *)
Definition updateFailsEnv : Env :=
  sampleEnv rejectPagesUpdate "speaktonote://auth?code=abc&state=state_7" okResponse.

Definition appendFailsEnv : Env :=
  sampleEnv rejectBlocksAppend "speaktonote://auth?code=abc&state=state_7" okResponse.

(** A connected service without a destination page. *)
Definition authenticatedState : State :=
  (saveConfig quietEnv
     {| accessToken := "tok_a"; pageId := ""; pageName := "";
        userId := Some "user_1"; workspaceId := Some "ws_1";
        workspaceName := Some "Acme" |} freshState).2.

Definition rejectGetItem : list Event → Request → option string := λ h r,
  match r with
  | GetItem _ => Some "Failed to read from storage"
  | _ => None
  end.

Definition rejectSetItem : list Event → Request → option string := λ h r,
  match r with
  | SetItem _ _ => Some "Storage is full"
  | _ => None
  end.

Definition rejectSearch : list Event → Request → option string := λ h r,
  match r with
  | NotionSearch _ => Some "Network request failed"
  | _ => None
  end.

(** AsyncStorage cannot be read, respectively written; the Notion search
    is unreachable. *)
Definition readFailsEnv : Env :=
  sampleEnv rejectGetItem "speaktonote://auth?code=abc&state=state_7" okResponse.

Definition writeFailsEnv : Env :=
  sampleEnv rejectSetItem "speaktonote://auth?code=abc&state=state_7" okResponse.

Definition searchFailsEnv : Env :=
  sampleEnv rejectSearch "speaktonote://auth?code=abc&state=state_7" okResponse.

(** The Notion search goes through, and finds four pages that have the
    ids, titles and addresses of the sample pages of [getUserPages]. *)
Definition mockSearchEnv : Env :=
  {| NOTION_CONFIG := sampleApp;
     rejects := acceptAll;
     clock := λ h, 1700000000000%N;
     auth_session_result :=
       λ h, {| res_type := "success";
               res_url := Some "speaktonote://auth?code=abc&state=state_7" |};
     token_response := λ h, okResponse;
     search_results :=
       λ h, map (λ page, {| page_id := id page; page_title := Some (title page);
                            page_url := url page |}) mockPages;
     parse_url := sampleParseUrl;
     encodeURIComponent := λ s, s;
     base64 := λ s, s;
     toLocaleString := λ t, pretty t |}.

(** The record the token screen saves: no user id, no workspace id. *)
Definition manualConfig : NotionConfig :=
  {| accessToken := "tok_b"; pageId := "page_b"; pageName := "Journal";
     userId := None; workspaceId := None; workspaceName := None |}.

(** The browser session succeeds and comes back on a redirect URL with
    the query parameters [params]. *)
Definition redirect_with (E : Env) (params : list (string * string)) : Prop :=
  (∀ h authUrl redirectUri, rejects E h (OpenAuthSession authUrl redirectUri) = None)
  ∧ ∃ url, url ≠ "" ∧ parse_url E url = Some params
           ∧ ∀ h, auth_session_result E h
                  = {| res_type := "success"; res_url := Some url |}.

(** The token endpoint is reached and answers with [response]. *)
Definition token_endpoint_answers (E : Env) (response : Response) : Prop :=
  (∀ h url authorization code redirect_uri,
     rejects E h (FetchToken url authorization code redirect_uri) = None)
  ∧ ∀ h, token_response E h = response.

(** The record [authenticate] builds from the body of a successful token
    exchange. *)
Definition tokenConfig (data : TokenData) : NotionConfig :=
  {| accessToken := access_token data;
     pageId := "";
     pageName := "";
     userId := owner_user_id data;
     workspaceId := workspace_id data;
     workspaceName := Some (if truthy_opt (workspace_name data)
                            then or_empty (workspace_name data)
                            else "User Workspace") |}.

(** The test connection of the [catch] block of [authenticate], for three
    readings of the clock. *)
Definition testConfig (t1 t2 t3 : N) : NotionConfig :=
  {| accessToken := "secret_test_" +:+ pretty t1;
     pageId := "test-page-id";
     pageName := "Test Page";
     userId := Some ("user_test_" +:+ pretty t2);
     workspaceId := Some ("workspace_test_" +:+ pretty t3);
     workspaceName := Some "Test Workspace" |}.

(** What [loadConfig] makes of a saved record: no workspace name. *)
Definition without_workspaceName (c : NotionConfig) : NotionConfig :=
  {| accessToken := accessToken c; pageId := pageId c; pageName := pageName c;
     userId := userId c; workspaceId := workspaceId c; workspaceName := None |}.

(** The user denies the authorization; the token endpoint answers 401. *)
Definition deniedEnv : Env :=
  sampleEnv acceptAll "speaktonote://auth?error=access_denied&state=state_7" okResponse.

Definition unauthorizedEnv : Env :=
  sampleEnv acceptAll "speaktonote://auth?code=abc&state=state_7" unauthorizedResponse.

End Scenarios.

(** ** The note store *)

Module StorageService.

Import NotionService.

Definition NOTES_STORAGE_KEY : string := "@speak_to_note_notes".

(** A note as [JSON.parse] gives it: the dates are strings.  (The date
    inside [notionSyncStatus] is kept as the instant it stands for: the
    application never reads it.) *)
Record JsonNote : Type := {
  raw_id : string;
  raw_title : string;
  raw_content : string;
  raw_createdAt : string;
  raw_updatedAt : string;
  raw_audioDuration : option N;
  raw_notionSyncStatus : option Types.SyncStatus;
}.

(** The JSON codec and the [Date] constructor of the platform;
    [JSON_parse] is [None] on a text that is not a list of notes. *)
Record Json : Type := {
  JSON_stringify : list Types.Note → string;
  JSON_parse : string → option (list JsonNote);
  newDate : string → N;
}.

Section Storage.

Variable E : Env.
Variable J : Json.

(** [{...note, createdAt: new Date(note.createdAt), updatedAt: new
    Date(note.updatedAt)}] *)
Definition revive (note : JsonNote) : Types.Note :=
  {| Types.id := raw_id note;
     Types.title := raw_title note;
     Types.content := raw_content note;
     Types.createdAt := newDate J (raw_createdAt note);
     Types.updatedAt := newDate J (raw_updatedAt note);
     Types.audioDuration := raw_audioDuration note;
     Types.notionSyncStatus := raw_notionSyncStatus note |}.

Definition getNotes : M (list Types.Note) :=
  try_catch
    (notesJson ← getItem E NOTES_STORAGE_KEY;
     if truthy_opt notesJson then
       match JSON_parse J (or_empty notesJson) with
       | Some notes => mret (map revive notes)
       | None => throw "JSON Parse error"
       end
     else mret [])
    (λ error, mret []).

Definition saveNote (note : Types.Note) : M unit :=
  try_catch
    (existingNotes ← getNotes;
     let updatedNotes := existingNotes ++ [note] in
     setItem E NOTES_STORAGE_KEY (JSON_stringify J updatedNotes))
    (λ error, throw "Failed to save note").

Definition updateNote (updatedNote : Types.Note) : M unit :=
  try_catch
    (notes ← getNotes;
     let updatedNotes :=
       map (λ note, if bool_decide (Types.id note = Types.id updatedNote)
                    then updatedNote else note) notes in
     setItem E NOTES_STORAGE_KEY (JSON_stringify J updatedNotes))
    (λ error, throw "Failed to update note").

Definition deleteNote (noteId : string) : M unit :=
  try_catch
    (notes ← getNotes;
     let filteredNotes :=
       List.filter (λ note, negb (bool_decide (Types.id note = noteId))) notes in
     setItem E NOTES_STORAGE_KEY (JSON_stringify J filteredNotes))
    (λ error, throw "Failed to delete note").

Definition clearAllNotes : M unit :=
  try_catch
    (removeItem E NOTES_STORAGE_KEY)
    (λ error, throw "Failed to clear notes").

End Storage.

End StorageService.

(** ** The home screen *)

Module HomeScreen.

Import NotionService StorageService.

(** [notes.sort((a, b) => b.createdAt.getTime() - a.createdAt.getTime())]:
    newest first; the sort of the platform is stable, so notes of the same
    instant keep their order. *)
Fixpoint insertNote (note : Types.Note) (sorted : list Types.Note) : list Types.Note :=
  match sorted with
  | [] => [note]
  | other :: rest =>
      if bool_decide (Types.createdAt other ≤ Types.createdAt note)%N
      then note :: other :: rest
      else other :: insertNote note rest
  end.

Definition sortNotes (l : list Types.Note) : list Types.Note :=
  foldr insertNote [] l.

(** What [trySyncToNotion] leaves behind: the note object it was given,
    the [notes] of the screen, and how its promise settles. *)
Record SyncAttempt : Type := {
  note_after : Types.Note;
  notes_after : list Types.Note;
  settled : Outcome unit;
}.

Section Home.

Variable E : Env.
Variable J : Json.

(** [loadNotes], on the state [notes] of the screen. *)
Definition loadNotes (notes : list Types.Note) : M (list Types.Note) :=
  try_catch
    (savedNotes ← getNotes E J;
     mret (sortNotes savedNotes))
    (λ error, mret notes).

(** The [try] block of [trySyncToNotion]. *)
Definition trySyncToNotion_try (note : Types.Note) (notes : list Types.Note)
  : M (Types.Note * list Types.Note) :=
  st ← get_state;
  if negb (isConfigured st) then mret (note, notes)
  else
    ensurePageExists;;
    syncNote E (SyncStatusBar.noteFields note);;
    now ← dateNow E;
    let note := Types.setSyncStatus note
                  {| Types.isSynced := true;
                     Types.lastSyncAttempt := Some now;
                     Types.error := None |} in
    updateNote E J note;;
    notes ← loadNotes notes;
    mret (note, notes).

(** [trySyncToNotion]: before the [try] block fails it changes neither the
    screen nor, but for the status that the [catch] block overwrites, the
    note. *)
Definition trySyncToNotion (note : Types.Note) (notes : list Types.Note)
  : M SyncAttempt :=
  r ← SyncStatusBar.attempt (trySyncToNotion_try note notes);
  match r with
  | Ok (note, notes) =>
      mret {| note_after := note; notes_after := notes; settled := Ok tt |}
  | Throw message =>
      now ← dateNow E;
      let note := Types.setSyncStatus note
                    {| Types.isSynced := false;
                       Types.lastSyncAttempt := Some now;
                       Types.error := Some message |} in
      r ← SyncStatusBar.attempt (updateNote E J note);
      match r with
      | Ok _ =>
          notes ← loadNotes notes;
          mret {| note_after := note; notes_after := notes; settled := Ok tt |}
      | Throw message =>
          mret {| note_after := note; notes_after := notes; settled := Throw message |}
      end
  end.

(** [handleSyncComplete], the callback the screen gives to the bar: it
    starts [loadNotes]. *)
Definition handleSyncComplete (notes : list Types.Note) : M (list Types.Note) :=
  loadNotes notes.

(** Whether the bar called [onSyncComplete] between two states. *)
Definition called_onSyncComplete (before after : State) : bool :=
  bool_decide ((OnSyncComplete, None) ∈ Scenarios.events_since before after).

(** [handleSyncAll] of the bar of the home screen, which gets the [notes]
    of the screen and [handleSyncComplete].  The call of the callback is
    the last thing [handleSyncAll] asks of the outside (only state setters
    follow it), so the read of [loadNotes] comes next in the trace; when
    it has come back the screen renders the bar with the new [notes], and
    the effect of the bar runs. *)
Definition handleSyncAll_onScreen (c : SyncStatusBar.Component)
  : M SyncStatusBar.Component :=
  before ← get_state;
  c ← SyncStatusBar.handleSyncAll E c;
  after ← get_state;
  if called_onSyncComplete before after then
    notes ← handleSyncComplete (SyncStatusBar.notes c);
    SyncStatusBar.notesEffect E (SyncStatusBar.setNotes notes c)
  else mret c.

(** [handleDeleteNote] *)
Definition handleDeleteNote (noteId : string) (notes : list Types.Note)
  : M (list Types.Note) :=
  try_catch
    (deleteNote E J noteId;;
     loadNotes notes)
    (λ error,
       emit (Alert "Error" "Failed to delete note");;
       mret notes).

End Home.

End HomeScreen.

(** ** The token screen *)

Module NotionTokenScreen.

Import NotionService.

(** The state of the screen. *)
Record Screen : Type := {
  token : string;
  pageId : string;
  pageName : string;
  isLoading : bool;
}.

Definition setIsLoading (b : bool) (s : Screen) : Screen :=
  {| token := token s; pageId := pageId s; pageName := pageName s; isLoading := b |}.

Section TokenScreen.

Variable E : Env.

(** [String.prototype.trim] *)
Variable trim : string → string.

Definition handleSave (s : Screen) : M Screen :=
  if negb (truthy (trim (token s))) then
    emit (Alert "Error" "Please enter your Notion integration token");;
    mret s
  else if negb (truthy (trim (pageId s))) then
    emit (Alert "Error" "Please enter a page ID");;
    mret s
  else if negb (truthy (trim (pageName s))) then
    emit (Alert "Error" "Please enter a page name");;
    mret s
  else
    let s := setIsLoading true s in
    try_catch
      (saveConfig E
         {| NotionService.accessToken := trim (token s);
            NotionService.pageId := trim (pageId s);
            NotionService.pageName := trim (pageName s);
            NotionService.userId := None;
            NotionService.workspaceId := None;
            NotionService.workspaceName := None |};;
       emit (Alert "Success" "Notion integration configured successfully!"))
      (λ error, emit (Alert "Error" "Failed to save configuration. Please try again."));;
    mret (setIsLoading false s).

End TokenScreen.

End NotionTokenScreen.

(** ** The settings screen *)

Module NotionSettingsScreen.

Import NotionService.

(** The state of the screen. *)
Record Screen : Type := {
  isLoading : bool;
  isAuthenticating : bool;
  isLoadingPages : bool;
  config : option NotionConfig;
  pages : list PageItem;
  showPageSelection : bool;
  showTokenSetup : bool;
}.

Definition setIsLoading (b : bool) (s : Screen) : Screen :=
  {| isLoading := b; isAuthenticating := isAuthenticating s;
     isLoadingPages := isLoadingPages s; config := config s; pages := pages s;
     showPageSelection := showPageSelection s; showTokenSetup := showTokenSetup s |}.

Definition setIsAuthenticating (b : bool) (s : Screen) : Screen :=
  {| isLoading := isLoading s; isAuthenticating := b;
     isLoadingPages := isLoadingPages s; config := config s; pages := pages s;
     showPageSelection := showPageSelection s; showTokenSetup := showTokenSetup s |}.

Definition setIsLoadingPages (b : bool) (s : Screen) : Screen :=
  {| isLoading := isLoading s; isAuthenticating := isAuthenticating s;
     isLoadingPages := b; config := config s; pages := pages s;
     showPageSelection := showPageSelection s; showTokenSetup := showTokenSetup s |}.

Definition setConfig (c : option NotionConfig) (s : Screen) : Screen :=
  {| isLoading := isLoading s; isAuthenticating := isAuthenticating s;
     isLoadingPages := isLoadingPages s; config := c; pages := pages s;
     showPageSelection := showPageSelection s; showTokenSetup := showTokenSetup s |}.

Definition setPages (l : list PageItem) (s : Screen) : Screen :=
  {| isLoading := isLoading s; isAuthenticating := isAuthenticating s;
     isLoadingPages := isLoadingPages s; config := config s; pages := l;
     showPageSelection := showPageSelection s; showTokenSetup := showTokenSetup s |}.

Definition setShowPageSelection (b : bool) (s : Screen) : Screen :=
  {| isLoading := isLoading s; isAuthenticating := isAuthenticating s;
     isLoadingPages := isLoadingPages s; config := config s; pages := pages s;
     showPageSelection := b; showTokenSetup := showTokenSetup s |}.

Section Settings.

Variable E : Env.

Definition loadNotionConfig (s : Screen) : M Screen :=
  let s := setIsLoading true s in
  s ← try_catch
        (savedConfig ← loadConfig E;
         mret (setConfig savedConfig s))
        (λ error, mret s);
  mret (setIsLoading false s).

Definition handleLoadPages (s : Screen) : M Screen :=
  let s := setIsLoadingPages true s in
  s ← try_catch
        (userPages ← getUserPages E;
         mret (setPages userPages s))
        (λ error,
           emit (Alert "Error" "Failed to load your Notion pages. Please try again.");;
           mret s);
  mret (setIsLoadingPages false s).

(** [handleAuthenticate].  The call of [handleLoadPages] is not awaited:
    it goes on after the [finally] block, which sends nothing and sets
    another field of the state, and it cannot fail; the state given here
    is the one of the screen once both have settled. *)
Definition handleAuthenticate (s : Screen) : M Screen :=
  let s := setIsAuthenticating true s in
  s ← try_catch
        (success ← authenticate E;
         if success : bool then
           emit (Alert "Success"
                   "Notion connected successfully! Now select a page to sync with.");;
           s ← loadNotionConfig s;
           let s := setShowPageSelection true s in
           handleLoadPages s
         else
           emit (Alert "Error" "Failed to connect to Notion. Please try again.");;
           mret s)
        (λ error,
           emit (Alert "Error" "Failed to authenticate with Notion. Please try again.");;
           mret s);
  mret (setIsAuthenticating false s).

(** [setConfig(prev => prev ? { ...prev, pageId: page.id, pageName:
    page.title } : null)] *)
Definition selectPage (page : PageItem) (prev : option NotionConfig)
  : option NotionConfig :=
  match prev with
  | Some c =>
      Some {| accessToken := accessToken c;
              pageId := NotionService.id page;
              pageName := NotionService.title page;
              userId := userId c;
              workspaceId := workspaceId c;
              workspaceName := workspaceName c |}
  | None => None
  end.

Definition handleSelectPage (page : PageItem) (s : Screen) : M Screen :=
  try_catch
    (setSelectedPage E (NotionService.id page) (NotionService.title page);;
     let s := setConfig (selectPage page (config s)) s in
     let s := setShowPageSelection false s in
     emit (Alert "Success" ("Selected page: " +:+ NotionService.title page));;
     mret s)
    (λ error,
       emit (Alert "Error" "Failed to select page. Please try again.");;
       mret s).

(** The handler of the button "Disconnect" of the dialog that
    [handleDisconnect] opens. *)
Definition handleDisconnect_onPress (s : Screen) : M Screen :=
  try_catch
    (disconnect E;;
     let s := setConfig None s in
     let s := setPages [] s in
     let s := setShowPageSelection false s in
     emit (Alert "Success" "Notion disconnected successfully.");;
     mret s)
    (λ error,
       emit (Alert "Error" "Failed to disconnect Notion.");;
       mret s).

End Settings.

End NotionSettingsScreen.

(** ** The edit screen *)

Module NoteEditScreen.

Import NotionService StorageService.

(** The props and the state of the screen; [processedNote] is the note of
    the screen with its dates revived, [onSave] and [navigation] tell
    whether the props are given. *)
Record Screen : Type := {
  processedNote : option Types.Note;
  onSave : bool;
  navigation : bool;
  title : string;
  content : string;
  isEditing : bool;
  hasChanges : bool;
}.

(** [setIsEditing(false); setHasChanges(false)], and the render that
    follows.  On the screen of a note, [processedNote] is a new object at
    every render, so the effect on [title, content, processedNote] runs
    again and sets [hasChanges] to whether the fields differ from the
    note of the screen, which is still the one of before the save.
    Without a note the effect does not run again: neither [title] nor
    [content] changed. *)
Definition setSaved (s : Screen) : Screen :=
  {| processedNote := processedNote s; onSave := onSave s; navigation := navigation s;
     title := title s; content := content s; isEditing := false;
     hasChanges :=
       match processedNote s with
       | Some note =>
           bool_decide (title s ≠ Types.title note)
           || bool_decide (content s ≠ Types.content note)
       | None => false
       end |}.

(** What a run of [handleSave] leaves behind: the screen once it has
    rendered again, the note [onSave] was called with, and whether it
    asked for the home screen.  The two callbacks belong to the parent;
    they only set its state and navigate. *)
Record Saved : Type := {
  screen_after : Screen;
  onSave_called : option Types.Note;
  navigate_called : bool;
}.

Section Edit.

Variable E : Env.
Variable J : Json.

(** [String.prototype.trim] *)
Variable trim : string → string.

(** [title.trim() || 'Untitled Note'] *)
Definition noteTitle (s : Screen) : string :=
  if truthy (trim (title s)) then trim (title s) else "Untitled Note".

(** The two branches of the [try] block: the note is updated, or a new
    note is created. *)
Definition writeNote (s : Screen) : M Types.Note :=
  match processedNote s with
  | Some note =>
      now ← dateNow E;
      let updatedNote :=
        {| Types.id := Types.id note;
           Types.title := noteTitle s;
           Types.content := trim (content s);
           Types.createdAt := Types.createdAt note;
           Types.updatedAt := now;
           Types.audioDuration := Types.audioDuration note;
           Types.notionSyncStatus := Types.notionSyncStatus note |} in
      updateNote E J updatedNote;;
      mret updatedNote
  | None =>
      id ← dateNow E;
      createdAt ← dateNow E;
      updatedAt ← dateNow E;
      let newNote :=
        {| Types.id := pretty id;
           Types.title := noteTitle s;
           Types.content := trim (content s);
           Types.createdAt := createdAt;
           Types.updatedAt := updatedAt;
           Types.audioDuration := None;
           Types.notionSyncStatus := None |} in
      saveNote E J newNote;;
      mret newNote
  end.

Definition handleSave (s : Screen) : M Saved :=
  if negb (truthy (trim (title s))) && negb (truthy (trim (content s))) then
    emit (Alert "Error" "Please enter a title or content for your note");;
    mret {| screen_after := s; onSave_called := None; navigate_called := false |}
  else
    try_catch
      (note ← writeNote s;
       mret {| screen_after := setSaved s;
               onSave_called := if onSave s then Some note else None;
               navigate_called := navigation s |})
      (λ error,
         emit (Alert "Error" "Failed to save note");;
         mret {| screen_after := s; onSave_called := None; navigate_called := false |}).

End Edit.

End NoteEditScreen.

(** ** Vocabulary and samples for the other operations *)

Module Samples.

Import NotionService StorageService Scenarios.

(** The token a request to the Notion API is sent with. *)
Definition notion_request_auth (r : Request) : option string :=
  match r with
  | NotionSearch auth | PagesUpdate auth _ | BlocksAppend auth _ _ => Some auth
  | _ => None
  end.

(** The record [setSelectedPage] saves over the cached record [c]. *)
Definition with_page (c : NotionConfig) (page name : string) : NotionConfig :=
  {| accessToken := accessToken c; pageId := page; pageName := name;
     userId := userId c; workspaceId := workspaceId c;
     workspaceName := workspaceName c |}.

(** Nothing is ever rejected. *)
Definition all_accepted (E : Env) : Prop := ∀ h r, rejects E h r = None.

(** The browser session is closed by the user. *)
Definition cancelledEnv : Env :=
  {| NOTION_CONFIG := sampleApp;
     rejects := acceptAll;
     clock := λ h, 1700000000000%N;
     auth_session_result := λ h, {| res_type := "cancel"; res_url := None |};
     token_response := λ h, okResponse;
     search_results := λ h, [];
     parse_url := sampleParseUrl;
     encodeURIComponent := λ s, s;
     base64 := λ s, s;
     toLocaleString := λ t, pretty t |}.

(** A service whose API client was built with an earlier token. *)
Definition staleClientState : State :=
  with_notion (Some "tok_old") configuredState.

Definition rejectRemovePageId : list Event → Request → option string := λ h r,
  if bool_decide (r = RemoveItem NOTION_PAGE_ID_KEY)
  then Some "Storage is locked" else None.

(** AsyncStorage refuses to remove the page id. *)
Definition removeFailsEnv : Env :=
  sampleEnv rejectRemovePageId "speaktonote://auth?code=abc&state=state_7" okResponse.

(** What [getNotes] makes of the contents of the storage. *)
Definition stored_notes (J : Json) (s : gmap string string) : list Types.Note :=
  match s !! NOTES_STORAGE_KEY with
  | Some text =>
      if truthy text then
        match JSON_parse J text with
        | Some notes => map (revive J) notes
        | None => []
        end
      else []
  | None => []
  end.

(** The JSON text of [l] is not empty and reads back as [l], dates
    included. *)
Definition faithful_on (J : Json) (l : list Types.Note) : Prop :=
  JSON_stringify J l ≠ ""
  ∧ map (revive J) <$> JSON_parse J (JSON_stringify J l) = Some l.

(** [notes.map(note => note.id === updatedNote.id ? updatedNote : note)] *)
Definition replace_note (updatedNote : Types.Note) (l : list Types.Note)
  : list Types.Note :=
  map (λ note, if bool_decide (Types.id note = Types.id updatedNote)
               then updatedNote else note) l.

(** [notes.filter(note => note.id !== noteId)] *)
Definition remove_note (noteId : string) (l : list Types.Note) : list Types.Note :=
  List.filter (λ note, negb (bool_decide (Types.id note = noteId))) l.

#[export] Instance SyncStatus_eq_dec : EqDecision Types.SyncStatus.
Proof. solve_decision. Defined.

#[export] Instance Note_eq_dec : EqDecision Types.Note.
Proof. solve_decision. Defined.

Definition rawOf (note : Types.Note) : JsonNote :=
  {| raw_id := Types.id note;
     raw_title := Types.title note;
     raw_content := Types.content note;
     raw_createdAt := pretty (Types.createdAt note);
     raw_updatedAt := pretty (Types.updatedAt note);
     raw_audioDuration := Types.audioDuration note;
     raw_notionSyncStatus := Types.notionSyncStatus note |}.

(** The second sample note, once it is marked as synced. *)
Definition newNoteSynced : Types.Note :=
  Types.setSyncStatus newNote
    {| Types.isSynced := true; Types.lastSyncAttempt := Some 1700000000000%N;
       Types.error := None |}.

(** The first sample note, once its content is edited. *)
Definition editedNote : Types.Note :=
  {| Types.id := "1"; Types.title := "Groceries";
     Types.content := "milk, eggs, bread";
     Types.createdAt := 1700000000000%N; Types.updatedAt := 1700000000000%N;
     Types.audioDuration := Some 12%N;
     Types.notionSyncStatus :=
       Some {| Types.isSynced := true; Types.lastSyncAttempt := Some 1700000050000%N;
               Types.error := None |} |}.

(** The lists of notes of the samples, with a text for each. *)
Definition sampleTexts : list (string * list Types.Note) :=
  [ ("[]", []);
    ("[1]", [syncedNote]);
    ("[2]", [newNote]);
    ("[1,2]", [syncedNote; newNote]);
    ("[1,2s]", [syncedNote; newNoteSynced]);
    ("[2,1]", [newNote; syncedNote]);
    ("[1e,2]", [editedNote; newNote]) ].

Fixpoint text_of (table : list (string * list Types.Note)) (l : list Types.Note)
  : string :=
  match table with
  | [] => "null"
  | (text, l') :: rest => if bool_decide (l' = l) then text else text_of rest l
  end.

Fixpoint notes_of (table : list (string * list Types.Note)) (text : string)
  : option (list JsonNote) :=
  match table with
  | [] => None
  | (text', l) :: rest =>
      if bool_decide (text' = text) then Some (map rawOf l) else notes_of rest text
  end.

(** A codec for the samples: it knows the texts of [sampleTexts] and the
    two instants of the sample notes. *)
Definition sampleJson : Json :=
  {| JSON_stringify := text_of sampleTexts;
     JSON_parse := notes_of sampleTexts;
     newDate := λ s, if bool_decide (s = "1700000000000") then 1700000000000%N
                     else 1700000100000%N |}.

(** A device that holds the two sample notes. *)
Definition notesState : State :=
  with_storage (<[NOTES_STORAGE_KEY := "[1,2]"]> (storage configuredState)) configuredState.

Definition rejectNotesWrite : list Event → Request → option string := λ h r,
  match r with
  | SetItem key _ =>
      if bool_decide (key = NOTES_STORAGE_KEY) then Some "Storage is full" else None
  | _ => None
  end.

(** AsyncStorage refuses to write the notes; it cannot be read. *)
Definition notesWriteFailsEnv : Env :=
  sampleEnv rejectNotesWrite "speaktonote://auth?code=abc&state=state_7" okResponse.

(** A [trim] for the samples: it removes the spaces at both ends. *)
Fixpoint trimStart (s : string) : string :=
  match s with
  | String " " rest => trimStart rest
  | _ => s
  end.

Definition sampleTrim (s : string) : string :=
  String.rev (trimStart (String.rev (trimStart s))).

(** The record the token screen saves. *)
Definition screenConfig (trim : string → string) (s : NotionTokenScreen.Screen)
  : NotionConfig :=
  {| accessToken := trim (NotionTokenScreen.token s);
     pageId := trim (NotionTokenScreen.pageId s);
     pageName := trim (NotionTokenScreen.pageName s);
     userId := None; workspaceId := None; workspaceName := None |}.

Definition filledScreen : NotionTokenScreen.Screen :=
  {| NotionTokenScreen.token := " secret_abc ";
     NotionTokenScreen.pageId := "page_b";
     NotionTokenScreen.pageName := "Journal ";
     NotionTokenScreen.isLoading := false |}.

Definition blankPageScreen : NotionTokenScreen.Screen :=
  {| NotionTokenScreen.token := "secret_abc";
     NotionTokenScreen.pageId := "   ";
     NotionTokenScreen.pageName := "Journal";
     NotionTokenScreen.isLoading := false |}.

(** The order of the home screen: [b] is not newer than [a]. *)
Definition newest_first (a b : Types.Note) : Prop :=
  (Types.createdAt b ≤ Types.createdAt a)%N.

(** The two statuses [trySyncToNotion] writes. *)
Definition syncedAt (now : N) : Types.SyncStatus :=
  {| Types.isSynced := true; Types.lastSyncAttempt := Some now; Types.error := None |}.

Definition failedAt (now : N) (message : string) : Types.SyncStatus :=
  {| Types.isSynced := false; Types.lastSyncAttempt := Some now;
     Types.error := Some message |}.

(** The sample bar after a sync of its notes. *)
Definition syncedBar : SyncStatusBar.Component :=
  {| SyncStatusBar.notes := [syncedNote; newNoteSynced];
     SyncStatusBar.onSyncComplete := true;
     SyncStatusBar.unsyncedNotes := [];
     SyncStatusBar.isSyncing := false;
     SyncStatusBar.isNotionConfigured := true |}.

(** The requests of a computation are added to the trace, which is
    otherwise kept. *)
Definition grows {A} (m : M A) : Prop :=
  ∀ st, ∃ new, trace (m st).2 = new ++ trace st.

(** A request that does not write the storage. *)
Definition is_read (r : Request) : Prop :=
  is_storage_request r = true → ∃ key, r = GetItem key.

(** A computation that keeps the storage and sends no request that
    writes it. *)
Definition reads_only {A} (m : M A) : Prop :=
  ∀ st, ∃ new,
    trace (m st).2 = new ++ trace st
    ∧ storage (m st).2 = storage st
    ∧ ∀ ev, ev ∈ new → is_read ev.1.

(** The record [loadConfig] builds from the storage. *)
Definition stored_config (s : gmap string string) : NotionConfig :=
  {| accessToken := or_empty (s !! NOTION_TOKEN_KEY);
     pageId := or_empty (s !! NOTION_PAGE_ID_KEY);
     pageName := or_empty (s !! NOTION_PAGE_NAME_KEY);
     userId := or_undefined (s !! NOTION_USER_ID_KEY);
     workspaceId := or_undefined (s !! NOTION_WORKSPACE_ID_KEY);
     workspaceName := None |}.

(** The alert of [handleAuthenticate] after a connection. *)
Definition connectedAlert : Event :=
  (Alert "Success" "Notion connected successfully! Now select a page to sync with.",
   None).

(** A settings screen that was just opened on a device without
    connection. *)
Definition closedScreen : NotionSettingsScreen.Screen :=
  {| NotionSettingsScreen.isLoading := false;
     NotionSettingsScreen.isAuthenticating := false;
     NotionSettingsScreen.isLoadingPages := false;
     NotionSettingsScreen.config := None;
     NotionSettingsScreen.pages := [];
     NotionSettingsScreen.showPageSelection := false;
     NotionSettingsScreen.showTokenSetup := false |}.

(** The note the edit screen [s] writes over [note] at the instant
    [now]. *)
Definition edited (trim : string → string) (s : NoteEditScreen.Screen)
    (note : Types.Note) (now : N) : Types.Note :=
  {| Types.id := Types.id note;
     Types.title := NoteEditScreen.noteTitle trim s;
     Types.content := trim (NoteEditScreen.content s);
     Types.createdAt := Types.createdAt note;
     Types.updatedAt := now;
     Types.audioDuration := Types.audioDuration note;
     Types.notionSyncStatus := Types.notionSyncStatus note |}.

(** The edit screen of the first sample note, after its content was
    changed. *)
Definition editScreen : NoteEditScreen.Screen :=
  {| NoteEditScreen.processedNote := Some syncedNote;
     NoteEditScreen.onSave := true;
     NoteEditScreen.navigation := true;
     NoteEditScreen.title := "Groceries";
     NoteEditScreen.content := " milk, eggs, bread ";
     NoteEditScreen.isEditing := true;
     NoteEditScreen.hasChanges := true |}.

(** The alert of [handleDeleteNote]. *)
Definition deleteFailedAlert : Event :=
  (Alert "Error" "Failed to delete note", None).

End Samples.

(** ** Properties *)

Import NotionService SyncStatusBar Scenarios.

(** *** Running the monad *)

Lemma bind_run {A B} (m : M A) (f : A → M B) (st : State) :
  (m ≫= f) st = match m st with
                | (Ok a, st') => f a st'
                | (Throw e, st') => (Throw e, st')
                end.
Proof. reflexivity. Qed.

Lemma ret_run {A} (a : A) (st : State) : (mret a : M A) st = (Ok a, st).
Proof. reflexivity. Qed.

Lemma perform_accepted E r st :
  rejects E (trace st) r = None →
  perform E r st = (Ok tt, with_event (r, None) st).
Proof. intros H. unfold perform. by rewrite H. Qed.

Lemma perform_rejected E r st message :
  rejects E (trace st) r = Some message →
  perform E r st = (Throw message, with_event (r, Some message) st).
Proof. intros H. unfold perform. by rewrite H. Qed.

Lemma events_since_app st st' new :
  trace st' = new ++ trace st → events_since st st' = new.
Proof.
  intros H. unfold events_since. rewrite H, length_app.
  replace (length new + length (trace st) - length (trace st)) with (length new) by lia.
  apply take_app_length.
Qed.

(** *** C1: isConfigured *)

Lemma isConfigured_true_inv (st : State) :
  isConfigured st = true →
  ∃ c, config st = Some c ∧ accessToken c ≠ "" ∧ pageId c ≠ "".
Proof.
  unfold isConfigured. destruct (config st) as [c|]; [|done].
  intros [H1%bool_decide_eq_true_1 H2%bool_decide_eq_true_1]%andb_prop.
  by exists c.
Qed.

(** C1. [isConfigured()] is true exactly when the cached record is not
    [null] and both its [accessToken] and its [pageId] are non-empty. *)
Theorem isConfigured_iff (st : State) :
  isConfigured st = true ↔
  ∃ c, config st = Some c ∧ accessToken c ≠ "" ∧ pageId c ≠ "".
Proof.
  unfold isConfigured. split.
  - destruct (config st) as [c|]; [|done].
    intros [H1 H2]%andb_prop.
    exists c. split; [done|]. split; by eapply bool_decide_eq_true_1.
  - intros (c & -> & H1 & H2).
    by rewrite !bool_decide_eq_true_2.
Qed.

(** The scenario of the specification: a token without a destination. *)
Example isConfigured_token_only :
  isConfigured (with_config (Some {| accessToken := "tok_a"; pageId := ""; pageName := "";
                                     userId := None; workspaceId := None;
                                     workspaceName := None |}) freshState) = false.
Proof. reflexivity. Qed.

(** *** C2, C10: syncNote *)

Lemma isConfigured_false_cases st :
  isConfigured st = false →
  config st = None
  ∨ (∃ c, config st = Some c ∧ truthy (pageId c) = false)
  ∨ (∃ c, config st = Some c ∧ truthy (pageId c) = true ∧ truthy (accessToken c) = false).
Proof.
  unfold isConfigured, truthy. destruct (config st) as [c|]; [|by left].
  intros H. right.
  destruct (bool_decide (pageId c ≠ "")) eqn:Hp; [right|left]; exists c.
  - rewrite andb_true_r in H. done.
  - done.
Qed.

(** The [try] block of [syncNote] raises before it changes anything or
    sends anything when the service is not configured. *)
Lemma syncNote_try_unconfigured E note st :
  isConfigured st = false →
  ∃ message, syncNote_try E note st = (Throw message, st).
Proof.
  intros H. unfold syncNote_try, config_pageId.
  rewrite bind_run. simpl.
  destruct (isConfigured_false_cases st H) as [Hc|[(c & Hc & Hp)|(c & Hc & Hp & Ht)]];
    rewrite Hc; simpl.
  - by eexists.
  - rewrite Hp. by eexists.
  - rewrite Hp. rewrite bind_run. unfold initializeNotion.
    rewrite bind_run. simpl. rewrite Hc, Ht. by eexists.
Qed.

Lemma syncNote_unconfigured E note st :
  isConfigured st = false → syncNote E note st = (Ok true, st).
Proof.
  intros H. destruct (syncNote_try_unconfigured E note st H) as [message Hm].
  unfold syncNote, try_catch. by rewrite Hm.
Qed.

(** C2 (amended). While [isConfigured()] is false, [syncNote] sends no
    request and changes nothing (service, storage, remote pages and trace
    are those of before): its [try] block raises an error at once, and its
    own [catch] block turns that error into the result [true]. *)
Theorem syncNote_unconfigured_no_effect E note st :
  isConfigured st = false →
  (∃ message, syncNote_try E note st = (Throw message, st))
  ∧ syncNote E note st = (Ok true, st)
  ∧ events_since st (syncNote E note st).2 = [].
Proof.
  intros H. split; [|split].
  - exact (syncNote_try_unconfigured E note st H).
  - exact (syncNote_unconfigured E note st H).
  - rewrite (syncNote_unconfigured E note st H). simpl.
    unfold events_since. by rewrite Nat.sub_diag.
Qed.

Lemma syncNote_unconfigured_no_effect_witness :
  isConfigured freshState = false
  ∧ syncNote quietEnv sampleNote freshState = (Ok true, freshState).
Proof.
  split; [reflexivity|].
  destruct (syncNote_unconfigured_no_effect quietEnv sampleNote freshState)
    as (_ & Hrun & _); [reflexivity|exact Hrun].
Defined.

(** C2 as stated fails: on a service that is not configured, [syncNote]
    does not fail with an error, it resolves to [true]. *)
Lemma syncNote_unconfigured_does_not_fail :
  isConfigured freshState = false
  ∧ ¬ ∃ message, (syncNote quietEnv sampleNote freshState).1 = Throw message.
Proof.
  split; [reflexivity|].
  intros [message H]. vm_compute in H. discriminate H.
Qed.

(** [syncNote] resolves to [true] whatever happens. *)
Lemma syncNote_returns_true E note st : (syncNote E note st).1 = Ok true.
Proof.
  unfold syncNote, try_catch.
  destruct (syncNote_try E note st) as [[b|message] st'] eqn:Hrun; [|done].
  simpl. f_equal.
  unfold syncNote_try in Hrun. rewrite bind_run in Hrun. simpl in Hrun.
  destruct (truthy_opt (config_pageId st)); [|done].
  rewrite bind_run in Hrun.
  destruct (initializeNotion st) as [[[]|m1] st1]; [|done].
  rewrite bind_run in Hrun. simpl in Hrun.
  destruct (notion st1) as [auth|]; [|done].
  rewrite bind_run in Hrun.
  destruct (notion_pages_update E auth _ st1) as [[[]|m2] st2]; [|done].
  rewrite bind_run in Hrun.
  destruct (notion_blocks_children_append E auth _ _ st2) as [[[]|m3] st3]; [|done].
  by inversion Hrun.
Qed.

Lemma count_events_app p tr1 tr2 :
  count_events p (tr1 ++ tr2) = count_events p tr1 + count_events p tr2.
Proof. unfold count_events. by rewrite List.filter_app, length_app. Qed.

Lemma append_request_texts_app tr1 tr2 :
  append_request_texts (tr1 ++ tr2) = append_request_texts tr2 ++ append_request_texts tr1.
Proof. unfold append_request_texts. by rewrite omap_app, reverse_app. Qed.

Lemma initializeNotion_cases st :
  (∃ message, initializeNotion st = (Throw message, st))
  ∨ (∃ c auth, config st = Some c ∧ truthy (accessToken c) = true
       ∧ initializeNotion st = (Ok tt, with_notion (Some auth) st)).
Proof.
  unfold initializeNotion. rewrite bind_run. simpl.
  destruct (config st) as [c|] eqn:Hc; [|left; by eexists].
  destruct (truthy (accessToken c)) eqn:Ht; [|left; by eexists].
  right. exists c.
  destruct (notion st) as [auth|] eqn:Hn.
  - exists auth. do 2 (split; [done|]).
    unfold with_notion. rewrite <- Hn. by destruct st.
  - by exists (accessToken c).
Qed.

(** What one call of [syncNote] does, in every environment and state. *)
Lemma syncNote_spec E note st :
  ∃ st' new,
    syncNote E note st = (Ok true, st')
    ∧ config st' = config st
    ∧ storage st' = storage st
    ∧ trace st' = new ++ trace st
    ∧ (appends_rejected E → remote st' = remote st)
    ∧ (isConfigured st = true →
         count_events is_pages_update new = 1
         ∧ count_events is_blocks_append new = count_events is_accepted_pages_update new
         ∧ (updates_accepted E → append_request_texts new = [noteBlock E note])).
Proof.
  destruct (isConfigured st) eqn:Hconf.
  2:{ rewrite (syncNote_unconfigured E note st Hconf).
      exists st, []. by repeat split. }
  apply isConfigured_true_inv in Hconf as (c & Hc & Htok & Hpid).
  unfold syncNote, try_catch, syncNote_try. rewrite bind_run. simpl.
  unfold config_pageId. rewrite Hc. simpl.
  unfold truthy at 1. rewrite (bool_decide_eq_true_2 _ Hpid).
  rewrite bind_run.
  destruct (initializeNotion_cases st) as [[m Hi]|(c' & auth & Hc' & _ & Hi)];
    rewrite Hi.
  { unfold initializeNotion in Hi. rewrite bind_run in Hi. simpl in Hi.
    rewrite Hc in Hi. unfold truthy in Hi.
    rewrite (bool_decide_eq_true_2 _ Htok) in Hi.
    destruct (notion st); discriminate Hi. }
  rewrite bind_run. simpl. rewrite Hc. simpl. rewrite bind_run.
  unfold notion_pages_update, notion_blocks_children_append.
  set (st1 := with_notion (Some auth) st).
  destruct (rejects E (trace st1) (PagesUpdate auth (pageId c))) as [m|] eqn:Hu.
  { rewrite (perform_rejected _ _ _ _ Hu).
    eexists _, [(PagesUpdate auth (pageId c), Some m)].
    split; [reflexivity|]. do 4 (split; [done|]).
    intros _. split; [done|]. split; [done|].
    intros Hacc. specialize (Hacc (trace st1) auth (pageId c)). congruence. }
  rewrite (perform_accepted _ _ _ Hu). rewrite !bind_run.
  set (st2 := with_event (PagesUpdate auth (pageId c), None) st1).
  destruct (rejects E (trace st2) (BlocksAppend auth (pageId c) (noteBlock E note)))
    as [m|] eqn:Ha.
  { rewrite (perform_rejected _ _ _ _ Ha).
    eexists _, [(BlocksAppend auth (pageId c) (noteBlock E note), Some m);
                (PagesUpdate auth (pageId c), None)].
    split; [reflexivity|]. by repeat split. }
  rewrite (perform_accepted _ _ _ Ha). simpl.
  eexists _, [(BlocksAppend auth (pageId c) (noteBlock E note), None);
              (PagesUpdate auth (pageId c), None)].
  split; [reflexivity|]. do 3 (split; [done|]).
  split; [|by repeat split].
  intros Hrej. destruct (Hrej (trace st2) auth (pageId c) (noteBlock E note)) as [m Hm].
  congruence.
Qed.

(** *** The loop of handleSyncAll *)

Lemma isConfigured_config st st' :
  config st' = config st → isConfigured st' = isConfigured st.
Proof. unfold isConfigured. by intros ->. Qed.

Lemma noteFields_setSyncStatus note status :
  noteFields (Types.setSyncStatus note status) = noteFields note.
Proof. reflexivity. Qed.

Lemma syncLoop_spec E refs : ∀ l successCount errorCount st,
  Forall (λ i, i < length l) refs →
  ∃ l' st' new,
    syncLoop E refs l successCount errorCount st
      = (Ok (l', successCount + length refs, errorCount), st')
    ∧ config st' = config st
    ∧ trace st' = new ++ trace st
    ∧ length l' = length l
    ∧ noteFields <$> l' = noteFields <$> l
    ∧ (∀ i, i ∈ refs → ∃ note, l' !! i = Some note ∧ marked_synced note)
    ∧ (∀ i, i ∉ refs → l' !! i = l !! i)
    ∧ (appends_rejected E → remote st' = remote st)
    ∧ (isConfigured st = true →
         count_events is_pages_update new = length refs
         ∧ count_events is_blocks_append new = count_events is_accepted_pages_update new
         ∧ (updates_accepted E → append_request_texts new = ref_texts E l refs)).
Proof.
  induction refs as [|i refs IH]; intros l sc ec st Hvalid.
  { exists l, st, []. simpl. rewrite Nat.add_0_r.
    split; [done|]. do 4 (split; [done|]).
    split; [intros i Hi; by apply elem_of_nil in Hi|]. by repeat split. }
  apply Forall_cons in Hvalid as [Hi Hvalid].
  destruct (lookup_lt_is_Some_2 l i Hi) as [note Hnote].
  destruct (syncNote_spec E (noteFields note) st)
    as (st1 & new1 & Hrun1 & Hc1 & _ & Ht1 & Hr1 & Hconf1).
  set (st2 := with_event (DateNow, None) st1).
  set (status := {| Types.isSynced := true;
                    Types.lastSyncAttempt := Some (clock E (trace st2));
                    Types.error := None |}).
  set (l1 := <[i := Types.setSyncStatus note status]> l).
  assert (Hvalid1 : Forall (λ j, j < length l1) refs).
  { unfold l1. by rewrite length_insert. }
  destruct (IH l1 (S sc) ec st2 Hvalid1)
    as (l' & st' & new & Hrun & Hc & Ht & Hlen & Hfields & Hmarked & Hother & Hr & Hconf).
  exists l', st', (new ++ (DateNow, None) :: new1).
  assert (Hfields1 : noteFields <$> l1 = noteFields <$> l).
  { unfold l1. rewrite list_fmap_insert, noteFields_setSyncStatus.
    apply list_insert_id. by rewrite list_lookup_fmap, Hnote. }
  split.
  { simpl. rewrite Hnote, bind_run. unfold attempt. rewrite Hrun1.
    rewrite bind_run. fold st2. replace (sc + S (length refs)) with (S sc + length refs) by lia.
    exact Hrun. }
  split; [by rewrite Hc|].
  split; [by rewrite Ht; simpl; rewrite Ht1, <- app_assoc|].
  split; [by rewrite Hlen; unfold l1; rewrite length_insert|].
  split; [by rewrite Hfields|].
  split.
  { intros j Hj. destruct (decide (j ∈ refs)) as [Hin|Hnin]; [by apply Hmarked|].
    apply elem_of_cons in Hj as [->|Hj]; [|done].
    rewrite (Hother i Hnin). unfold l1.
    rewrite list_lookup_insert_eq by done.
    eexists. split; [done|]. by eexists. }
  split.
  { intros j Hj. apply not_elem_of_cons in Hj as [Hne Hj].
    rewrite (Hother j Hj). unfold l1. by rewrite list_lookup_insert_ne. }
  split.
  { intros Hrej. by rewrite (Hr Hrej), <- (Hr1 Hrej). }
  intros Hst.
  destruct (Hconf1 Hst) as (Hu1 & Ha1 & Htexts1).
  assert (Hst2 : isConfigured st2 = true).
  { rewrite <- Hst. apply isConfigured_config. by rewrite <- Hc1. }
  destruct (Hconf Hst2) as (Hu & Ha & Htexts).
  replace (new ++ (DateNow, None) :: new1) with (new ++ [(DateNow, None)] ++ new1) by done.
  rewrite !count_events_app, !append_request_texts_app.
  split; [simpl; rewrite Hu, Hu1; unfold count_events; simpl; lia|].
  split; [rewrite Ha, Ha1; done|].
  intros Hacc. rewrite (Htexts Hacc), (Htexts1 Hacc).
  unfold ref_texts. simpl. rewrite Hfields1.
  by rewrite list_lookup_fmap, Hnote.
Qed.

Lemma unsynced_synced note : unsynced note = negb (synced note).
Proof. unfold unsynced, synced. by destruct (Types.notionSyncStatus note). Qed.

Lemma filter_refs_valid l : ∀ k, Forall (λ i, k ≤ i < k + length l) (filter_refs k l).
Proof.
  induction l as [|note l IH]; intros k; simpl; [constructor|].
  assert (Forall (λ i, k ≤ i < k + S (length l)) (filter_refs (S k) l)).
  { eapply Forall_impl; [apply IH|]. simpl. lia. }
  destruct (unsynced note); [constructor; [lia|done]|done].
Qed.

Lemma filter_refs_elem l : ∀ k i,
  i ∈ filter_refs k l ↔ k ≤ i ∧ ∃ note, l !! (i - k) = Some note ∧ unsynced note = true.
Proof.
  induction l as [|note l IH]; intros k i; simpl.
  { split; [by intros ?%elem_of_nil|]. by intros (_ & ? & ? & _). }
  assert (Hrest : i ∈ filter_refs (S k) l ↔
                  k < i ∧ ∃ note', (note :: l) !! (i - k) = Some note' ∧ unsynced note' = true).
  { rewrite IH. split; intros (Hle & note' & Hl & Hu); (split; [lia|]); exists note'.
    - replace (i - k) with (S (i - S k)) by lia. done.
    - replace (i - k) with (S (i - S k)) in Hl by lia. done. }
  destruct (unsynced note) eqn:Hnote.
  - rewrite elem_of_cons, Hrest. split.
    + intros [->|(Hlt & note' & Hl & Hu)].
      * split; [lia|]. exists note. by rewrite Nat.sub_diag.
      * split; [lia|]. by exists note'.
    + intros (Hle & note' & Hl & Hu).
      destruct (decide (i = k)) as [->|Hne]; [by left|right].
      split; [lia|]. by exists note'.
  - rewrite Hrest. split.
    + intros (Hlt & note' & Hl & Hu). split; [lia|]. by exists note'.
    + intros (Hle & note' & Hl & Hu).
      destruct (decide (i = k)) as [->|Hne].
      * rewrite Nat.sub_diag in Hl. simpl in Hl. congruence.
      * split; [lia|]. by exists note'.
Qed.

Lemma count_synced_le l : length (List.filter synced l) ≤ length l.
Proof. induction l as [|note l IH]; simpl; [done|]. destruct (synced note); simpl; lia. Qed.

Lemma filter_refs_length l : ∀ k,
  length (filter_refs k l) = length l - length (List.filter synced l).
Proof.
  induction l as [|note l IH]; intros k; simpl; [done|].
  rewrite unsynced_synced. pose proof (count_synced_le l).
  destruct (synced note); simpl; rewrite IH; lia.
Qed.

Lemma ref_texts_cons E l i refs note :
  l !! i = Some note →
  ref_texts E l (i :: refs) = noteBlock E (noteFields note) :: ref_texts E l refs.
Proof. intros H. unfold ref_texts. simpl. by rewrite list_lookup_fmap, H. Qed.

Lemma ref_texts_filter_refs E l : ∀ pre,
  ref_texts E (pre ++ l) (filter_refs (length pre) l)
  = map (λ note, noteBlock E (noteFields note)) (List.filter unsynced l).
Proof.
  induction l as [|note l IH]; intros pre; simpl; [done|].
  specialize (IH (pre ++ [note])).
  rewrite <- app_assoc, length_app in IH. simpl in IH.
  rewrite Nat.add_1_r in IH.
  destruct (unsynced note); [|done].
  rewrite (ref_texts_cons E _ _ _ note) by (by apply list_lookup_middle).
  simpl. by rewrite IH.
Qed.

Lemma ensurePageExists_ok st :
  truthy_opt (config_pageId st) = true → ensurePageExists st = (Ok tt, st).
Proof.
  intros H. unfold ensurePageExists, try_catch. rewrite bind_run. simpl. by rewrite H.
Qed.

Lemma isConfigured_pageId st :
  isConfigured st = true → truthy_opt (config_pageId st) = true.
Proof.
  intros (c & Hc & _ & Hp)%isConfigured_true_inv.
  unfold config_pageId. rewrite Hc. simpl. by apply bool_decide_eq_true_2.
Qed.

(** The report of a batch without failures. *)
Lemma showResults_success c n st :
  0 < n →
  ∃ st' evs,
    showResults c n 0 st = (Ok tt, st')
    ∧ config st' = config st ∧ remote st' = remote st
    ∧ trace st' = evs ++ trace st
    ∧ syncCompleteAlert n ∈ evs
    ∧ (∀ p, (p = is_pages_update ∨ p = is_blocks_append ∨ p = is_accepted_pages_update) →
            count_events p evs = 0)
    ∧ append_request_texts evs = [].
Proof.
  intros Hn. unfold showResults.
  rewrite (bool_decide_eq_true_2 _ Hn). simpl.
  rewrite bind_run. simpl. unfold callOnSyncComplete.
  destruct (onSyncComplete c).
  - eexists _, [(OnSyncComplete, None); syncCompleteAlert n].
    split; [reflexivity|]. do 3 (split; [done|]).
    split; [set_solver|]. split; [|done].
    by intros p [->|[->| ->]].
  - eexists _, [syncCompleteAlert n].
    split; [reflexivity|]. do 3 (split; [done|]).
    split; [set_solver|]. split; [|done].
    by intros p [->|[->| ->]].
Qed.

(** What [handleSyncAll] does once a destination page is selected. *)
Lemma handleSyncAll_spec E c st :
  truthy_opt (config_pageId st) = true →
  ∃ c' st' new,
    handleSyncAll E (updateUnsyncedNotes c) st = (Ok c', st')
    ∧ config st' = config st
    ∧ trace st' = new ++ trace st
    ∧ noteFields <$> notes c' = noteFields <$> notes c
    ∧ (∀ j note, notes c' !! j = Some note → synced note = true)
    ∧ (appends_rejected E → remote st' = remote st)
    ∧ (isConfigured st = true →
         let n := length (notes c) - length (List.filter synced (notes c)) in
         count_events is_pages_update new = n
         ∧ count_events is_blocks_append new = count_events is_accepted_pages_update new
         ∧ (updates_accepted E →
              append_request_texts new
              = map (λ note, noteBlock E (noteFields note)) (List.filter unsynced (notes c)))
         ∧ (0 < n → syncCompleteAlert n ∈ new)).
Proof.
  intros Hpage. unfold handleSyncAll. simpl.
  pose proof (filter_refs_length (notes c) 0) as Hlen.
  pose proof (ref_texts_filter_refs E (notes c) []) as Htexts. simpl in Htexts.
  pose proof (filter_refs_elem (notes c) 0) as Helem.
  pose proof (filter_refs_valid (notes c) 0) as Hvalid. simpl in Hvalid.
  set (refs := filter_refs 0 (notes c)) in *.
  case_bool_decide as Hempty.
  { apply length_zero_iff_nil in Hempty as Hnil.
    exists (updateUnsyncedNotes c), st, []. simpl.
    do 4 (split; [done|]).
    split.
    { intros j note Hj. destruct (synced note) eqn:Hs; [done|].
      assert (j ∈ refs) as Hin; [|rewrite Hnil in Hin; by apply elem_of_nil in Hin].
      apply Helem. split; [lia|]. exists note. rewrite Nat.sub_0_r.
      split; [done|]. by rewrite unsynced_synced, Hs. }
    split; [done|].
    intros _. rewrite <- Hlen, Hempty, <- Htexts, Hnil.
    split; [done|]. split; [done|]. split; [done|]. lia. }
  rewrite bind_run. unfold try_catch at 1. rewrite bind_run.
  rewrite (ensurePageExists_ok st Hpage). rewrite bind_run.
  assert (Hvalid' : Forall (λ i, i < length (notes c)) refs).
  { eapply Forall_impl; [exact Hvalid|]. simpl. lia. }
  destruct (syncLoop_spec E refs (notes c) 0 0 st Hvalid')
    as (l' & st1 & new1 & Hrun & Hc1 & Ht1 & Hlen1 & Hfields & Hmarked & Hother & Hr1 & Hconf).
  simpl in Hrun. simpl. rewrite Hrun. rewrite bind_run.
  assert (Hpos : 0 < length refs) by lia.
  destruct (showResults_success
              (setIsSyncing true (updateUnsyncedNotes c)) (length refs) st1 Hpos)
    as (st2 & evs & Hshow & Hc2 & Hr2 & Ht2 & Halert & Hcount & Hno).
  fold refs. rewrite Hshow. simpl.
  eexists _, st2, (evs ++ new1).
  split; [reflexivity|]. simpl.
  split; [by rewrite Hc2|].
  split; [by rewrite Ht2, Ht1, app_assoc|].
  split; [done|].
  split.
  { intros j note Hj.
    destruct (decide (j ∈ refs)) as [Hin|Hnin].
    - destruct (Hmarked j Hin) as (note' & Hj' & t & Hstatus).
      unfold synced. by replace note with note' by congruence; rewrite Hstatus.
    - rewrite (Hother j Hnin) in Hj.
      destruct (synced note) eqn:Hs; [done|]. exfalso. apply Hnin.
      apply Helem. split; [lia|]. exists note. rewrite Nat.sub_0_r.
      split; [done|]. by rewrite unsynced_synced, Hs. }
  split; [intros Hrej; by rewrite Hr2, (Hr1 Hrej)|].
  intros Hst. destruct (Hconf Hst) as (Hu & Ha & Htx).
  rewrite !count_events_app, append_request_texts_app, Hno, app_nil_r.
  rewrite !Hcount by auto. simpl. rewrite <- Hlen.
  split; [done|]. split; [done|].
  split; [intros Hacc; by rewrite (Htx Hacc)|].
  intros _. apply elem_of_app. by left.
Qed.

(** *** C7: the batch *)

(** C7 (amended). Let [n] be the number of notes that are not synced yet
    ([N - M]).  With a configured service, [handleSyncAll] goes through all
    [n] of them, one after the other and without stopping at a failure: it
    sends exactly [n] page-update requests, and a block-append request for
    each of these notes whose page update was accepted; so, when the page
    updates are accepted, the append requests are those of the [n] notes,
    in the order of the list, whether the appends succeed or not.  It then
    reports [n] synced notes. *)
Theorem handleSyncAll_attempts E c st :
  isConfigured st = true →
  let n := length (notes c) - length (List.filter synced (notes c)) in
  ∃ c' st',
    handleSyncAll E (updateUnsyncedNotes c) st = (Ok c', st')
    ∧ count_events is_pages_update (events_since st st') = n
    ∧ count_events is_blocks_append (events_since st st')
      = count_events is_accepted_pages_update (events_since st st')
    ∧ (updates_accepted E →
         append_request_texts (events_since st st')
         = map (λ note, noteBlock E (noteFields note)) (List.filter unsynced (notes c)))
    ∧ (0 < n → syncCompleteAlert n ∈ events_since st st').
Proof.
  intros Hst n.
  destruct (handleSyncAll_spec E c st (isConfigured_pageId st Hst))
    as (c' & st' & new & Hrun & _ & Ht & _ & _ & _ & Hconf).
  exists c', st'. rewrite (events_since_app st st' new Ht).
  split; [done|]. exact (Hconf Hst).
Qed.

Lemma handleSyncAll_attempts_witness :
  isConfigured configuredState = true
  ∧ ∃ c' st',
      handleSyncAll appendFailsEnv (updateUnsyncedNotes sampleBar) configuredState
        = (Ok c', st')
      ∧ count_events is_pages_update (events_since configuredState st') = 1
      ∧ append_request_texts (events_since configuredState st')
        = [noteBlock appendFailsEnv (noteFields newNote)].
Proof.
  split; [reflexivity|].
  destruct (handleSyncAll_attempts appendFailsEnv sampleBar configuredState)
    as (c' & st' & Hrun & Hupdates & _ & Htexts & _); [reflexivity|].
  exists c', st'. split; [exact Hrun|]. split; [exact Hupdates|].
  apply Htexts. intros h auth page_id. reflexivity.
Defined.

(** C7 as stated fails: with one note to sync, no append request is sent
    when the page update that precedes it is rejected, nor when no
    destination page is selected. *)
Lemma handleSyncAll_sends_no_append :
  length (notes sampleBar) - length (List.filter synced (notes sampleBar)) = 1
  ∧ isConfigured configuredState = true
  ∧ count_events is_blocks_append
      (events_since configuredState
         (handleSyncAll updateFailsEnv (updateUnsyncedNotes sampleBar) configuredState).2) = 0
  ∧ count_events is_blocks_append
      (events_since authenticatedState
         (handleSyncAll quietEnv (updateUnsyncedNotes sampleBar) authenticatedState).2) = 0.
Proof. vm_compute. done. Qed.

(** *** C10: a failed sync is recorded as a success *)

Lemma showResults_resolves c successCount errorCount st :
  ∃ st', showResults c successCount errorCount st = (Ok tt, st').
Proof.
  unfold showResults, callOnSyncComplete.
  repeat (match goal with |- context [if ?b then _ else _] => destruct b end);
    simpl; by eexists.
Qed.

(** The loop marks the notes it is given references to, and only them:
    each of them ends as it was but for its status, which says that it
    is synced; the other notes are what they were. *)
Lemma syncLoop_marks E refs : ∀ l successCount errorCount st,
  ∃ l' successCount' errorCount' st',
    syncLoop E refs l successCount errorCount st
      = (Ok (l', successCount', errorCount'), st')
    ∧ length l' = length l
    ∧ ∀ i note, l !! i = Some note →
        (i ∈ refs →
         ∃ t, l' !! i = Some (Types.setSyncStatus note
                                {| Types.isSynced := true;
                                   Types.lastSyncAttempt := Some t;
                                   Types.error := None |}))
        ∧ (i ∉ refs → l' !! i = Some note).
Proof.
  induction refs as [|i refs IH]; intros l sc ec st.
  { exists l, sc, ec, st. split; [done|]. split; [done|].
    intros i note Hnote. split; [by intros ?%elem_of_nil|done]. }
  simpl. destruct (l !! i) as [note|] eqn:Hnote.
  - destruct (syncNote_spec E (noteFields note) st) as (st1 & new1 & Hrun1 & _).
    rewrite bind_run. unfold attempt. rewrite Hrun1. rewrite bind_run.
    unfold dateNow, emit. repeat (first [rewrite bind_run | rewrite ret_run]; simpl).
    match goal with |- context [syncLoop E refs ?l1 ?sc1 ?ec1 ?s1] =>
      destruct (IH l1 sc1 ec1 s1) as (l' & sc' & ec' & st' & Hrun & Hlen & Hmarks);
      set (marked := l1) in * end.
    exists l', sc', ec', st'. split; [done|].
    split; [by rewrite Hlen; unfold marked; rewrite length_insert|].
    intros j note' Hj. destruct (decide (j = i)) as [->|Hne].
    + assert (note' = note) as -> by congruence.
      assert (Hi : marked !! i = Some (Types.setSyncStatus note
                     {| Types.isSynced := true;
                        Types.lastSyncAttempt :=
                          Some (clock E ((DateNow, None) :: trace st1));
                        Types.error := None |})).
      { unfold marked. apply list_lookup_insert_eq. by eapply lookup_lt_Some. }
      destruct (Hmarks i _ Hi) as [Hin Hnin].
      split; [|intros []; left].
      intros _. destruct (decide (i ∈ refs)) as [Hrefs|Hrefs].
      * destruct (Hin Hrefs) as [t Ht]. by exists t.
      * eexists. by apply Hnin.
    + assert (Hj' : marked !! j = Some note').
      { unfold marked. by rewrite list_lookup_insert_ne. }
      destruct (Hmarks j _ Hj') as [Hin Hnin]. split.
      * intros [?|Hrefs]%elem_of_cons; [done|by apply Hin].
      * intros [_ Hrefs]%not_elem_of_cons. by apply Hnin.
  - destruct (IH l sc ec st) as (l' & sc' & ec' & st' & Hrun & Hlen & Hmarks).
    exists l', sc', ec', st'. do 2 (split; [done|]).
    intros j note' Hj. destruct (Hmarks j _ Hj) as [Hin Hnin].
    assert (j ≠ i) by congruence. split.
    + intros [?|Hrefs]%elem_of_cons; [done|by apply Hin].
    + intros [_ Hrefs]%not_elem_of_cons. by apply Hnin.
Qed.

(** What [handleSyncAll] makes of the notes once a page is selected: the
    notes are the same, in the same places; a note that was synced is
    untouched, and a note that was not is marked as synced. *)
Lemma handleSyncAll_marks E c st :
  truthy_opt (config_pageId st) = true →
  ∃ c' st',
    handleSyncAll E (updateUnsyncedNotes c) st = (Ok c', st')
    ∧ length (notes c') = length (notes c)
    ∧ ∀ j note, notes c !! j = Some note →
        if synced note then notes c' !! j = Some note
        else ∃ t, notes c' !! j
                  = Some (Types.setSyncStatus note
                            {| Types.isSynced := true;
                               Types.lastSyncAttempt := Some t;
                               Types.error := None |}).
Proof.
  intros Hpage. unfold handleSyncAll. simpl.
  pose proof (filter_refs_elem (notes c) 0) as Helem.
  set (refs := filter_refs 0 (notes c)) in *.
  assert (Hrefs : ∀ j note, notes c !! j = Some note →
                            j ∈ refs ↔ synced note = false).
  { intros j note Hj. rewrite Helem, Nat.sub_0_r. split.
    - intros (_ & note' & Hj' & Hunsynced).
      assert (note' = note) as -> by congruence.
      rewrite unsynced_synced in Hunsynced. by destruct (synced note).
    - intros Hs. split; [lia|]. exists note. split; [done|].
      by rewrite unsynced_synced, Hs. }
  case_bool_decide as Hempty.
  { apply length_zero_iff_nil in Hempty as Hnil.
    exists (updateUnsyncedNotes c), st. split; [done|]. split; [done|].
    intros j note Hj. simpl. destruct (synced note) eqn:Hs; [done|].
    apply (Hrefs j note Hj) in Hs. rewrite Hnil in Hs. by apply elem_of_nil in Hs. }
  rewrite bind_run. unfold try_catch at 1. rewrite bind_run.
  rewrite (ensurePageExists_ok st Hpage). rewrite bind_run.
  destruct (syncLoop_marks E refs (notes c) 0 0 st)
    as (l' & sc & ec & st1 & Hrun & Hlen & Hmarks).
  simpl. fold refs. rewrite Hrun. rewrite bind_run.
  match goal with |- context [showResults ?c0 sc ec st1] =>
    destruct (showResults_resolves c0 sc ec st1) as [st2 Hshow]; rewrite Hshow end.
  simpl. eexists _, st2. split; [reflexivity|]. simpl. split; [done|].
  intros j note Hj. destruct (Hmarks j note Hj) as [Hin Hnin].
  destruct (synced note) eqn:Hs.
  - apply Hnin. rewrite (Hrefs j note Hj), Hs. done.
  - apply Hin. by apply (Hrefs j note Hj).
Qed.

(** C10. [syncNote] never raises: it resolves to [true] in every
    environment and state.  Hence, once a page is selected,
    [handleSyncAll] records [isSynced = true], without an error, for
    every note that was not synced, also when the Notion API rejects
    every append request and the remote pages are what they were: the
    notes it leaves are the notes it was given, in the same places, those
    that were synced untouched and each of the others with nothing
    changed but its status; so every note ends with [isSynced = true]. *)
Theorem syncNote_never_raises :
  (∀ E note st, (syncNote E note st).1 = Ok true)
  ∧ (∀ E c st,
       truthy_opt (config_pageId st) = true →
       appends_rejected E →
       ∃ c' st',
         handleSyncAll E (updateUnsyncedNotes c) st = (Ok c', st')
         ∧ length (notes c') = length (notes c)
         ∧ (∀ j note, notes c !! j = Some note →
              if synced note then notes c' !! j = Some note
              else ∃ t, notes c' !! j
                        = Some (Types.setSyncStatus note
                                  {| Types.isSynced := true;
                                     Types.lastSyncAttempt := Some t;
                                     Types.error := None |}))
         ∧ (∀ j note, notes c' !! j = Some note → synced note = true)
         ∧ remote st' = remote st).
Proof.
  split; [exact syncNote_returns_true|].
  intros E c st Hpage Hrej.
  destruct (handleSyncAll_spec E c st Hpage)
    as (c' & st' & new & Hrun & _ & _ & _ & Hsynced & Hremote & _).
  destruct (handleSyncAll_marks E c st Hpage) as (c2 & st2 & Hrun2 & Hlen & Hmarks).
  assert (c2 = c') as -> by congruence.
  exists c', st'. do 4 (split; [done|]). by apply Hremote.
Qed.

Lemma syncNote_never_raises_witness :
  (syncNote appendFailsEnv (noteFields newNote) configuredState).1 = Ok true
  ∧ ∃ c' st',
      handleSyncAll appendFailsEnv (updateUnsyncedNotes sampleBar) configuredState
        = (Ok c', st')
      ∧ notes c' !! 0 = Some syncedNote
      ∧ (∃ t, notes c' !! 1
              = Some (Types.setSyncStatus newNote
                        {| Types.isSynced := true; Types.lastSyncAttempt := Some t;
                           Types.error := None |}))
      ∧ length (notes c') = 2
      ∧ (∀ j note, notes c' !! j = Some note → synced note = true)
      ∧ remote st' = remote configuredState.
Proof.
  destruct syncNote_never_raises as [Htrue Hbatch].
  split; [apply Htrue|].
  destruct (Hbatch appendFailsEnv sampleBar configuredState)
    as (c' & st' & Hrun & Hlen & Hmarks & Hsynced & Hremote).
  - reflexivity.
  - intros h auth block_id text. eexists. reflexivity.
  - exists c', st'. split; [exact Hrun|].
    split; [exact (Hmarks 0 syncedNote eq_refl)|].
    split; [exact (Hmarks 1 newNote eq_refl)|].
    split; [exact Hlen|]. split; [exact Hsynced|exact Hremote].
Defined.

(** The batch scenario of the specification on the code: the append for
    the second note fails, and yet the note is marked as synced, without
    an error, and one success is reported. *)
Example handleSyncAll_failing_append :
  let '(r, st') :=
    handleSyncAll appendFailsEnv (updateUnsyncedNotes sampleBar) configuredState in
  (∃ c', r = Ok c'
         ∧ (Types.error <$> (notes c' !! 1 ≫= Types.notionSyncStatus)) = Some None
         ∧ (Types.isSynced <$> (notes c' !! 1 ≫= Types.notionSyncStatus)) = Some true)
  ∧ remote st' = []
  ∧ syncCompleteAlert 1 ∈ events_since configuredState st'.
Proof.
  vm_compute. split; [|split; [done|]].
  - eexists. split; [reflexivity|]. done.
  - apply list_elem_of_In. simpl. auto.
Qed.

(** *** The credential store on a working AsyncStorage *)

Ltac run_perform :=
  match goal with
  | |- context [perform ?E ?r ?st] =>
      let m := fresh "m" in
      let H := fresh "Hrej" in
      destruct (rejects E (trace st) r) as [m|] eqn:H;
      [rewrite (perform_rejected E r st m H) | rewrite (perform_accepted E r st H)]
  end.

(** Runs the steps of a computation that send no request. *)
Ltac run_pure :=
  repeat (first [rewrite bind_run | rewrite ret_run]; simpl).

(** Runs a computation, with a case distinction at every request. *)
Ltac run_cases :=
  repeat (first [rewrite bind_run | rewrite ret_run | run_perform]; simpl).

Ltac run_storage Hworks :=
  match goal with
  | |- context [perform ?E ?r ?st] =>
      rewrite (perform_accepted E r st (Hworks (trace st) r eq_refl))
  end.

(** [saveConfig] on a working storage: the cache holds a copy of the
    record, the token, the page id and the page name are written, the user
    id and the workspace id are written when they are not empty, and no
    other entry changes. *)
Lemma saveConfig_works E c st :
  storage_works E →
  ∃ st',
    saveConfig E c st = (Ok tt, st')
    ∧ config st' = Some c
    ∧ notion st' = notion st
    ∧ remote st' = remote st
    ∧ storage st' !! NOTION_TOKEN_KEY = Some (accessToken c)
    ∧ storage st' !! NOTION_PAGE_ID_KEY = Some (pageId c)
    ∧ storage st' !! NOTION_PAGE_NAME_KEY = Some (pageName c)
    ∧ storage st' !! NOTION_USER_ID_KEY
      = (if truthy_opt (userId c) then userId c else storage st !! NOTION_USER_ID_KEY)
    ∧ storage st' !! NOTION_WORKSPACE_ID_KEY
      = (if truthy_opt (workspaceId c) then workspaceId c
         else storage st !! NOTION_WORKSPACE_ID_KEY).
Proof.
  intros Hworks. unfold saveConfig, try_catch, setItem.
  rewrite !bind_run. run_storage Hworks. simpl.
  rewrite !bind_run. run_storage Hworks. simpl.
  rewrite !bind_run. run_storage Hworks. simpl.
  destruct (userId c) as [u|] eqn:Hu; simpl;
    [destruct (truthy u) eqn:Htu|];
    destruct (workspaceId c) as [w|] eqn:Hw; simpl;
    try destruct (truthy w) eqn:Htw;
    rewrite ?bind_run; try run_storage Hworks; simpl;
    rewrite ?bind_run; try run_storage Hworks; simpl;
    (eexists; split; [reflexivity|]; simpl; repeat split;
     rewrite ?Hu, ?Hw; simpl; rewrite ?Htu, ?Htw; by simplify_map_eq).
Qed.

(** [loadConfig] on a working storage: without a token entry (or with an
    empty one) it resolves to [null] and leaves the cache alone; otherwise
    it rebuilds the record from the five entries, without a workspace
    name, and caches it. *)
Lemma loadConfig_works E st :
  storage_works E →
  ∃ st',
    storage st' = storage st
    ∧ if truthy_opt (storage st !! NOTION_TOKEN_KEY) then
        let c := {| accessToken := or_empty (storage st !! NOTION_TOKEN_KEY);
                    pageId := or_empty (storage st !! NOTION_PAGE_ID_KEY);
                    pageName := or_empty (storage st !! NOTION_PAGE_NAME_KEY);
                    userId := or_undefined (storage st !! NOTION_USER_ID_KEY);
                    workspaceId := or_undefined (storage st !! NOTION_WORKSPACE_ID_KEY);
                    workspaceName := None |} in
        loadConfig E st = (Ok (Some c), st') ∧ config st' = Some c
      else
        loadConfig E st = (Ok None, st') ∧ config st' = config st.
Proof.
  intros Hworks. unfold loadConfig, try_catch, getItem.
  do 5 (rewrite !bind_run; run_storage Hworks; simpl).
  destruct (truthy_opt (storage st !! NOTION_TOKEN_KEY));
    eexists; (split; [|split; reflexivity]); done.
Qed.

(** *** C4: save, then load *)

(** C4 (amended). On a working storage, saving a record with a non-empty
    access token and loading it gives a record with the same access token,
    page id and page name, with the same user id and workspace id when
    these are non-empty strings (and without them when they are absent and
    the storage holds no entry for them), and without a workspace name:
    the workspace name has no storage entry. *)
Theorem save_load_round_trip E c st :
  storage_works E →
  accessToken c ≠ "" →
  ∃ st1 c',
    saveConfig E c st = (Ok tt, st1)
    ∧ (loadConfig E st1).1 = Ok (Some c')
    ∧ accessToken c' = accessToken c
    ∧ pageId c' = pageId c
    ∧ pageName c' = pageName c
    ∧ (truthy_opt (userId c) = true → userId c' = userId c)
    ∧ (truthy_opt (workspaceId c) = true → workspaceId c' = workspaceId c)
    ∧ (userId c = None → storage st !! NOTION_USER_ID_KEY = None → userId c' = None)
    ∧ (workspaceId c = None → storage st !! NOTION_WORKSPACE_ID_KEY = None →
       workspaceId c' = None)
    ∧ workspaceName c' = None.
Proof.
  intros Hworks Htoken.
  destruct (saveConfig_works E c st Hworks)
    as (st1 & Hsave & _ & _ & _ & Ht & Hp & Hn & Hu & Hw).
  destruct (loadConfig_works E st1 Hworks) as (st2 & _ & Hload).
  rewrite Ht in Hload. simpl in Hload. unfold truthy in Hload.
  rewrite (bool_decide_eq_true_2 _ Htoken) in Hload.
  destruct Hload as [Hload _].
  eexists st1, _. split; [done|]. split; [by rewrite Hload|]. simpl.
  rewrite Hp, Hn, Hu, Hw. simpl.
  do 3 (split; [done|]).
  split; [intros H; rewrite H; unfold or_undefined; by rewrite H|].
  split; [intros H; rewrite H; unfold or_undefined; by rewrite H|].
  split; [by intros -> ->|]. split; [by intros -> ->|]. done.
Qed.

Lemma save_load_round_trip_witness :
  ∃ st1 c',
    saveConfig quietEnv sampleConfig freshState = (Ok tt, st1)
    ∧ (loadConfig quietEnv st1).1 = Ok (Some c')
    ∧ accessToken c' = "tok_a" ∧ pageId c' = "page_a" ∧ pageName c' = "Inbox"
    ∧ userId c' = Some "user_1" ∧ workspaceId c' = Some "ws_1"
    ∧ workspaceName c' = None.
Proof.
  destruct (save_load_round_trip quietEnv sampleConfig freshState)
    as (st1 & c' & Hsave & Hload & Ht & Hp & Hn & Hu & Hw & _ & _ & Hname).
  - intros h r _. reflexivity.
  - discriminate.
  - exists st1, c'. repeat split; try assumption.
    + apply Hu. reflexivity.
    + apply Hw. reflexivity.
Defined.

(** C4 as stated fails: the workspace name of a saved record is lost. *)
Lemma save_load_loses_workspace_name :
  workspaceName sampleConfig = Some "Acme"
  ∧ (loadConfig quietEnv (saveConfig quietEnv sampleConfig freshState).2).1
    = Ok (Some {| accessToken := "tok_a"; pageId := "page_a"; pageName := "Inbox";
                  userId := Some "user_1"; workspaceId := Some "ws_1";
                  workspaceName := None |})
  ∧ (loadConfig quietEnv (saveConfig quietEnv sampleConfig freshState).2).1
    ≠ Ok (Some sampleConfig).
Proof. split; [done|]. split; [by vm_compute|]. vm_compute. discriminate. Qed.

(** *** C8: storage failures *)

Ltac trace_prefix tr base :=
  lazymatch tr with
  | base => constr:(@nil Event)
  | ?ev :: ?tr' => let rest := trace_prefix tr' base in constr:(ev :: rest)
  end.

Ltac compute_events_since :=
  match goal with
  | |- context [events_since ?st ?st'] =>
      let tr := eval cbv [trace with_event with_storage with_config with_notion
                          with_remote] in (trace st') in
      let base := eval cbv [trace] in (trace st) in
      let evs := trace_prefix tr base in
      rewrite (events_since_app st st' evs eq_refl)
  end.

Ltac find_rejected H :=
  repeat (apply elem_of_cons in H as [H|H]; [try discriminate H|]);
  try (by apply elem_of_nil in H).

(** A rejected write makes [saveConfig] raise, with the message of the
    rejection as context, and keeps the cache as it was. *)
Lemma saveConfig_rejected E c st key value message :
  (SetItem key value, Some message) ∈ events_since st (saveConfig E c st).2 →
  (saveConfig E c st).1
    = Throw ("Failed to save user Notion configuration: " +:+ message)
  ∧ config (saveConfig E c st).2 = config st.
Proof.
  unfold saveConfig, try_catch, setItem.
  destruct (userId c) as [u|]; simpl; [destruct (truthy u)|];
    (destruct (workspaceId c) as [w|]; simpl; [destruct (truthy w)|]);
    run_cases; compute_events_since; intros Hin; find_rejected Hin;
    by injection Hin as -> -> ->.
Qed.

(** A rejected read makes [loadConfig] resolve to [null], as if nothing
    were stored, and keeps the cache as it was. *)
Lemma loadConfig_rejected E st key message :
  (GetItem key, Some message) ∈ events_since st (loadConfig E st).2 →
  (loadConfig E st).1 = Ok None
  ∧ config (loadConfig E st).2 = config st.
Proof.
  unfold loadConfig, try_catch, getItem.
  run_cases;
    try destruct (truthy_opt (storage st !! NOTION_TOKEN_KEY)); simpl;
    compute_events_since; intros Hin; find_rejected Hin; done.
Qed.

(** C8 (amended). A rejected storage write is not swallowed by
    [saveConfig]: it raises an error that carries the message of the
    rejection.  A rejected storage read is caught by [loadConfig], which
    resolves to [null] as it does when nothing is stored. *)
Theorem storage_failure_handling :
  (∀ E c st key value message,
     (SetItem key value, Some message) ∈ events_since st (saveConfig E c st).2 →
     (saveConfig E c st).1
       = Throw ("Failed to save user Notion configuration: " +:+ message)
     ∧ config (saveConfig E c st).2 = config st)
  ∧ (∀ E st key message,
       (GetItem key, Some message) ∈ events_since st (loadConfig E st).2 →
       (loadConfig E st).1 = Ok None
       ∧ config (loadConfig E st).2 = config st).
Proof. split; [exact saveConfig_rejected|exact loadConfig_rejected]. Qed.

Lemma storage_failure_handling_witness :
  (saveConfig writeFailsEnv sampleConfig freshState).1
    = Throw "Failed to save user Notion configuration: Storage is full"
  ∧ (loadConfig readFailsEnv configuredState).1 = Ok None.
Proof.
  destruct storage_failure_handling as [Hsave Hload].
  split.
  - apply (Hsave writeFailsEnv sampleConfig freshState
             NOTION_TOKEN_KEY "tok_a" "Storage is full").
    vm_compute. left.
  - apply (Hload readFailsEnv configuredState
             NOTION_TOKEN_KEY "Failed to read from storage").
    vm_compute. left.
Defined.

(** C8 as stated fails: a token is stored, reading it is rejected, and
    [loadConfig] resolves to [null] instead of raising. *)
Lemma loadConfig_swallows_read_failure :
  storage configuredState !! NOTION_TOKEN_KEY = Some "tok_a"
  ∧ (GetItem NOTION_TOKEN_KEY, Some "Failed to read from storage")
    ∈ events_since configuredState (loadConfig readFailsEnv configuredState).2
  ∧ (loadConfig readFailsEnv configuredState).1 = Ok None.
Proof. split; [by vm_compute|]. split; [vm_compute; left|by vm_compute]. Qed.

(** *** C5: disconnect *)

(** [disconnect] on a working storage: the token, the page id and the
    page name are removed, the cache and the client are dropped, and the
    next [loadConfig] resolves to [null]; no other entry changes. *)
Lemma disconnect_works E st :
  storage_works E →
  ∃ st',
    disconnect E st = (Ok tt, st')
    ∧ config st' = None
    ∧ notion st' = None
    ∧ storage st' = delete NOTION_PAGE_NAME_KEY
                      (delete NOTION_PAGE_ID_KEY (delete NOTION_TOKEN_KEY (storage st)))
    ∧ (loadConfig E st').1 = Ok None.
Proof.
  intros Hworks. unfold disconnect, try_catch, removeItem.
  do 3 (rewrite !bind_run; run_storage Hworks; simpl).
  eexists. split; [reflexivity|]. simpl. do 3 (split; [done|]).
  match goal with |- (loadConfig E ?st').1 = _ =>
    destruct (loadConfig_works E st' Hworks) as (st2 & _ & Hload) end.
  simpl in Hload. rewrite lookup_delete_ne, lookup_delete_ne, lookup_delete_eq in Hload
    by done.
  simpl in Hload. destruct Hload as [-> _]. done.
Qed.

(** C5, on the code: after a disconnect, the user id and the workspace id
    of the account are still in the storage, and they come back, under a
    record saved later without them. *)
Theorem disconnect_keeps_identity_entries :
  let st' := (disconnect quietEnv configuredState).2 in
  (disconnect quietEnv configuredState).1 = Ok tt
  ∧ config st' = None
  ∧ (loadConfig quietEnv st').1 = Ok None
  ∧ storage st' !! NOTION_TOKEN_KEY = None
  ∧ storage st' !! NOTION_PAGE_ID_KEY = None
  ∧ storage st' !! NOTION_PAGE_NAME_KEY = None
  ∧ storage st' !! NOTION_USER_ID_KEY = Some "user_1"
  ∧ storage st' !! NOTION_WORKSPACE_ID_KEY = Some "ws_1"
  ∧ (loadConfig quietEnv (saveConfig quietEnv manualConfig st').2).1
    = Ok (Some {| accessToken := "tok_b"; pageId := "page_b"; pageName := "Journal";
                  userId := Some "user_1"; workspaceId := Some "ws_1";
                  workspaceName := None |}).
Proof. by vm_compute. Qed.

(** *** C9: the list of pages *)

(** C9 (amended). [getUserPages] never raises.  Whenever its [try] block
    fails, for whatever reason (no access token, a rejected search
    request), it resolves to the four sample pages; when the search goes
    through, it resolves to the pages found, with the title "Untitled" for
    a page without a title.  The sample pages carry no mark: they are a
    list of the same shape as the pages found, and a search that goes
    through and finds such pages resolves to the very same list. *)
Theorem getUserPages_never_raises E st :
  (∃ pages st', getUserPages E st = (Ok pages, st'))
  ∧ (∀ message st1,
       getUserPages_try E st = (Throw message, st1) →
       getUserPages E st = (Ok mockPages, st1))
  ∧ ((∀ c, config st = Some c → accessToken c = "") →
       getUserPages E st = (Ok mockPages, st))
  ∧ ((∀ h auth, is_Some (rejects E h (NotionSearch auth))) →
       (getUserPages E st).1 = Ok mockPages)
  ∧ (∀ c, config st = Some c → accessToken c ≠ "" →
       (∀ h auth, rejects E h (NotionSearch auth) = None) →
       ∃ st', getUserPages E st = (Ok (map toPageItem (search_results E (trace st'))), st'))
  ∧ (∀ page, truthy_opt (page_title page) = false → title (toPageItem page) = "Untitled")
  ∧ (∀ page t, page_title page = Some t → t ≠ "" → title (toPageItem page) = t)
  ∧ (∀ c, config st = Some c → accessToken c ≠ "" →
       (∀ h auth, rejects E h (NotionSearch auth) = None) →
       (∀ h, map toPageItem (search_results E h) = mockPages) →
       ∃ st', getUserPages_try E st = (Ok mockPages, st')
              ∧ getUserPages E st = (Ok mockPages, st')).
Proof.
  assert (Hcatch : ∀ message st1,
             getUserPages_try E st = (Throw message, st1) →
             getUserPages E st = (Ok mockPages, st1)).
  { intros message st1 H. unfold getUserPages, try_catch. by rewrite H. }
  assert (Hfound : ∀ c, config st = Some c → accessToken c ≠ "" →
             (∀ h auth, rejects E h (NotionSearch auth) = None) →
             ∃ st', getUserPages_try E st
                    = (Ok (map toPageItem (search_results E (trace st'))), st')).
  { intros c Hc Htoken Hacc. unfold getUserPages_try.
    rewrite bind_run.
    destruct (initializeNotion_cases st) as [[m Hi]|(c' & auth & Hc' & Ht & Hi)];
      rewrite Hi.
    { unfold initializeNotion in Hi. rewrite bind_run in Hi. simpl in Hi.
      rewrite Hc in Hi. unfold truthy in Hi.
      rewrite (bool_decide_eq_true_2 _ Htoken) in Hi.
      destruct (notion st); discriminate Hi. }
    rewrite bind_run. simpl. unfold notion_search. rewrite !bind_run.
    match goal with |- context [perform E ?r ?s] =>
      rewrite (perform_accepted E r s (Hacc (trace s) auth)) end.
    run_pure.
    by exists (with_event (NotionSearch auth, None) (with_notion (Some auth) st)). }
  split.
  { unfold getUserPages, try_catch.
    destruct (getUserPages_try E st) as [[pages|message] st1]; by eexists _, _. }
  split; [exact Hcatch|].
  split.
  { intros Hnone. apply (Hcatch "Notion not configured. Please authenticate first.").
    unfold getUserPages_try, initializeNotion. rewrite !bind_run. simpl.
    destruct (config st) as [c|] eqn:Hc; [|done].
    unfold truthy. rewrite (Hnone c eq_refl). done. }
  split.
  { intros Hrej. unfold getUserPages, try_catch, getUserPages_try.
    rewrite bind_run.
    destruct (initializeNotion_cases st) as [[m Hi]|(c & auth & Hc & Ht & Hi)];
      rewrite Hi; [done|].
    rewrite bind_run. simpl. unfold notion_search. rewrite !bind_run.
    match goal with |- context [perform E ?r ?s] =>
      destruct (Hrej (trace s) auth) as [m Hm];
      rewrite (perform_rejected E r s m Hm) end.
    done. }
  split.
  { intros c Hc Htoken Hacc. destruct (Hfound c Hc Htoken Hacc) as [st' Hrun].
    exists st'. unfold getUserPages, try_catch. by rewrite Hrun. }
  split.
  { intros page H. unfold toPageItem. simpl. by rewrite H. }
  split.
  { intros page t H Ht. unfold toPageItem. simpl. rewrite H. simpl.
    unfold truthy. by rewrite (bool_decide_eq_true_2 _ Ht). }
  intros c Hc Htoken Hacc Hsame.
  destruct (Hfound c Hc Htoken Hacc) as [st' Hrun]. rewrite Hsame in Hrun.
  exists st'. split; [done|]. unfold getUserPages, try_catch. by rewrite Hrun.
Qed.

Lemma getUserPages_never_raises_witness :
  (getUserPages searchFailsEnv configuredState).1 = Ok mockPages
  ∧ getUserPages quietEnv freshState = (Ok mockPages, freshState)
  ∧ (getUserPages quietEnv configuredState).1
    = Ok [ {| id := "p-1"; title := "Inbox"; url := "https://notion.so/p-1" |};
           {| id := "p-2"; title := "Untitled"; url := "https://notion.so/p-2" |} ].
Proof.
  split; [|split].
  - apply (getUserPages_never_raises searchFailsEnv configuredState).
    intros h auth. eexists. reflexivity.
  - apply (getUserPages_never_raises quietEnv freshState).
    intros c Hc. discriminate Hc.
  - destruct (getUserPages_never_raises quietEnv configuredState)
      as (_ & _ & _ & _ & Hfound & _).
    destruct (Hfound sampleConfig) as [st' Hrun];
      [reflexivity|discriminate|intros h auth; reflexivity|].
    rewrite Hrun. reflexivity.
Defined.

(** The sample pages are not marked.  With a search that fails the
    [catch] block gives them; with a search that goes through and finds
    four pages of these ids, titles and addresses the [try] block gives
    the same list: the caller gets equal values, and nothing in them tells
    which of the two happened. *)
Lemma getUserPages_fallback_is_unmarked :
  (∃ message st1, getUserPages_try searchFailsEnv configuredState = (Throw message, st1))
  ∧ (getUserPages searchFailsEnv configuredState).1 = Ok mockPages
  ∧ (getUserPages_try mockSearchEnv configuredState).1 = Ok mockPages
  ∧ (getUserPages mockSearchEnv configuredState).1
    = (getUserPages searchFailsEnv configuredState).1.
Proof.
  split; [by eexists _, _|]. by vm_compute.
Qed.

(** *** C6: a successful token exchange *)

Ltac run_accepted H :=
  match goal with
  | |- context [perform ?E ?r ?st] => rewrite (perform_accepted E r st (H _))
  | |- context [perform ?E ?r ?st] => rewrite (perform_accepted E r st (H _ _ _))
  | |- context [perform ?E ?r ?st] => rewrite (perform_accepted E r st (H _ _ _ _ _))
  end.

(** The [try] block of [authenticate] up to the redirect: with the query
    parameters [params], it goes on with [k params]. *)
Lemma authenticate_try_redirect E st params :
  redirect_with E params →
  ∃ st1,
    authenticate_try E st
      = (let code := searchParams_get params "code" in
         let error := searchParams_get params "error" in
         if truthy_opt error then throw ("OAuth error: " +:+ or_empty error)
         else if truthy_opt code then
           tokenResponse ← fetchToken E (or_empty code) (REDIRECT_URI (NOTION_CONFIG E));
           if ok tokenResponse then
             tokenData ← response_json tokenResponse;
             saveConfig E (tokenConfig tokenData);;
             mret true
           else throw ("Token exchange failed: " +:+ text tokenResponse)
         else throw "No authorization code received") st1
    ∧ config st1 = config st ∧ storage st1 = storage st ∧ notion st1 = notion st
    ∧ remote st1 = remote st.
Proof.
  intros (Hopen & url & Hurl & Hparse & Hres).
  unfold authenticate_try, dateNow, emit, openAuthSessionAsync.
  run_pure. run_accepted Hopen. run_pure. rewrite Hres. simpl.
  unfold truthy at 1. rewrite (bool_decide_eq_true_2 _ Hurl). simpl.
  rewrite bind_run. unfold newURL. rewrite Hparse. rewrite ret_run.
  eexists. split; [reflexivity|]. by repeat split.
Qed.

(** C6 (amended). When the browser comes back with an authorization code
    and the token endpoint answers with a 2xx status and a JSON body, and
    the storage works, [authenticate] resolves to [true] after saving,
    through [saveConfig], the record made of the returned access token,
    user id, workspace id and workspace name, with an empty page id: the
    service is connected, and not yet configured.  The access token, the
    empty page id and page name, the user id and the workspace id are
    written to the storage; the workspace name is kept in the cached
    record only, and the record [loadConfig] reads back afterwards has
    none. *)
Theorem authenticate_persists_token E st params code response data :
  storage_works E →
  redirect_with E params →
  truthy_opt (searchParams_get params "error") = false →
  searchParams_get params "code" = Some code →
  code ≠ "" →
  token_endpoint_answers E response →
  ok response = true →
  json response = Some data →
  ∃ st',
    authenticate E st = (Ok true, st')
    ∧ config st' = Some {| accessToken := access_token data;
                           pageId := "";
                           pageName := "";
                           userId := owner_user_id data;
                           workspaceId := workspace_id data;
                           workspaceName :=
                             Some (if truthy_opt (workspace_name data)
                                   then or_empty (workspace_name data)
                                   else "User Workspace") |}
    ∧ storage st' !! NOTION_TOKEN_KEY = Some (access_token data)
    ∧ storage st' !! NOTION_PAGE_ID_KEY = Some ""
    ∧ storage st' !! NOTION_PAGE_NAME_KEY = Some ""
    ∧ (truthy_opt (owner_user_id data) = true →
       storage st' !! NOTION_USER_ID_KEY = owner_user_id data)
    ∧ (truthy_opt (workspace_id data) = true →
       storage st' !! NOTION_WORKSPACE_ID_KEY = workspace_id data)
    ∧ isConfigured st' = false
    ∧ (access_token data ≠ "" →
       ∃ c, (loadConfig E st').1 = Ok (Some c)
            ∧ accessToken c = access_token data
            ∧ pageId c = ""
            ∧ pageName c = ""
            ∧ (truthy_opt (owner_user_id data) = true → userId c = owner_user_id data)
            ∧ (truthy_opt (workspace_id data) = true →
               workspaceId c = workspace_id data)
            ∧ workspaceName c = None).
Proof.
  intros Hworks Hredirect Herror Hcode Hne [Hfetch Hresponse] Hok Hjson.
  destruct (authenticate_try_redirect E st params Hredirect) as (st1 & Htry & _).
  unfold authenticate, try_catch. rewrite Htry. simpl.
  rewrite Herror, Hcode. simpl. unfold truthy at 1.
  rewrite (bool_decide_eq_true_2 _ Hne).
  unfold fetchToken. run_pure. run_accepted Hfetch. run_pure.
  rewrite Hresponse, Hok. unfold response_json. rewrite Hjson. run_pure.
  match goal with |- context [saveConfig E ?c ?s] =>
    destruct (saveConfig_works E c s Hworks)
      as (st' & Hsave & Hconfig & _ & _ & Ht & Hp & Hn & Hu & Hw);
    rewrite Hsave end.
  exists st'. split; [done|]. split; [done|].
  do 3 (split; [done|]).
  split; [intros H; by rewrite Hu; simpl; rewrite H|].
  split; [intros H; by rewrite Hw; simpl; rewrite H|].
  split; [unfold isConfigured; rewrite Hconfig; simpl; apply andb_false_r|].
  intros Htoken.
  destruct (loadConfig_works E st' Hworks) as (st2 & _ & Hload).
  rewrite Ht in Hload. simpl in Hload. unfold truthy in Hload.
  rewrite (bool_decide_eq_true_2 _ Htoken) in Hload. destruct Hload as [Hload _].
  eexists. split; [by rewrite Hload|]. simpl. rewrite Hp, Hn, Hu, Hw. simpl.
  do 3 (split; [done|]).
  split; [intros H; rewrite H; unfold or_undefined; by rewrite H|].
  split; [intros H; rewrite H; unfold or_undefined; by rewrite H|done].
Qed.

Lemma authenticate_persists_token_witness :
  ∃ st',
    authenticate quietEnv freshState = (Ok true, st')
    ∧ config st' = Some {| accessToken := "tok_a"; pageId := ""; pageName := "";
                           userId := Some "user_1"; workspaceId := Some "ws_1";
                           workspaceName := Some "Acme" |}
    ∧ storage st' !! NOTION_TOKEN_KEY = Some "tok_a"
    ∧ storage st' !! NOTION_USER_ID_KEY = Some "user_1"
    ∧ storage st' !! NOTION_WORKSPACE_ID_KEY = Some "ws_1".
Proof.
  destruct (authenticate_persists_token quietEnv freshState
              [("code", "abc"); ("state", "state_7")] "abc" okResponse sampleTokenData)
    as (st' & Hrun & Hconfig & Ht & _ & _ & Hu & Hw & _).
  - intros h r _. reflexivity.
  - split; [intros h authUrl redirectUri; reflexivity|].
    exists "speaktonote://auth?code=abc&state=state_7".
    split; [discriminate|]. split; [reflexivity|]. intros h. reflexivity.
  - reflexivity.
  - reflexivity.
  - discriminate.
  - split; [intros h url authorization code redirect_uri; reflexivity|].
    intros h. reflexivity.
  - reflexivity.
  - reflexivity.
  - exists st'. split; [exact Hrun|]. split; [exact Hconfig|]. split; [exact Ht|].
    split; [apply Hu; reflexivity|apply Hw; reflexivity].
Defined.

(** The workspace name is not persisted.  On the happy path of the
    samples the token endpoint returns the workspace name "Acme";
    [authenticate] resolves to [true] with the name in the cached record,
    but no entry of the storage holds it, and the record [loadConfig]
    reads back has the access token, the user id and the workspace id and
    no workspace name. *)
Lemma authenticate_does_not_persist_workspace_name :
  workspace_name sampleTokenData = Some "Acme"
  ∧ (authenticate quietEnv freshState).1 = Ok true
  ∧ (workspaceName <$> config (authenticate quietEnv freshState).2) = Some (Some "Acme")
  ∧ map_Forall (λ key value, value ≠ "Acme") (storage (authenticate quietEnv freshState).2)
  ∧ (loadConfig quietEnv (authenticate quietEnv freshState).2).1
    = Ok (Some {| accessToken := "tok_a"; pageId := ""; pageName := "";
                  userId := Some "user_1"; workspaceId := Some "ws_1";
                  workspaceName := None |}).
Proof.
  do 3 (split; [by vm_compute|]). split; [|by vm_compute].
  apply (bool_decide_unpack _). by vm_compute.
Qed.

(** *** C3: a denied authorization, a refused token exchange *)

(** The [catch] block of [authenticate] on a working storage: whatever
    the error, a test connection is saved, and it is what [loadConfig]
    gives from then on. *)
Lemma authenticate_catch_works E error st :
  storage_works E →
  ∃ t1 t2 t3 st',
    authenticate_catch E error st = (Ok true, st')
    ∧ config st' = Some (testConfig t1 t2 t3)
    ∧ (loadConfig E st').1 = Ok (Some (without_workspaceName (testConfig t1 t2 t3))).
Proof.
  intros Hworks. unfold authenticate_catch, dateNow, emit. run_pure.
  match goal with |- context [saveConfig E ?c ?s] =>
    destruct (saveConfig_works E c s Hworks)
      as (st' & Hsave & Hconfig & _ & _ & Ht & Hp & Hn & Hu & Hw);
    rewrite Hsave end.
  eexists _, _, _, st'. split; [reflexivity|]. split; [exact Hconfig|].
  destruct (loadConfig_works E st' Hworks) as (st2 & _ & Hload).
  rewrite Ht, Hp, Hn, Hu, Hw in Hload. simpl in Hload.
  destruct Hload as [-> _]. reflexivity.
Qed.

(** C3 (amended). When the redirect URL carries an [error] parameter, the
    [try] block of [authenticate] raises "OAuth error: ..." with it, and
    when the token endpoint answers with a status outside 200-299 it
    raises "Token exchange failed: ..." with the body of the response, in
    both cases with the cache and the storage as they were.  The [catch]
    block of [authenticate] then takes over: on a working storage it saves
    a test connection, which replaces what the credential store held, and
    [authenticate] resolves to [true]. *)
Theorem authenticate_failure_fallback E st params response :
  storage_works E →
  redirect_with E params →
  truthy_opt (searchParams_get params "error") = true
  ∨ (truthy_opt (searchParams_get params "error") = false
     ∧ truthy_opt (searchParams_get params "code") = true
     ∧ token_endpoint_answers E response
     ∧ ok response = false) →
  ∃ message st1 t1 t2 t3 st',
    authenticate_try E st = (Throw message, st1)
    ∧ message = (if truthy_opt (searchParams_get params "error")
                 then "OAuth error: " +:+ or_empty (searchParams_get params "error")
                 else "Token exchange failed: " +:+ text response)
    ∧ config st1 = config st
    ∧ storage st1 = storage st
    ∧ authenticate E st = (Ok true, st')
    ∧ config st' = Some (testConfig t1 t2 t3)
    ∧ (loadConfig E st').1 = Ok (Some (without_workspaceName (testConfig t1 t2 t3))).
Proof.
  intros Hworks Hredirect Hcase.
  destruct (authenticate_try_redirect E st params Hredirect)
    as (st0 & Htry & Hc0 & Hs0 & _).
  assert (∃ message st1,
            authenticate_try E st = (Throw message, st1)
            ∧ message = (if truthy_opt (searchParams_get params "error")
                         then "OAuth error: " +:+ or_empty (searchParams_get params "error")
                         else "Token exchange failed: " +:+ text response)
            ∧ config st1 = config st ∧ storage st1 = storage st)
    as (message & st1 & Hthrow & Hmessage & Hc1 & Hs1).
  { rewrite Htry. simpl.
    destruct Hcase as [Herror|(Herror & Hcode & [Hfetch Hresponse] & Hok)];
      rewrite Herror.
    - by eexists _, st0.
    - rewrite Hcode. unfold fetchToken. run_pure. run_accepted Hfetch. run_pure.
      rewrite Hresponse, Hok. by eexists _, _. }
  destruct (authenticate_catch_works E message st1 Hworks)
    as (t1 & t2 & t3 & st' & Hcatch & Hconfig & Hload).
  exists message, st1, t1, t2, t3, st'.
  do 4 (split; [done|]).
  split; [|done].
  unfold authenticate, try_catch. by rewrite Hthrow.
Qed.

Lemma authenticate_failure_fallback_witness :
  ∃ st1 st' t1 t2 t3,
    authenticate_try deniedEnv freshState = (Throw "OAuth error: access_denied", st1)
    ∧ authenticate deniedEnv freshState = (Ok true, st')
    ∧ config st' = Some (testConfig t1 t2 t3).
Proof.
  destruct (authenticate_failure_fallback deniedEnv freshState
              [("error", "access_denied"); ("state", "state_7")] okResponse)
    as (message & st1 & t1 & t2 & t3 & st' & Htry & Hmessage & _ & _ & Hrun & Hconfig & _).
  - intros h r _. reflexivity.
  - split; [intros h authUrl redirectUri; reflexivity|].
    exists "speaktonote://auth?error=access_denied&state=state_7".
    split; [discriminate|]. split; [reflexivity|]. intros h. reflexivity.
  - left. reflexivity.
  - exists st1, st', t1, t2, t3. rewrite Hmessage in Htry.
    split; [exact Htry|]. split; [exact Hrun|exact Hconfig].
Defined.

(** C3 as stated fails: nothing is stored; the user denies the
    authorization (or the token endpoint answers 401); [authenticate]
    does not raise, it resolves to [true], and [loadConfig], which gave
    [null] before, now gives a test connection. *)
Lemma authenticate_failure_overwrites_store :
  (loadConfig deniedEnv freshState).1 = Ok None
  ∧ (authenticate deniedEnv freshState).1 = Ok true
  ∧ (loadConfig deniedEnv (authenticate deniedEnv freshState).2).1
    = Ok (Some {| accessToken := "secret_test_1700000000000";
                  pageId := "test-page-id"; pageName := "Test Page";
                  userId := Some "user_test_1700000000000";
                  workspaceId := Some "workspace_test_1700000000000";
                  workspaceName := None |})
  ∧ ok unauthorizedResponse = false
  ∧ (authenticate unauthorizedEnv freshState).1 = Ok true
  ∧ (loadConfig unauthorizedEnv (authenticate unauthorizedEnv freshState).2).1
    ≠ (loadConfig unauthorizedEnv freshState).1.
Proof.
  do 5 (split; [by vm_compute|]). vm_compute. discriminate.
Qed.

(** ** Further properties of the service *)

Import StorageService HomeScreen Samples.

(** *** setSelectedPage *)

Lemma saveConfig_throw_prefix E c st message st' :
  saveConfig E c st = (Throw message, st') →
  ∃ cause, message = "Failed to save user Notion configuration: " +:+ cause.
Proof.
  unfold saveConfig, try_catch.
  match goal with |- context [match ?body st with _ => _ end] =>
    destruct (body st) as [[[]|cause] st1] end; [done|].
  unfold throw. intros [= <- _]. by exists cause.
Qed.

(** X1. [setSelectedPage] raises "Notion not authenticated", and changes
    nothing, when no record is cached.  Otherwise, on a working storage, it
    saves the cached record with the new page id and name: access token,
    user id, workspace id and workspace name are kept, and the service is
    configured afterwards exactly when the token and the page id are not
    empty.  A rejected write is raised to the caller as [saveConfig] raised
    it, and the selection is not cached. *)
Theorem setSelectedPage_saves E page name st :
  (config st = None →
   setSelectedPage E page name st = (Throw "Notion not authenticated", st))
  ∧ (∀ c, config st = Some c → storage_works E →
       ∃ st',
         setSelectedPage E page name st = (Ok tt, st')
         ∧ config st' = Some (with_page c page name)
         ∧ notion st' = notion st
         ∧ storage st' !! NOTION_TOKEN_KEY = Some (accessToken c)
         ∧ storage st' !! NOTION_PAGE_ID_KEY = Some page
         ∧ storage st' !! NOTION_PAGE_NAME_KEY = Some name
         ∧ (isConfigured st' = true ↔ accessToken c ≠ "" ∧ page ≠ ""))
  ∧ (∀ key value message,
       (SetItem key value, Some message)
         ∈ events_since st (setSelectedPage E page name st).2 →
       (setSelectedPage E page name st).1
         = Throw ("Failed to save user Notion configuration: " +:+ message)
       ∧ config (setSelectedPage E page name st).2 = config st).
Proof.
  split; [|split].
  - intros Hc. unfold setSelectedPage, try_catch. rewrite bind_run. simpl.
    by rewrite Hc.
  - intros c Hc Hworks. unfold setSelectedPage, try_catch. rewrite bind_run. simpl.
    rewrite Hc.
    destruct (saveConfig_works E (with_page c page name) st Hworks)
      as (st' & Hsave & Hconfig & Hnotion & _ & Ht & Hp & Hn & _).
    unfold with_page in Hsave. rewrite Hsave.
    exists st'. do 6 (split; [done|]).
    unfold isConfigured. rewrite Hconfig. simpl.
    rewrite andb_true_iff, !bool_decide_eq_true. done.
  - intros key value message. unfold setSelectedPage, try_catch.
    rewrite bind_run. simpl.
    destruct (config st) as [c|] eqn:Hc.
    + match goal with |- context [saveConfig E ?cfg st] =>
        pose proof (saveConfig_rejected E cfg st key value message) as Hrej;
        destruct (saveConfig E cfg st) as [[[]|m] st'] end;
        simpl in *; intros Hin; destruct (Hrej Hin) as [Hthrow Hconfig];
        (split; [done|congruence]).
    + simpl. unfold events_since. rewrite Nat.sub_diag. simpl.
      by intros ?%elem_of_nil.
Qed.

Lemma setSelectedPage_saves_witness :
  setSelectedPage quietEnv "page_b" "Journal" freshState
    = (Throw "Notion not authenticated", freshState)
  ∧ (∃ st', setSelectedPage quietEnv "page_b" "Journal" authenticatedState = (Ok tt, st')
            ∧ isConfigured authenticatedState = false
            ∧ isConfigured st' = true)
  ∧ (setSelectedPage writeFailsEnv "page_b" "Journal" authenticatedState).1
    = Throw "Failed to save user Notion configuration: Storage is full".
Proof.
  destruct (setSelectedPage_saves quietEnv "page_b" "Journal" freshState)
    as (Hnone & _ & _).
  destruct (setSelectedPage_saves quietEnv "page_b" "Journal" authenticatedState)
    as (_ & Hsome & _).
  destruct (setSelectedPage_saves writeFailsEnv "page_b" "Journal" authenticatedState)
    as (_ & _ & Hfail).
  split; [apply Hnone; reflexivity|]. split.
  - destruct (Hsome (with_page sampleConfig "" "")) as (st' & Hrun & _ & _ & _ & _ & _ & Hiff);
      [reflexivity|intros h r _; reflexivity|].
    exists st'. split; [exact Hrun|]. split; [reflexivity|].
    apply Hiff. split; discriminate.
  - apply (Hfail NOTION_TOKEN_KEY "tok_a" "Storage is full"). vm_compute. left.
Defined.

Lemma isConfigured_true_intro st c :
  config st = Some c → accessToken c ≠ "" → pageId c ≠ "" → isConfigured st = true.
Proof.
  intros Hc Htok Hpid. unfold isConfigured. rewrite Hc.
  by rewrite !bool_decide_eq_true_2.
Qed.

(** *** The API client *)

Lemma initializeNotion_client st :
  (∃ message, initializeNotion st = (Throw message, st))
  ∨ (∃ c, config st = Some c ∧ truthy (accessToken c) = true
       ∧ initializeNotion st
         = (Ok tt, with_notion (Some (default (accessToken c) (notion st))) st)).
Proof.
  unfold initializeNotion. rewrite bind_run. simpl.
  destruct (config st) as [c|] eqn:Hc; [|left; by eexists].
  destruct (truthy (accessToken c)) eqn:Ht; [|left; by eexists].
  right. exists c. do 2 (split; [done|]).
  destruct (notion st) as [auth|] eqn:Hn; simpl; [|done].
  unfold with_notion. rewrite <- Hn. by destruct st.
Qed.

(** The requests of one call of [syncNote]: a page update and, when it is
    accepted, an append, both with the token of the client. *)
Lemma syncNote_requests E note st :
  ∃ st' new,
    syncNote E note st = (Ok true, st')
    ∧ trace st' = new ++ trace st
    ∧ storage st' = storage st
    ∧ config st' = config st
    ∧ (new = [] ∨
       ∃ c, config st = Some c
            ∧ ∀ ev, ev ∈ new →
                   notion_request_auth ev.1
                   = Some (default (accessToken c) (notion st)))
    ∧ (isConfigured st = true →
       ∃ c fate, config st = Some c
         ∧ (PagesUpdate (default (accessToken c) (notion st)) (pageId c), fate) ∈ new).
Proof.
  destruct (isConfigured st) eqn:Hconf.
  2:{ rewrite (syncNote_unconfigured E note st Hconf). exists st, []. simpl.
      do 4 (split; [done|]). split; [by left|done]. }
  apply isConfigured_true_inv in Hconf as (c & Hc & Htok & Hpid).
  unfold syncNote, try_catch, syncNote_try. rewrite bind_run. simpl.
  unfold config_pageId. rewrite Hc. simpl.
  unfold truthy at 1. rewrite (bool_decide_eq_true_2 _ Hpid).
  rewrite bind_run.
  destruct (initializeNotion_client st) as [[m Hi]|(c' & Hc' & _ & Hi)]; rewrite Hi.
  { unfold initializeNotion in Hi. rewrite bind_run in Hi. simpl in Hi.
    rewrite Hc in Hi. unfold truthy in Hi.
    rewrite (bool_decide_eq_true_2 _ Htok) in Hi.
    destruct (notion st); discriminate Hi. }
  assert (c' = c) as -> by congruence.
  set (auth := default (accessToken c) (notion st)).
  rewrite bind_run. simpl. rewrite Hc. simpl. rewrite bind_run.
  unfold notion_pages_update, notion_blocks_children_append.
  run_perform; simpl.
  { eexists _, [_]. split; [reflexivity|]. do 3 (split; [done|]).
    split.
    - right. exists c. split; [done|]. by intros ev ->%list_elem_of_singleton.
    - intros _. exists c, (Some m). split; [done|]. by left. }
  rewrite !bind_run. run_perform; simpl.
  - eexists _, [_; _]. split; [reflexivity|]. do 3 (split; [done|]).
    split.
    + right. exists c. split; [done|].
      intros ev [->|[->|[]%elem_of_nil]%elem_of_cons]%elem_of_cons; done.
    + intros _. exists c, None. split; [done|]. right. by left.
  - eexists _, [_; _]. split; [reflexivity|]. do 3 (split; [done|]).
    split.
    + right. exists c. split; [done|].
      intros ev [->|[->|[]%elem_of_nil]%elem_of_cons]%elem_of_cons; done.
    + intros _. exists c, None. split; [done|]. right. by left.
Qed.

(** X2. The API client is built once, with the token of that moment, and
    only [disconnect] drops it: after a record with another access token
    is saved, every request of [syncNote] still carries the token the
    client was built with, and [syncNote] does send its page update with
    it when the new record is configured. *)
Theorem client_token_is_kept E c note st auth :
  notion st = Some auth →
  storage_works E →
  ∃ st1,
    saveConfig E c st = (Ok tt, st1)
    ∧ notion st1 = Some auth
    ∧ (∀ ev, ev ∈ events_since st1 (syncNote E note st1).2 →
             notion_request_auth ev.1 = Some auth)
    ∧ (accessToken c ≠ "" → pageId c ≠ "" →
       ∃ fate, (PagesUpdate auth (pageId c), fate)
                 ∈ events_since st1 (syncNote E note st1).2).
Proof.
  intros Hclient Hworks.
  destruct (saveConfig_works E c st Hworks) as (st1 & Hsave & Hconfig & Hnotion & _).
  exists st1. split; [done|]. split; [congruence|].
  destruct (syncNote_requests E note st1)
    as (st2 & new & Hrun & Htrace & _ & _ & Hauth & Hsent).
  rewrite Hrun. simpl. rewrite (events_since_app st1 st2 new Htrace).
  rewrite Hnotion, Hclient in Hauth, Hsent. simpl in *.
  split.
  - intros ev Hev. destruct Hauth as [->|(c' & _ & Hauth)]; [by apply elem_of_nil in Hev|].
    by apply Hauth.
  - intros Htok Hpid. destruct Hsent as (c' & fate & Hc' & Hin).
    { by apply (isConfigured_true_intro st1 c). }
    exists fate. by replace c with c' by congruence.
Qed.

Lemma client_token_is_kept_witness :
  ∃ st1,
    saveConfig quietEnv manualConfig staleClientState = (Ok tt, st1)
    ∧ accessToken manualConfig = "tok_b"
    ∧ (PagesUpdate "tok_old" "page_b", None)
        ∈ events_since st1 (syncNote quietEnv sampleNote st1).2.
Proof.
  destruct (client_token_is_kept quietEnv manualConfig sampleNote staleClientState "tok_old")
    as (st1 & Hsave & _ & _ & Hsent); [reflexivity|intros h r _; reflexivity|].
  exists st1. split; [exact Hsave|]. split; [reflexivity|].
  destruct Hsent as [fate Hin]; [discriminate|discriminate|].
  assert (Hfate : fate = None).
  { assert (Hst1 : st1 = (saveConfig quietEnv manualConfig staleClientState).2)
      by (rewrite Hsave; reflexivity).
    rewrite Hst1 in Hin. vm_compute in Hin.
    repeat (apply elem_of_cons in Hin as [Hin|Hin]; [by inversion Hin|]).
    by apply elem_of_nil in Hin. }
  rewrite <- Hfate. exact Hin.
Defined.

(** *** disconnect, when the storage fails *)

(** X3. [disconnect] is not atomic.  When a removal is rejected it raises
    "Failed to disconnect Notion", whatever the cause, and keeps the cached
    record and the API client, so that the service is as configured as it
    was; and when the rejected removal is not the first one, the token
    entry is already gone from the storage. *)
Theorem disconnect_failure E st key message :
  (RemoveItem key, Some message) ∈ events_since st (disconnect E st).2 →
  (disconnect E st).1 = Throw "Failed to disconnect Notion"
  ∧ config (disconnect E st).2 = config st
  ∧ notion (disconnect E st).2 = notion st
  ∧ isConfigured (disconnect E st).2 = isConfigured st
  ∧ (key ≠ NOTION_TOKEN_KEY → storage (disconnect E st).2 !! NOTION_TOKEN_KEY = None).
Proof.
  unfold disconnect, try_catch, removeItem.
  run_cases; compute_events_since; intros Hin; find_rejected Hin;
    injection Hin as -> ->; (do 4 (split; [done|])); intros Hkey;
    try done; by simplify_map_eq.
Qed.

Lemma disconnect_failure_witness :
  (disconnect removeFailsEnv configuredState).1 = Throw "Failed to disconnect Notion"
  ∧ isConfigured (disconnect removeFailsEnv configuredState).2 = true
  ∧ storage (disconnect removeFailsEnv configuredState).2 !! NOTION_TOKEN_KEY = None.
Proof.
  destruct (disconnect_failure removeFailsEnv configuredState
              NOTION_PAGE_ID_KEY "Storage is locked")
    as (Hthrow & _ & _ & Hconf & Htoken).
  - vm_compute. left.
  - split; [exact Hthrow|]. split; [rewrite Hconf; reflexivity|].
    apply Htoken. discriminate.
Defined.

(** *** The outcomes of authenticate *)

Lemma authenticate_catch_outcome E error st :
  (authenticate_catch E error st).1 = Ok true
  ∨ ∃ cause, (authenticate_catch E error st).1
             = Throw ("Failed to save user Notion configuration: " +:+ cause).
Proof.
  unfold authenticate_catch, dateNow, emit. run_pure.
  match goal with |- context [saveConfig E ?c ?s] =>
    destruct (saveConfig E c s) as [[[]|message] st'] eqn:Hsave end; simpl.
  - by left.
  - right. destruct (saveConfig_throw_prefix _ _ _ _ _ Hsave) as [cause ->].
    by exists cause.
Qed.

Lemma authenticate_try_outcome E st :
  (authenticate_try E st).1 = Ok true
  ∨ ((authenticate_try E st).1 = Ok false
     ∧ config (authenticate_try E st).2 = config st
     ∧ storage (authenticate_try E st).2 = storage st
     ∧ notion (authenticate_try E st).2 = notion st)
  ∨ ∃ message, (authenticate_try E st).1 = Throw message.
Proof.
  pattern (authenticate_try E st).
  match goal with |- ?Q _ => set (P := Q) end.
  assert (Hthrow : ∀ message st', P (Throw message, st')).
  { intros message st'. right. right. by exists message. }
  assert (Htrue : ∀ st', P (Ok true, st')) by (intros st'; by left).
  unfold authenticate_try, dateNow, emit, openAuthSessionAsync.
  run_pure. run_perform; simpl; [apply Hthrow|].
  run_pure.
  match goal with |- context [if ?b then _ else _] => destruct b end.
  - rewrite bind_run. unfold newURL.
    match goal with |- context [parse_url E ?u] =>
      destruct (parse_url E u) as [params|] end; simpl; [|apply Hthrow].
    destruct (truthy_opt (searchParams_get params "error")); simpl; [apply Hthrow|].
    destruct (truthy_opt (searchParams_get params "code")); simpl; [|apply Hthrow].
    unfold fetchToken, response_json.
    run_pure. run_perform; simpl; [apply Hthrow|].
    run_pure.
    match goal with |- context [ok ?r] => destruct (ok r); [destruct (json r)|] end;
      simpl; try apply Hthrow.
    run_pure.
    match goal with |- context [saveConfig E ?c ?s] =>
      destruct (saveConfig E c s) as [[[]|message] st'] end; simpl;
      [apply Htrue|apply Hthrow].
  - match goal with |- context [if ?b then _ else _] => destruct b end; simpl;
      [|apply Hthrow].
    right; left. done.
Qed.

(** X4. [authenticate] never raises an OAuth or a token-exchange error,
    and never resolves to [false] after touching the credential store: it
    resolves to [true], or to [false] with the cache and the storage as
    they were, or it raises the error of a failed [saveConfig].  It does
    resolve to [false] when the browser session ends with the type
    "cancel". *)
Theorem authenticate_outcomes E st :
  ((authenticate E st).1 = Ok true
   ∨ ((authenticate E st).1 = Ok false
      ∧ config (authenticate E st).2 = config st
      ∧ storage (authenticate E st).2 = storage st
      ∧ notion (authenticate E st).2 = notion st)
   ∨ ∃ cause, (authenticate E st).1
              = Throw ("Failed to save user Notion configuration: " +:+ cause))
  ∧ ((∀ h authUrl redirectUri, rejects E h (OpenAuthSession authUrl redirectUri) = None) →
     (∀ h, res_type (auth_session_result E h) = "cancel") →
     (authenticate E st).1 = Ok false).
Proof.
  split.
  - unfold authenticate, try_catch.
    pose proof (authenticate_try_outcome E st) as Htry.
    destruct (authenticate_try E st) as [[b|message] st1]; simpl in *.
    + destruct Htry as [->|[(-> & Hrest)|[m Hm]]]; [by left|right; by left|done].
    + destruct (authenticate_catch_outcome E message st1) as [H|H];
        [by left|right; by right].
  - intros Hopen Hcancel. unfold authenticate, try_catch.
    unfold authenticate_try, dateNow, emit, openAuthSessionAsync.
    run_pure. run_accepted Hopen. run_pure. rewrite Hcancel. done.
Qed.

Lemma authenticate_outcomes_witness :
  (authenticate cancelledEnv configuredState).1 = Ok false
  ∧ config (authenticate cancelledEnv configuredState).2 = Some sampleConfig.
Proof.
  destruct (authenticate_outcomes cancelledEnv configuredState) as [Hcases Hcancel].
  assert (Hfalse : (authenticate cancelledEnv configuredState).1 = Ok false).
  { apply Hcancel; [intros h authUrl redirectUri; reflexivity|intros h; reflexivity]. }
  split; [exact Hfalse|].
  destruct Hcases as [Htrue|[(_ & Hconfig & _)|[cause Hthrow]]].
  - rewrite Hfalse in Htrue. discriminate Htrue.
  - rewrite Hconfig. reflexivity.
  - rewrite Hfalse in Hthrow. discriminate Hthrow.
Defined.

(** *** syncNote and the connection flow when everything is accepted *)

Lemma syncNote_accepted E note st c :
  updates_accepted E →
  (∀ h auth block_id text, rejects E h (BlocksAppend auth block_id text) = None) →
  config st = Some c → accessToken c ≠ "" → pageId c ≠ "" →
  ∃ st',
    syncNote E note st = (Ok true, st')
    ∧ trace st'
      = [(BlocksAppend (default (accessToken c) (notion st)) (pageId c) (noteBlock E note),
          None);
         (PagesUpdate (default (accessToken c) (notion st)) (pageId c), None)]
        ++ trace st
    ∧ remote st' = (pageId c, noteBlock E note) :: remote st
    ∧ config st' = config st
    ∧ storage st' = storage st
    ∧ notion st' = Some (default (accessToken c) (notion st)).
Proof.
  intros Hupdate Happend Hc Htok Hpid.
  unfold syncNote, try_catch, syncNote_try. rewrite bind_run. simpl.
  unfold config_pageId. rewrite Hc. simpl.
  unfold truthy at 1. rewrite (bool_decide_eq_true_2 _ Hpid).
  rewrite bind_run.
  destruct (initializeNotion_client st) as [[m Hi]|(c' & Hc' & _ & Hi)]; rewrite Hi.
  { unfold initializeNotion in Hi. rewrite bind_run in Hi. simpl in Hi.
    rewrite Hc in Hi. unfold truthy in Hi.
    rewrite (bool_decide_eq_true_2 _ Htok) in Hi.
    destruct (notion st); discriminate Hi. }
  assert (c' = c) as -> by congruence.
  rewrite bind_run. simpl. rewrite Hc. simpl. rewrite bind_run.
  unfold notion_pages_update, notion_blocks_children_append.
  run_accepted Hupdate. rewrite !bind_run.
  match goal with |- context [perform E ?r ?s] =>
    rewrite (perform_accepted E r s (Happend _ _ _ _)) end.
  simpl. eexists. split; [reflexivity|]. by repeat split.
Qed.

(** X5. When the Notion API accepts its two requests, [syncNote] on a
    configured service sends one page update and then one append to the
    selected page, and the page gains exactly one block: the title, the
    content and the line "*Transcribed on ...*" of the note.  Cache and
    storage are as before. *)
Theorem syncNote_appends_block E note st c :
  updates_accepted E →
  (∀ h auth block_id text, rejects E h (BlocksAppend auth block_id text) = None) →
  config st = Some c → accessToken c ≠ "" → pageId c ≠ "" →
  ∃ st' auth,
    syncNote E note st = (Ok true, st')
    ∧ events_since st st'
      = [(BlocksAppend auth (pageId c) (noteBlock E note), None);
         (PagesUpdate auth (pageId c), None)]
    ∧ remote st' = (pageId c, noteBlock E note) :: remote st
    ∧ (notion st = None → auth = accessToken c)
    ∧ config st' = config st
    ∧ storage st' = storage st.
Proof.
  intros Hupdate Happend Hc Htok Hpid.
  destruct (syncNote_accepted E note st c Hupdate Happend Hc Htok Hpid)
    as (st' & Hrun & Htrace & Hremote & Hconfig & Hstorage & _).
  exists st', (default (accessToken c) (notion st)).
  split; [done|]. split; [by apply events_since_app|].
  split; [done|]. split; [by intros ->|]. done.
Qed.

Lemma syncNote_appends_block_witness :
  ∃ st',
    syncNote quietEnv sampleNote configuredState = (Ok true, st')
    ∧ remote st' = [("page_a", noteBlock quietEnv sampleNote)]
    ∧ noteBlock quietEnv sampleNote
      = "Groceries" +:+ newline +:+ newline +:+ "milk, eggs" +:+ newline +:+ newline
        +:+ "---" +:+ newline +:+ "*Transcribed on 1700000000000*" +:+ newline +:+ newline.
Proof.
  destruct (syncNote_appends_block quietEnv sampleNote configuredState sampleConfig)
    as (st' & auth & Hrun & _ & Hremote & _).
  - intros h auth page_id. reflexivity.
  - intros h auth block_id text. reflexivity.
  - reflexivity.
  - discriminate.
  - discriminate.
  - exists st'. split; [exact Hrun|]. split; [exact Hremote|reflexivity].
Defined.

Lemma authenticate_success_state E st params code response data :
  storage_works E →
  redirect_with E params →
  truthy_opt (searchParams_get params "error") = false →
  searchParams_get params "code" = Some code →
  code ≠ "" →
  token_endpoint_answers E response →
  ok response = true →
  json response = Some data →
  ∃ st',
    authenticate E st = (Ok true, st')
    ∧ config st' = Some (tokenConfig data)
    ∧ notion st' = notion st
    ∧ remote st' = remote st.
Proof.
  intros Hworks Hredirect Herror Hcode Hne [Hfetch Hresponse] Hok Hjson.
  destruct (authenticate_try_redirect E st params Hredirect)
    as (st1 & Htry & _ & _ & Hn1 & Hr1).
  unfold authenticate, try_catch. rewrite Htry. simpl.
  rewrite Herror, Hcode. simpl. unfold truthy at 1.
  rewrite (bool_decide_eq_true_2 _ Hne).
  unfold fetchToken. run_pure. run_accepted Hfetch. run_pure.
  rewrite Hresponse, Hok. unfold response_json. rewrite Hjson. run_pure.
  match goal with |- context [saveConfig E ?c ?s] =>
    destruct (saveConfig_works E c s Hworks)
      as (st' & Hsave & Hconfig & Hnotion & Hremote & _);
    rewrite Hsave end.
  exists st'. split; [done|]. split; [done|]. simpl in *. split; congruence.
Qed.

(** X6. The connection flow, end to end, when nothing is rejected: after
    a completed token exchange the service is connected but not
    configured; selecting a page configures it; and the next [syncNote]
    sends its two requests with the access token of the exchange, to the
    selected page.  (The service had no API client before.) *)
Theorem connect_select_sync E st params code response data page name note :
  all_accepted E →
  redirect_with E params →
  truthy_opt (searchParams_get params "error") = false →
  searchParams_get params "code" = Some code →
  code ≠ "" →
  (∀ h, token_response E h = response) →
  ok response = true →
  json response = Some data →
  access_token data ≠ "" →
  page ≠ "" →
  notion st = None →
  ∃ st1 st2 st3,
    authenticate E st = (Ok true, st1)
    ∧ isConfigured st1 = false
    ∧ setSelectedPage E page name st1 = (Ok tt, st2)
    ∧ isConfigured st2 = true
    ∧ syncNote E note st2 = (Ok true, st3)
    ∧ events_since st2 st3
      = [(BlocksAppend (access_token data) page (noteBlock E note), None);
         (PagesUpdate (access_token data) page, None)]
    ∧ remote st3 = (page, noteBlock E note) :: remote st.
Proof.
  intros Hall Hredirect Herror Hcode Hne Hresponse Hok Hjson Htoken Hpage Hclient.
  assert (Hworks : storage_works E) by (intros h r _; apply Hall).
  assert (Hendpoint : token_endpoint_answers E response).
  { split; [|done]. intros h url authorization code' redirect_uri. apply Hall. }
  destruct (authenticate_success_state E st params code response data
              Hworks Hredirect Herror Hcode Hne Hendpoint Hok Hjson)
    as (st1 & Hauth & Hc1 & Hn1 & Hr1).
  assert (Hselect : ∃ st2, setSelectedPage E page name st1 = (Ok tt, st2)
                           ∧ config st2 = Some (with_page (tokenConfig data) page name)
                           ∧ notion st2 = notion st1 ∧ remote st2 = remote st1).
  { unfold setSelectedPage, try_catch. rewrite bind_run. simpl. rewrite Hc1.
    destruct (saveConfig_works E (with_page (tokenConfig data) page name) st1 Hworks)
      as (st2 & Hsave & Hc2 & Hn2 & Hr2 & _).
    unfold with_page in Hsave. simpl in Hsave. simpl. rewrite Hsave. by exists st2. }
  destruct Hselect as (st2 & Hselect & Hc2 & Hn2 & Hr2).
  assert (Hupdate : updates_accepted E) by (intros h auth page_id; apply Hall).
  assert (Happend : ∀ h auth block_id text,
             rejects E h (BlocksAppend auth block_id text) = None)
    by (intros h auth block_id text; apply Hall).
  destruct (syncNote_accepted E note st2 (with_page (tokenConfig data) page name)
              Hupdate Happend Hc2 Htoken Hpage)
    as (st3 & Hsync & Htrace & Hremote & _).
  rewrite Hn2, Hn1, Hclient in Htrace. simpl in Htrace.
  exists st1, st2, st3.
  split; [done|].
  split; [unfold isConfigured; rewrite Hc1; simpl; apply andb_false_r|].
  split; [done|].
  split; [by apply (isConfigured_true_intro st2 _ Hc2)|].
  split; [done|].
  split; [by apply events_since_app|].
  simpl in Hremote. by rewrite Hremote, Hr2, Hr1.
Qed.

Lemma connect_select_sync_witness :
  ∃ st1 st2 st3,
    authenticate quietEnv freshState = (Ok true, st1)
    ∧ setSelectedPage quietEnv "p-1" "Inbox" st1 = (Ok tt, st2)
    ∧ syncNote quietEnv sampleNote st2 = (Ok true, st3)
    ∧ remote st3 = [("p-1", noteBlock quietEnv sampleNote)].
Proof.
  destruct (connect_select_sync quietEnv freshState
              [("code", "abc"); ("state", "state_7")] "abc" okResponse sampleTokenData
              "p-1" "Inbox" sampleNote)
    as (st1 & st2 & st3 & Hauth & _ & Hselect & _ & Hsync & _ & Hremote).
  - intros h r. reflexivity.
  - split; [intros h authUrl redirectUri; reflexivity|].
    exists "speaktonote://auth?code=abc&state=state_7".
    split; [discriminate|]. split; [reflexivity|]. intros h. reflexivity.
  - reflexivity.
  - reflexivity.
  - discriminate.
  - intros h. reflexivity.
  - reflexivity.
  - reflexivity.
  - discriminate.
  - discriminate.
  - reflexivity.
  - exists st1, st2, st3. split; [exact Hauth|]. split; [exact Hselect|].
    split; [exact Hsync|exact Hremote].
Defined.

(** *** The token screen *)

Lemma saveConfig_failure_keeps_cache E c st message st' :
  saveConfig E c st = (Throw message, st') → config st' = config st.
Proof.
  unfold saveConfig, try_catch, setItem.
  destruct (userId c) as [u|]; simpl; [destruct (truthy u)|];
    (destruct (workspaceId c) as [w|]; simpl; [destruct (truthy w)|]);
    run_cases; by intros [= <- <-].
Qed.

(** X7. With three fields that are not blank, on a working storage,
    [handleSave] saves the trimmed token, page id and page name, without
    user or workspace id, shows the success alert and leaves the service
    configured; the record is what [loadConfig] gives from then on. *)
Theorem handleSave_configures E trim s st :
  storage_works E →
  trim (NotionTokenScreen.token s) ≠ "" →
  trim (NotionTokenScreen.pageId s) ≠ "" →
  trim (NotionTokenScreen.pageName s) ≠ "" →
  ∃ st1,
    NotionTokenScreen.handleSave E trim s st
      = (Ok (NotionTokenScreen.setIsLoading false (NotionTokenScreen.setIsLoading true s)),
         with_event (Alert "Success" "Notion integration configured successfully!", None)
           st1)
    ∧ config st1 = Some {| accessToken := trim (NotionTokenScreen.token s);
                           pageId := trim (NotionTokenScreen.pageId s);
                           pageName := trim (NotionTokenScreen.pageName s);
                           userId := None; workspaceId := None;
                           workspaceName := None |}
    ∧ isConfigured st1 = true
    ∧ storage st1 !! NOTION_TOKEN_KEY = Some (trim (NotionTokenScreen.token s))
    ∧ storage st1 !! NOTION_PAGE_ID_KEY = Some (trim (NotionTokenScreen.pageId s))
    ∧ storage st1 !! NOTION_PAGE_NAME_KEY = Some (trim (NotionTokenScreen.pageName s)).
Proof.
  intros Hworks Htoken Hpage Hname.
  unfold NotionTokenScreen.handleSave, truthy.
  rewrite !bool_decide_eq_true_2 by done. simpl.
  rewrite bind_run. unfold try_catch. rewrite bind_run.
  match goal with |- context [saveConfig E ?c st] =>
    destruct (saveConfig_works E c st Hworks)
      as (st1 & Hsave & Hconfig & _ & _ & Ht & Hp & Hn & _);
    rewrite Hsave end.
  simpl. exists st1. split; [done|]. split; [done|].
  split; [by apply (isConfigured_true_intro st1 _ Hconfig)|]. done.
Qed.

Lemma handleSave_configures_witness :
  ∃ st1,
    (NotionTokenScreen.handleSave quietEnv sampleTrim filledScreen freshState).2
      = with_event (Alert "Success" "Notion integration configured successfully!", None) st1
    ∧ config st1 = Some {| accessToken := "secret_abc"; pageId := "page_b";
                           pageName := "Journal"; userId := None; workspaceId := None;
                           workspaceName := None |}
    ∧ isConfigured st1 = true.
Proof.
  destruct (handleSave_configures quietEnv sampleTrim filledScreen freshState)
    as (st1 & Hrun & Hconfig & Hconf & _).
  - intros h r _. reflexivity.
  - vm_compute. discriminate.
  - vm_compute. discriminate.
  - vm_compute. discriminate.
  - exists st1. split; [by rewrite Hrun|]. split; [exact Hconfig|exact Hconf].
Defined.

(** X8. [handleSave] never raises.  With a blank token, page id or page
    name it only shows an error alert: nothing is sent to the storage and
    the service is as it was.  When [saveConfig] fails it shows the alert
    "Failed to save configuration. Please try again.", the cached record
    is the one of before and the screen is no longer loading. *)
Theorem handleSave_without_effect E trim s st :
  (trim (NotionTokenScreen.token s) = ""
   ∨ trim (NotionTokenScreen.pageId s) = ""
   ∨ trim (NotionTokenScreen.pageName s) = "" →
   ∃ message,
     NotionTokenScreen.handleSave E trim s st
       = (Ok s, with_event (Alert "Error" message, None) st))
  ∧ (∃ s' st', NotionTokenScreen.handleSave E trim s st = (Ok s', st'))
  ∧ (∀ message st1,
       trim (NotionTokenScreen.token s) ≠ "" →
       trim (NotionTokenScreen.pageId s) ≠ "" →
       trim (NotionTokenScreen.pageName s) ≠ "" →
       saveConfig E (screenConfig trim s) st = (Throw message, st1) →
       NotionTokenScreen.handleSave E trim s st
         = (Ok (NotionTokenScreen.setIsLoading false
                  (NotionTokenScreen.setIsLoading true s)),
            with_event
              (Alert "Error" "Failed to save configuration. Please try again.", None)
              st1)
       ∧ config st1 = config st).
Proof.
  unfold NotionTokenScreen.handleSave, screenConfig, truthy.
  split; [|split].
  - intros Hblank.
    destruct (decide (trim (NotionTokenScreen.token s) = "")) as [Ht|Ht].
    { rewrite bool_decide_eq_false_2 by (by intros []). simpl. by eexists. }
    rewrite (bool_decide_eq_true_2 _ Ht). simpl.
    destruct (decide (trim (NotionTokenScreen.pageId s) = "")) as [Hp|Hp].
    { rewrite bool_decide_eq_false_2 by (by intros []). simpl. by eexists. }
    rewrite (bool_decide_eq_true_2 _ Hp). simpl.
    destruct Hblank as [?|[?|Hn]]; [done|done|].
    rewrite bool_decide_eq_false_2 by (by intros []). simpl. by eexists.
  - repeat (case_bool_decide; simpl; [|by eexists _, _]).
    rewrite bind_run. unfold try_catch. rewrite bind_run.
    match goal with |- context [saveConfig E ?c st] =>
      destruct (saveConfig E c st) as [[[]|m] st1] end; simpl; by eexists _, _.
  - intros message st1 Ht Hp Hn Hsave.
    rewrite !bool_decide_eq_true_2 by done. simpl.
    rewrite bind_run. unfold try_catch. rewrite bind_run, Hsave. simpl.
    split; [done|]. by eapply saveConfig_failure_keeps_cache.
Qed.

Lemma handleSave_without_effect_witness :
  (∃ message,
     NotionTokenScreen.handleSave quietEnv sampleTrim blankPageScreen freshState
       = (Ok blankPageScreen, with_event (Alert "Error" message, None) freshState))
  ∧ config (NotionTokenScreen.handleSave writeFailsEnv sampleTrim filledScreen
              configuredState).2 = Some sampleConfig.
Proof.
  destruct (handleSave_without_effect quietEnv sampleTrim blankPageScreen freshState)
    as (Hblank & _ & _).
  destruct (handleSave_without_effect writeFailsEnv sampleTrim filledScreen configuredState)
    as (_ & _ & Hfail).
  split.
  - apply Hblank. right. left. reflexivity.
  - destruct (Hfail "Failed to save user Notion configuration: Storage is full"
                (saveConfig writeFailsEnv (screenConfig sampleTrim filledScreen)
                   configuredState).2) as [Hrun Hconfig];
      [vm_compute; discriminate|vm_compute; discriminate|vm_compute; discriminate
      |reflexivity|].
    rewrite Hrun. exact Hconfig.
Defined.

(** *** The sync status bar *)

Lemma filter_refs_all_synced l k :
  (∀ j note, l !! j = Some note → synced note = true) → filter_refs k l = [].
Proof.
  intros Hall. destruct (filter_refs k l) as [|i refs] eqn:Hrefs; [done|].
  assert (Hin : i ∈ filter_refs k l) by (rewrite Hrefs; left).
  apply filter_refs_elem in Hin as (_ & note & Hnote & Hunsynced).
  rewrite unsynced_synced, (Hall _ _ Hnote) in Hunsynced. done.
Qed.

Lemma handleSyncAll_result_refs E c st c' st' :
  handleSyncAll E (updateUnsyncedNotes c) st = (Ok c', st') →
  unsyncedNotes c' = filter_refs 0 (notes c').
Proof.
  unfold handleSyncAll. case_bool_decide.
  - by intros [= <- <-].
  - rewrite bind_run.
    match goal with |- context [try_catch ?body ?handler st] =>
      destruct (try_catch body handler st) as [[c1|m] s1] end; simpl; [|done].
    by intros [= <- <-].
Qed.

(** X10. Without a selected page, [handleSyncAll] over notes of which one
    at least is not synced sends no request: it shows the alert "Sync
    Error", marks no note, and the list of unsynced notes is the one of
    before. *)
Theorem handleSyncAll_without_page E c st i note :
  truthy_opt (config_pageId st) = false →
  notes c !! i = Some note →
  synced note = false →
  ∃ c',
    handleSyncAll E (updateUnsyncedNotes c) st
      = (Ok c',
         with_event (Alert "Sync Error" "Failed to sync notes. Please try again.", None) st)
    ∧ notes c' = notes c
    ∧ unsyncedNotes c' = filter_refs 0 (notes c)
    ∧ isSyncing c' = false.
Proof.
  intros Hpage Hnote Hsynced. unfold handleSyncAll. simpl.
  assert (Hin : i ∈ filter_refs 0 (notes c)).
  { apply filter_refs_elem. split; [lia|]. exists note. rewrite Nat.sub_0_r.
    split; [done|]. by rewrite unsynced_synced, Hsynced. }
  rewrite bool_decide_eq_false_2.
  2:{ intros Hlen%length_zero_iff_nil. rewrite Hlen in Hin. by apply elem_of_nil in Hin. }
  rewrite bind_run. unfold try_catch at 1. rewrite bind_run.
  unfold ensurePageExists, try_catch. rewrite bind_run. simpl. rewrite Hpage. simpl.
  by eexists.
Qed.

Lemma handleSyncAll_without_page_witness :
  ∃ c',
    (handleSyncAll quietEnv (updateUnsyncedNotes sampleBar) authenticatedState).1 = Ok c'
    ∧ notes c' = [syncedNote; newNote]
    ∧ unsyncedNotes c' = [1].
Proof.
  destruct (handleSyncAll_without_page quietEnv sampleBar authenticatedState 1 newNote)
    as (c' & Hrun & Hnotes & Hrefs & _); [reflexivity|reflexivity|reflexivity|].
  exists c'. split; [by rewrite Hrun|]. split; [exact Hnotes|exact Hrefs].
Defined.

Lemma notion_request_not_storage r auth :
  notion_request_auth r = Some auth → is_storage_request r = false.
Proof. by destruct r. Qed.

Lemma syncNote_keeps_storage E note st :
  ∃ st' new,
    syncNote E note st = (Ok true, st')
    ∧ trace st' = new ++ trace st
    ∧ storage st' = storage st
    ∧ config st' = config st
    ∧ ∀ ev, ev ∈ new → is_storage_request ev.1 = false.
Proof.
  destruct (syncNote_requests E note st)
    as (st' & new & Hrun & Htrace & Hstorage & Hconfig & Hauth & _).
  exists st', new. do 4 (split; [done|]).
  intros ev Hev. destruct Hauth as [->|(c & _ & Hauth)]; [by apply elem_of_nil in Hev|].
  eapply notion_request_not_storage. by apply Hauth.
Qed.

Lemma syncLoop_keeps_storage E refs : ∀ l successCount errorCount st,
  ∃ r st' new,
    syncLoop E refs l successCount errorCount st = (Ok r, st')
    ∧ trace st' = new ++ trace st
    ∧ storage st' = storage st
    ∧ config st' = config st
    ∧ ∀ ev, ev ∈ new → is_storage_request ev.1 = false.
Proof.
  induction refs as [|i refs IH]; intros l sc ec st.
  { eexists _, st, []. simpl. split; [done|]. do 3 (split; [done|]).
    by intros ev ?%elem_of_nil. }
  simpl. destruct (l !! i) as [note|]; [|apply IH].
  destruct (syncNote_keeps_storage E (noteFields note) st)
    as (st1 & new1 & Hrun1 & Ht1 & Hs1 & Hc1 & Hev1).
  rewrite bind_run. unfold attempt. rewrite Hrun1. rewrite bind_run.
  unfold dateNow, emit. run_pure.
  match goal with |- context [syncLoop E refs ?l' ?sc' ?ec' ?s'] =>
    destruct (IH l' sc' ec' s') as (r & st' & new & Hrun & Ht & Hs & Hc & Hev) end.
  exists r, st', (new ++ (DateNow, None) :: new1).
  split; [done|]. simpl in *.
  split; [by rewrite Ht, Ht1, <- app_assoc|].
  split; [congruence|]. split; [congruence|].
  intros ev [Hin|[->|Hin]%elem_of_cons]%elem_of_app; [by apply Hev|done|by apply Hev1].
Qed.

Lemma showResults_events c successCount errorCount st :
  ∃ st' new,
    showResults c successCount errorCount st = (Ok tt, st')
    ∧ trace st' = new ++ trace st
    ∧ storage st' = storage st
    ∧ config st' = config st
    ∧ ∀ ev, ev ∈ new → is_storage_request ev.1 = false.
Proof.
  unfold showResults, callOnSyncComplete.
  repeat (match goal with |- context [if ?b then _ else _] => destruct b end);
    simpl; run_pure;
    first [ (eexists _, [_; _]; split; [reflexivity|]; split; [reflexivity|])
          | (eexists _, [_]; split; [reflexivity|]; split; [reflexivity|]) ];
    (do 2 (split; [done|]));
    intros ev Hev; repeat (apply elem_of_cons in Hev as [->|Hev]; [done|]);
    by apply elem_of_nil in Hev.
Qed.

(** The requests of [handleSyncAll]: none goes to the storage. *)
Lemma handleSyncAll_requests E c st :
  ∃ c' st' new,
    handleSyncAll E c st = (Ok c', st')
    ∧ trace st' = new ++ trace st
    ∧ storage st' = storage st
    ∧ config st' = config st
    ∧ ∀ ev, ev ∈ new → is_storage_request ev.1 = false.
Proof.
  unfold handleSyncAll. case_bool_decide.
  { exists c, st, []. split; [done|]. do 3 (split; [done|]). by intros ev ?%elem_of_nil. }
  rewrite bind_run. unfold try_catch at 1. rewrite bind_run.
  unfold ensurePageExists, try_catch. rewrite bind_run. simpl.
  destruct (truthy_opt (config_pageId st)); simpl.
  - rewrite bind_run.
    match goal with |- context [syncLoop E ?refs ?l 0 0 st] =>
      destruct (syncLoop_keeps_storage E refs l 0 0 st)
        as ([[l' sc] ec] & st1 & new1 & Hrun1 & Ht1 & Hs1 & Hc1 & Hev1) end.
    simpl in Hrun1. rewrite Hrun1. rewrite bind_run.
    match goal with |- context [showResults ?c0 sc ec st1] =>
      destruct (showResults_events c0 sc ec st1)
        as (st2 & new2 & Hrun2 & Ht2 & Hs2 & Hc2 & Hev2) end.
    rewrite Hrun2. simpl.
    eexists _, st2, (new2 ++ new1). split; [reflexivity|].
    split; [by rewrite Ht2, Ht1, app_assoc|].
    split; [congruence|]. split; [congruence|].
    intros ev [Hin|Hin]%elem_of_app; [by apply Hev2|by apply Hev1].
  - eexists _, _, [_]. split; [reflexivity|]. do 3 (split; [done|]).
    by intros ev ->%list_elem_of_singleton.
Qed.

Lemma loadConfig_resolves E st : ∃ r st', loadConfig E st = (Ok r, st').
Proof.
  unfold loadConfig, try_catch.
  match goal with |- context [match ?body st with _ => _ end] =>
    destruct (body st) as [[r|m] st'] end; by eexists _, _.
Qed.

(** X12. [checkNotionConfig] never raises.  On a working storage it sets
    [isNotionConfigured] from the storage when a token is stored (to
    whether a page id is stored with it), and from the cached record
    otherwise: [loadConfig] finds nothing then, and leaves the cache as it
    is. *)
Theorem checkNotionConfig_result E c st :
  (∃ c' st', checkNotionConfig E c st = (Ok c', st'))
  ∧ (storage_works E →
     ∃ st',
       checkNotionConfig E c st
       = (Ok (setIsNotionConfigured
                (if truthy_opt (storage st !! NOTION_TOKEN_KEY)
                 then truthy_opt (storage st !! NOTION_PAGE_ID_KEY)
                 else isConfigured st) c), st')).
Proof.
  split.
  - unfold checkNotionConfig, try_catch. rewrite bind_run.
    destruct (loadConfig_resolves E st) as (r & st' & ->). run_pure. by eexists _, _.
  - intros Hworks. unfold checkNotionConfig, try_catch. rewrite bind_run.
    destruct (loadConfig_works E st Hworks) as (st' & _ & Hload).
    destruct (truthy_opt (storage st !! NOTION_TOKEN_KEY)) eqn:Htoken.
    + destruct Hload as [-> Hconfig]. run_pure. exists st'. do 2 f_equal.
      unfold isConfigured. rewrite Hconfig. simpl.
      destruct (storage st !! NOTION_TOKEN_KEY) as [t|]; [|done]. simpl in *.
      unfold truthy in Htoken. rewrite Htoken. simpl.
      by destruct (storage st !! NOTION_PAGE_ID_KEY) as [p|].
    + destruct Hload as [-> Hconfig]. run_pure. exists st'.
      by rewrite (isConfigured_config st st' Hconfig).
Qed.

Lemma checkNotionConfig_result_witness :
  (checkNotionConfig quietEnv sampleBar configuredState).1
    = Ok (setIsNotionConfigured true sampleBar)
  ∧ (checkNotionConfig quietEnv sampleBar
       (with_storage ∅ configuredState)).1
    = Ok (setIsNotionConfigured true sampleBar).
Proof.
  destruct (checkNotionConfig_result quietEnv sampleBar configuredState) as [_ H1].
  destruct (checkNotionConfig_result quietEnv sampleBar (with_storage ∅ configuredState))
    as [_ H2].
  split.
  - destruct H1 as [st' ->]; [intros h r _; reflexivity|]. reflexivity.
  - destruct H2 as [st' ->]; [intros h r _; reflexivity|]. reflexivity.
Defined.

(** ** The note store *)

(** [getNotes]: one read, and the notes it finds, none when the read is
    rejected. *)
Lemma getNotes_run E J st :
  getNotes E J st
  = (Ok (match rejects E (trace st) (GetItem NOTES_STORAGE_KEY) with
         | Some _ => []
         | None => stored_notes J (storage st)
         end),
     with_event (GetItem NOTES_STORAGE_KEY,
                 rejects E (trace st) (GetItem NOTES_STORAGE_KEY)) st).
Proof.
  unfold getNotes, try_catch, getItem, stored_notes.
  rewrite !bind_run. run_perform; simpl; [done|].
  destruct (storage st !! NOTES_STORAGE_KEY) as [text|]; simpl; [|done].
  destruct (truthy text); [|done].
  by destruct (JSON_parse J text).
Qed.

(** X13. [getNotes] never raises and changes nothing: it sends one read,
    and resolves to the empty list when the read is rejected, when
    nothing or an empty text is stored, and when the stored text does not
    parse; otherwise to the parsed notes with their dates revived. *)
Theorem getNotes_never_raises E J st :
  ∃ l,
    getNotes E J st
    = (Ok l, with_event (GetItem NOTES_STORAGE_KEY,
                         rejects E (trace st) (GetItem NOTES_STORAGE_KEY)) st)
    ∧ (is_Some (rejects E (trace st) (GetItem NOTES_STORAGE_KEY)) → l = [])
    ∧ (storage st !! NOTES_STORAGE_KEY = None → l = [])
    ∧ (storage st !! NOTES_STORAGE_KEY = Some "" → l = [])
    ∧ (∀ text, storage st !! NOTES_STORAGE_KEY = Some text →
               JSON_parse J text = None → l = [])
    ∧ (∀ text notes,
         rejects E (trace st) (GetItem NOTES_STORAGE_KEY) = None →
         storage st !! NOTES_STORAGE_KEY = Some text →
         text ≠ "" →
         JSON_parse J text = Some notes →
         l = map (revive J) notes).
Proof.
  eexists. split; [apply getNotes_run|].
  unfold stored_notes.
  destruct (rejects E (trace st) (GetItem NOTES_STORAGE_KEY)) as [m|].
  { do 4 (split; [done|]). by intros. }
  split; [by intros [? ?]|].
  split; [by intros ->|]. split; [by intros ->|].
  split.
  - intros text -> Hparse. rewrite Hparse. by destruct (truthy text).
  - intros text notes _ -> Htext Hparse. rewrite Hparse.
    unfold truthy. by rewrite (bool_decide_eq_true_2 _ Htext).
Qed.

Lemma getNotes_never_raises_witness :
  (getNotes quietEnv sampleJson freshState).1 = Ok []
  ∧ (getNotes quietEnv sampleJson notesState).1 = Ok [syncedNote; newNote]
  ∧ (getNotes readFailsEnv sampleJson notesState).1 = Ok [].
Proof.
  destruct (getNotes_never_raises quietEnv sampleJson freshState)
    as (l1 & H1 & _ & Hnone & _).
  destruct (getNotes_never_raises quietEnv sampleJson notesState)
    as (l2 & H2 & _ & _ & _ & _ & Hsome).
  destruct (getNotes_never_raises readFailsEnv sampleJson notesState)
    as (l3 & H3 & Hrejected & _).
  rewrite H1, H2, H3. simpl.
  split; [by rewrite Hnone|]. split.
  - rewrite (Hsome "[1,2]" (map rawOf [syncedNote; newNote]));
      [reflexivity|reflexivity|reflexivity|discriminate|reflexivity].
  - rewrite Hrejected; [reflexivity|]. eexists. reflexivity.
Defined.

(** The three writers read the notes, then write the list [f] makes of
    them. *)
Lemma write_notes_run E J (f : list Types.Note → list Types.Note) failure st :
  try_catch
    (notes ← getNotes E J;
     setItem E NOTES_STORAGE_KEY (JSON_stringify J (f notes)))
    (λ error, throw failure) st
  = let read := rejects E (trace st) (GetItem NOTES_STORAGE_KEY) in
    let st1 := with_event (GetItem NOTES_STORAGE_KEY, read) st in
    let text := JSON_stringify J (f (match read with
                                     | Some _ => []
                                     | None => stored_notes J (storage st)
                                     end)) in
    match rejects E (trace st1) (SetItem NOTES_STORAGE_KEY text) with
    | Some message =>
        (Throw failure, with_event (SetItem NOTES_STORAGE_KEY text, Some message) st1)
    | None =>
        (Ok tt, with_storage (<[NOTES_STORAGE_KEY := text]> (storage st))
                  (with_event (SetItem NOTES_STORAGE_KEY text, None) st1))
    end.
Proof.
  unfold try_catch at 1. rewrite bind_run, getNotes_run. unfold setItem.
  rewrite bind_run. unfold perform. simpl.
  by destruct (rejects E (_ :: trace st) (SetItem _ _)).
Qed.

Lemma saveNote_run E J note st :
  saveNote E J note st
  = try_catch
      (notes ← getNotes E J;
       setItem E NOTES_STORAGE_KEY (JSON_stringify J ((λ l, l ++ [note]) notes)))
      (λ error, throw "Failed to save note") st.
Proof. reflexivity. Qed.

Lemma updateNote_run E J updatedNote st :
  updateNote E J updatedNote st
  = try_catch
      (notes ← getNotes E J;
       setItem E NOTES_STORAGE_KEY (JSON_stringify J (replace_note updatedNote notes)))
      (λ error, throw "Failed to update note") st.
Proof. reflexivity. Qed.

Lemma deleteNote_run E J noteId st :
  deleteNote E J noteId st
  = try_catch
      (notes ← getNotes E J;
       setItem E NOTES_STORAGE_KEY (JSON_stringify J (remove_note noteId notes)))
      (λ error, throw "Failed to delete note") st.
Proof. reflexivity. Qed.

(** On a working storage, a writer leaves the list [f] makes of the
    stored notes, provided its JSON text is faithful. *)
Lemma write_notes_works E J f failure st :
  storage_works E →
  faithful_on J (f (stored_notes J (storage st))) →
  ∃ st',
    try_catch
      (notes ← getNotes E J;
       setItem E NOTES_STORAGE_KEY (JSON_stringify J (f notes)))
      (λ error, throw failure) st = (Ok tt, st')
    ∧ stored_notes J (storage st') = f (stored_notes J (storage st))
    ∧ (getNotes E J st').1 = Ok (f (stored_notes J (storage st)))
    ∧ config st' = config st
    ∧ ∀ key, key ≠ NOTES_STORAGE_KEY → storage st' !! key = storage st !! key.
Proof.
  intros Hworks [Htext Hparse]. rewrite write_notes_run. simpl.
  rewrite !Hworks by done. eexists. split; [reflexivity|].
  assert (Hstored : stored_notes J
                      (<[NOTES_STORAGE_KEY:=JSON_stringify J (f (stored_notes J (storage st)))]>
                         (storage st))
                    = f (stored_notes J (storage st))).
  { unfold stored_notes at 1. rewrite lookup_insert_eq.
    unfold truthy. rewrite (bool_decide_eq_true_2 _ Htext).
    destruct (JSON_parse J _) as [notes|]; simpl in Hparse; by inversion Hparse. }
  split; [done|].
  split; [rewrite getNotes_run; simpl; by rewrite Hworks, Hstored|].
  split; [done|]. intros key Hkey. simpl. by rewrite lookup_insert_ne.
Qed.

Lemma getNotes_works E J st :
  storage_works E → (getNotes E J st).1 = Ok (stored_notes J (storage st)).
Proof. intros Hworks. rewrite getNotes_run. simpl. by rewrite Hworks. Qed.

(** X14. On a working storage, [saveNote] adds the note at the end of the
    stored notes: [getNotes] gives afterwards the notes it gave before,
    followed by the new one (the JSON text of that list being faithful). *)
Theorem saveNote_appends E J note st old :
  storage_works E →
  (getNotes E J st).1 = Ok old →
  faithful_on J (old ++ [note]) →
  ∃ st',
    saveNote E J note st = (Ok tt, st')
    ∧ (getNotes E J st').1 = Ok (old ++ [note]).
Proof.
  intros Hworks Hold Hfaithful.
  rewrite (getNotes_works E J st Hworks) in Hold. injection Hold as <-.
  destruct (write_notes_works E J (λ l, l ++ [note]) "Failed to save note" st
              Hworks Hfaithful) as (st' & Hrun & _ & Hget & _).
  exists st'. by rewrite saveNote_run.
Qed.

Lemma saveNote_appends_witness :
  ∃ st',
    saveNote quietEnv sampleJson newNote
      (with_storage (<[NOTES_STORAGE_KEY := "[1]"]> ∅) freshState) = (Ok tt, st')
    ∧ (getNotes quietEnv sampleJson st').1 = Ok [syncedNote; newNote].
Proof.
  apply (saveNote_appends quietEnv sampleJson newNote _ [syncedNote]).
  - intros h r _. reflexivity.
  - reflexivity.
  - split; [discriminate|reflexivity].
Defined.

Lemma replace_note_absent updatedNote l :
  (∀ note, note ∈ l → Types.id note ≠ Types.id updatedNote) →
  replace_note updatedNote l = l.
Proof.
  induction l as [|note l IH]; intros Habsent; simpl; [done|].
  rewrite bool_decide_eq_false_2 by (apply Habsent; left).
  f_equal. apply IH. intros note' Hin. apply Habsent. by right.
Qed.

(** X15. On a working storage, [updateNote] puts the given note in the
    place of every stored note with its id and keeps the others, in
    order: the number of notes does not change, afterwards every stored
    note with that id is the given note, and when no stored note has the
    id the notes are those of before (the note is not added). *)
Theorem updateNote_replaces E J updatedNote st old :
  storage_works E →
  (getNotes E J st).1 = Ok old →
  faithful_on J (replace_note updatedNote old) →
  ∃ st' new,
    updateNote E J updatedNote st = (Ok tt, st')
    ∧ (getNotes E J st').1 = Ok new
    ∧ new = replace_note updatedNote old
    ∧ length new = length old
    ∧ (∀ note, note ∈ new → Types.id note = Types.id updatedNote → note = updatedNote)
    ∧ ((∀ note, note ∈ old → Types.id note ≠ Types.id updatedNote) → new = old).
Proof.
  intros Hworks Hold Hfaithful.
  rewrite (getNotes_works E J st Hworks) in Hold. injection Hold as <-.
  destruct (write_notes_works E J (replace_note updatedNote) "Failed to update note" st
              Hworks Hfaithful) as (st' & Hrun & _ & Hget & _).
  exists st', (replace_note updatedNote (stored_notes J (storage st))).
  rewrite updateNote_run. do 3 (split; [done|]).
  split; [unfold replace_note; by rewrite length_map|].
  split; [|apply replace_note_absent].
  intros note (other & -> & _)%list_elem_of_fmap Hid.
  by case_bool_decide.
Qed.

Lemma updateNote_replaces_witness :
  ∃ st',
    updateNote quietEnv sampleJson newNoteSynced notesState = (Ok tt, st')
    ∧ (getNotes quietEnv sampleJson st').1 = Ok [syncedNote; newNoteSynced].
Proof.
  destruct (updateNote_replaces quietEnv sampleJson newNoteSynced notesState
              [syncedNote; newNote]) as (st' & new & Hrun & Hget & Hnew & _).
  - intros h r _. reflexivity.
  - reflexivity.
  - split; [discriminate|reflexivity].
  - exists st'. split; [exact Hrun|]. rewrite Hget, Hnew. reflexivity.
Defined.

(** X16. On a working storage, [deleteNote] removes every stored note
    with the given id and keeps the others, in order: afterwards
    [getNotes] gives exactly the notes it gave before whose id is not the
    given one. *)
Theorem deleteNote_removes E J noteId st old :
  storage_works E →
  (getNotes E J st).1 = Ok old →
  faithful_on J (remove_note noteId old) →
  ∃ st' new,
    deleteNote E J noteId st = (Ok tt, st')
    ∧ (getNotes E J st').1 = Ok new
    ∧ new = remove_note noteId old
    ∧ (∀ note, note ∈ new ↔ note ∈ old ∧ Types.id note ≠ noteId).
Proof.
  intros Hworks Hold Hfaithful.
  rewrite (getNotes_works E J st Hworks) in Hold. injection Hold as <-.
  destruct (write_notes_works E J (remove_note noteId) "Failed to delete note" st
              Hworks Hfaithful) as (st' & Hrun & _ & Hget & _).
  exists st', (remove_note noteId (stored_notes J (storage st))).
  rewrite deleteNote_run. do 3 (split; [done|]).
  intros note. unfold remove_note. rewrite !list_elem_of_In, List.filter_In.
  rewrite negb_true_iff, bool_decide_eq_false. done.
Qed.

Lemma deleteNote_removes_witness :
  ∃ st',
    deleteNote quietEnv sampleJson "1" notesState = (Ok tt, st')
    ∧ (getNotes quietEnv sampleJson st').1 = Ok [newNote].
Proof.
  destruct (deleteNote_removes quietEnv sampleJson "1" notesState [syncedNote; newNote])
    as (st' & new & Hrun & Hget & Hnew & _).
  - intros h r _. reflexivity.
  - reflexivity.
  - split; [discriminate|reflexivity].
  - exists st'. split; [exact Hrun|]. rewrite Hget, Hnew. reflexivity.
Defined.

(** X17. The writers of the note store go on when the notes cannot be
    read.  When the read is rejected, or the stored text does not parse,
    and the write is accepted, [saveNote] replaces whatever was stored by
    the new note alone, and [updateNote] and [deleteNote] replace it by
    the empty list: the notes of before are lost. *)
Theorem unreadable_notes_are_overwritten E J note noteId st :
  (is_Some (rejects E (trace st) (GetItem NOTES_STORAGE_KEY))
   ∨ ∃ text, storage st !! NOTES_STORAGE_KEY = Some text ∧ JSON_parse J text = None) →
  (∀ h key value, rejects E h (SetItem key value) = None) →
  ∃ st1 st2 st3,
    saveNote E J note st = (Ok tt, st1)
    ∧ storage st1 !! NOTES_STORAGE_KEY = Some (JSON_stringify J [note])
    ∧ updateNote E J note st = (Ok tt, st2)
    ∧ storage st2 !! NOTES_STORAGE_KEY = Some (JSON_stringify J [])
    ∧ deleteNote E J noteId st = (Ok tt, st3)
    ∧ storage st3 !! NOTES_STORAGE_KEY = Some (JSON_stringify J []).
Proof.
  intros Hunreadable Hwrite.
  assert (Hnone : match rejects E (trace st) (GetItem NOTES_STORAGE_KEY) with
                  | Some _ => []
                  | None => stored_notes J (storage st)
                  end = []).
  { destruct (rejects E (trace st) (GetItem NOTES_STORAGE_KEY)); [done|].
    destruct Hunreadable as [[? ?]|(text & Htext & Hparse)]; [done|].
    unfold stored_notes. rewrite Htext, Hparse. by destruct (truthy text). }
  rewrite saveNote_run, updateNote_run, deleteNote_run, !write_notes_run.
  simpl. rewrite !Hnone, !Hwrite. simpl.
  eexists _, _, _. repeat split; simpl; by rewrite lookup_insert_eq.
Qed.

Lemma unreadable_notes_are_overwritten_witness :
  (getNotes quietEnv sampleJson notesState).1 = Ok [syncedNote; newNote]
  ∧ ∃ st1,
      saveNote readFailsEnv sampleJson newNote notesState = (Ok tt, st1)
      ∧ (getNotes quietEnv sampleJson st1).1 = Ok [newNote].
Proof.
  split; [reflexivity|].
  destruct (unreadable_notes_are_overwritten readFailsEnv sampleJson newNote "1" notesState)
    as (st1 & _ & _ & Hrun & _).
  - left. eexists. reflexivity.
  - intros h key value. reflexivity.
  - exists st1. split; [exact Hrun|].
    assert (Hst1 : st1 = (saveNote readFailsEnv sampleJson newNote notesState).2)
      by (rewrite Hrun; reflexivity).
    rewrite Hst1. reflexivity.
Defined.

Lemma write_notes_rejected E J f failure st key value message :
  (SetItem key value, Some message)
    ∈ events_since st
        (try_catch
           (notes ← getNotes E J;
            setItem E NOTES_STORAGE_KEY (JSON_stringify J (f notes)))
           (λ error, throw failure) st).2 →
  try_catch
    (notes ← getNotes E J;
     setItem E NOTES_STORAGE_KEY (JSON_stringify J (f notes)))
    (λ error, throw failure) st
  = (Throw failure,
     with_event (SetItem key value, Some message)
       (with_event (GetItem NOTES_STORAGE_KEY,
                    rejects E (trace st) (GetItem NOTES_STORAGE_KEY)) st)).
Proof.
  rewrite write_notes_run. simpl.
  set (answer := rejects E (_ :: trace st) (SetItem _ _)).
  destruct answer as [m|]; simpl.
  - compute_events_since.
    intros [Hin|[Hin|[]%elem_of_nil]%elem_of_cons]%elem_of_cons.
    + by injection Hin as -> -> ->.
    + done.
  - compute_events_since.
    intros [Hin|[Hin|[]%elem_of_nil]%elem_of_cons]%elem_of_cons; done.
Qed.

(** X18. A rejected write makes [saveNote], [updateNote] and [deleteNote]
    raise "Failed to save note", "Failed to update note" and "Failed to
    delete note", without the cause; the stored notes and the rest of the
    storage are what they were. *)
Theorem note_write_failure E J note noteId st key value message :
  ((SetItem key value, Some message) ∈ events_since st (saveNote E J note st).2 →
   (saveNote E J note st).1 = Throw "Failed to save note"
   ∧ storage (saveNote E J note st).2 = storage st)
  ∧ ((SetItem key value, Some message) ∈ events_since st (updateNote E J note st).2 →
     (updateNote E J note st).1 = Throw "Failed to update note"
     ∧ storage (updateNote E J note st).2 = storage st)
  ∧ ((SetItem key value, Some message) ∈ events_since st (deleteNote E J noteId st).2 →
     (deleteNote E J noteId st).1 = Throw "Failed to delete note"
     ∧ storage (deleteNote E J noteId st).2 = storage st).
Proof.
  rewrite saveNote_run, updateNote_run, deleteNote_run.
  split; [|split]; intros Hin; by rewrite (write_notes_rejected _ _ _ _ _ _ _ _ Hin).
Qed.

Lemma note_write_failure_witness :
  (saveNote notesWriteFailsEnv sampleJson newNote notesState).1 = Throw "Failed to save note"
  ∧ (deleteNote notesWriteFailsEnv sampleJson "1" notesState).1
    = Throw "Failed to delete note"
  ∧ storage (deleteNote notesWriteFailsEnv sampleJson "1" notesState).2
    = storage notesState.
Proof.
  destruct (note_write_failure notesWriteFailsEnv sampleJson newNote "1" notesState
              NOTES_STORAGE_KEY "null" "Storage is full") as (Hsave & _ & _).
  destruct (note_write_failure notesWriteFailsEnv sampleJson newNote "1" notesState
              NOTES_STORAGE_KEY "[2]" "Storage is full") as (_ & _ & Hdelete).
  split; [apply Hsave; vm_compute; left|].
  apply Hdelete. vm_compute. left.
Defined.

(** X19. [clearAllNotes] on a working storage leaves no note: [getNotes]
    gives the empty list afterwards, and the other entries of the storage
    are untouched.  When the removal is rejected it raises "Failed to
    clear notes" and the storage is what it was. *)
Theorem clearAllNotes_clears E J st :
  (storage_works E →
   ∃ st',
     clearAllNotes E st = (Ok tt, st')
     ∧ (getNotes E J st').1 = Ok []
     ∧ storage st' = delete NOTES_STORAGE_KEY (storage st)
     ∧ config st' = config st)
  ∧ (is_Some (rejects E (trace st) (RemoveItem NOTES_STORAGE_KEY)) →
     (clearAllNotes E st).1 = Throw "Failed to clear notes"
     ∧ storage (clearAllNotes E st).2 = storage st).
Proof.
  unfold clearAllNotes, try_catch, removeItem. split.
  - intros Hworks. rewrite bind_run. run_storage Hworks. simpl.
    eexists. split; [reflexivity|]. split; [|done].
    rewrite getNotes_works by done. simpl.
    unfold stored_notes. by rewrite lookup_delete_eq.
  - intros [m Hm]. rewrite bind_run. by rewrite (perform_rejected _ _ _ _ Hm).
Qed.

Lemma clearAllNotes_clears_witness :
  (getNotes quietEnv sampleJson (clearAllNotes quietEnv notesState).2).1 = Ok []
  ∧ storage (clearAllNotes quietEnv notesState).2 !! NOTION_TOKEN_KEY = Some "tok_a".
Proof.
  destruct (clearAllNotes_clears quietEnv sampleJson notesState) as [Hclear _].
  destruct Hclear as (st' & Hrun & Hget & Hstorage & _); [intros h r _; reflexivity|].
  rewrite Hrun. simpl. split; [exact Hget|]. rewrite Hstorage. reflexivity.
Defined.

(** ** The home screen *)

Lemma insertNote_perm note l : insertNote note l ≡ₚ note :: l.
Proof.
  induction l as [|other rest IH]; simpl; [done|].
  case_bool_decide; [done|]. rewrite IH. apply Permutation_swap.
Qed.

Lemma sortNotes_perm l : sortNotes l ≡ₚ l.
Proof.
  induction l as [|note l IH]; simpl; [done|].
  by rewrite insertNote_perm, IH.
Qed.

Lemma insertNote_sorted note l :
  StronglySorted newest_first l → StronglySorted newest_first (insertNote note l).
Proof.
  induction 1 as [|other rest Hsorted IH Hall]; simpl.
  { repeat constructor. }
  case_bool_decide as Hle.
  - constructor; [by constructor|]. constructor; [done|].
    eapply Forall_impl; [exact Hall|]. unfold newest_first. intros; lia.
  - constructor; [done|]. rewrite insertNote_perm. constructor; [|done].
    unfold newest_first. lia.
Qed.

Lemma sortNotes_sorted l : StronglySorted newest_first (sortNotes l).
Proof.
  induction l as [|note l IH]; simpl; [constructor|by apply insertNote_sorted].
Qed.

Lemma sortNotes_of_sorted l : StronglySorted newest_first l → sortNotes l = l.
Proof.
  induction 1 as [|note l Hsorted IH Hall]; simpl; [done|].
  fold (sortNotes l). rewrite IH.
  destruct Hall as [|other rest Hle _]; simpl; [done|].
  by rewrite bool_decide_eq_true_2.
Qed.

Lemma loadNotes_run E J notes st :
  loadNotes E J notes st
  = (Ok (sortNotes (match rejects E (trace st) (GetItem NOTES_STORAGE_KEY) with
                    | Some _ => []
                    | None => stored_notes J (storage st)
                    end)),
     with_event (GetItem NOTES_STORAGE_KEY,
                 rejects E (trace st) (GetItem NOTES_STORAGE_KEY)) st).
Proof.
  unfold loadNotes, try_catch. by rewrite bind_run, getNotes_run.
Qed.

(** X20. [loadNotes] never raises and its own [catch] block never runs:
    the screen always gets what [getNotes] gave, reordered newest first,
    no note lost or added, and as it was when it was in that order
    already.  So a rejected read empties the list of the screen. *)
Theorem loadNotes_sorts E J notes st :
  ∃ saved st',
    getNotes E J st = (Ok saved, st')
    ∧ loadNotes E J notes st = (Ok (sortNotes saved), st')
    ∧ sortNotes saved ≡ₚ saved
    ∧ StronglySorted newest_first (sortNotes saved)
    ∧ (StronglySorted newest_first saved → sortNotes saved = saved)
    ∧ (is_Some (rejects E (trace st) (GetItem NOTES_STORAGE_KEY)) →
       sortNotes saved = []).
Proof.
  eexists _, _. split; [apply getNotes_run|]. split; [apply loadNotes_run|].
  split; [apply sortNotes_perm|]. split; [apply sortNotes_sorted|].
  split; [apply sortNotes_of_sorted|].
  intros [m Hm]. by rewrite Hm.
Qed.

Lemma loadNotes_sorts_witness :
  (loadNotes quietEnv sampleJson [] notesState).1 = Ok [newNote; syncedNote]
  ∧ (loadNotes readFailsEnv sampleJson [syncedNote; newNote] notesState).1 = Ok [].
Proof.
  destruct (loadNotes_sorts quietEnv sampleJson [] notesState)
    as (saved1 & st1 & Hget1 & Hload1 & _).
  destruct (loadNotes_sorts readFailsEnv sampleJson [syncedNote; newNote] notesState)
    as (saved2 & st2 & _ & Hload2 & _ & _ & _ & Hempty).
  rewrite Hload1, Hload2. simpl. split.
  - assert (Hsaved : saved1 = [syncedNote; newNote])
      by (assert (H := f_equal fst Hget1); simpl in H; by injection H as <-).
    by rewrite Hsaved.
  - rewrite Hempty; [done|]. eexists. reflexivity.
Defined.

(** X21. While the service is not configured, [trySyncToNotion] does
    nothing at all: no request is sent, the note keeps the status it had,
    the list of the screen is not reloaded, and the promise resolves. *)
Theorem trySyncToNotion_unconfigured E J note notes st :
  isConfigured st = false →
  trySyncToNotion E J note notes st
  = (Ok {| note_after := note; notes_after := notes; settled := Ok tt |}, st).
Proof.
  intros Hconfigured. unfold trySyncToNotion, trySyncToNotion_try, attempt.
  rewrite bind_run. rewrite bind_run. simpl. by rewrite Hconfigured.
Qed.

Lemma trySyncToNotion_unconfigured_witness :
  trySyncToNotion quietEnv sampleJson newNote [newNote; syncedNote]
    (with_storage (<[NOTES_STORAGE_KEY := "[1,2]"]> ∅) freshState)
  = (Ok {| note_after := newNote; notes_after := [newNote; syncedNote];
           settled := Ok tt |},
     with_storage (<[NOTES_STORAGE_KEY := "[1,2]"]> ∅) freshState).
Proof.
  apply (trySyncToNotion_unconfigured quietEnv sampleJson). reflexivity.
Defined.

(** The [try] block of [trySyncToNotion] on a configured service: the
    call of [syncNote], then the clock, then the local update. *)
Lemma trySyncToNotion_try_run E J note notes st :
  isConfigured st = true →
  ∃ st1 new,
    syncNote E (noteFields note) st = (Ok true, st1)
    ∧ trace st1 = new ++ trace st
    ∧ storage st1 = storage st
    ∧ config st1 = config st
    ∧ (∀ ev, ev ∈ new → is_storage_request ev.1 = false)
    ∧ trySyncToNotion_try E J note notes st
      = (let st2 := with_event (DateNow, None) st1 in
         let marked := Types.setSyncStatus note (syncedAt (clock E (trace st2))) in
         (updateNote E J marked;;
          l ← loadNotes E J notes;
          mret (marked, l)) st2).
Proof.
  intros Hconfigured.
  destruct (syncNote_keeps_storage E (noteFields note) st)
    as (st1 & new & Hrun & Htrace & Hstorage & Hconfig & Hev).
  exists st1, new. do 5 (split; [done|]).
  unfold trySyncToNotion_try. rewrite bind_run. simpl. rewrite Hconfigured. simpl.
  rewrite bind_run, (ensurePageExists_ok st (isConfigured_pageId st Hconfigured)).
  rewrite bind_run, Hrun. unfold dateNow, emit. by run_pure.
Qed.

Lemma stored_notes_insert J l s :
  faithful_on J l →
  stored_notes J (<[NOTES_STORAGE_KEY := JSON_stringify J l]> s) = l.
Proof.
  intros [Htext Hparse]. unfold stored_notes. rewrite lookup_insert_eq.
  unfold truthy. rewrite (bool_decide_eq_true_2 _ Htext).
  destruct (JSON_parse J _) as [notes|]; simpl in Hparse; by inversion Hparse.
Qed.

(** X22. On a configured service and a working storage, [trySyncToNotion]
    always ends with the note marked as synced, in the note object and in
    the stored notes, whatever the Notion API answered to [syncNote]; the
    screen shows the stored notes, newest first. *)
Theorem trySyncToNotion_marks_synced E J note notes st :
  isConfigured st = true →
  storage_works E →
  (∀ h, faithful_on J (replace_note (Types.setSyncStatus note (syncedAt (clock E h)))
                         (stored_notes J (storage st)))) →
  ∃ now st',
    trySyncToNotion E J note notes st
    = (Ok {| note_after := Types.setSyncStatus note (syncedAt now);
             notes_after :=
               sortNotes (replace_note (Types.setSyncStatus note (syncedAt now))
                            (stored_notes J (storage st)));
             settled := Ok tt |}, st')
    ∧ stored_notes J (storage st')
      = replace_note (Types.setSyncStatus note (syncedAt now))
          (stored_notes J (storage st)).
Proof.
  intros Hconfigured Hworks Hfaithful.
  destruct (trySyncToNotion_try_run E J note notes st Hconfigured)
    as (st1 & new & _ & _ & Hstorage & _ & _ & Htry).
  unfold trySyncToNotion, attempt. rewrite bind_run, Htry. clear Htry. simpl.
  set (now := clock E ((DateNow, None) :: trace st1)).
  rewrite bind_run, updateNote_run, write_notes_run. simpl.
  rewrite !Hworks by done. rewrite bind_run, loadNotes_run. simpl.
  rewrite Hworks by done. rewrite Hstorage.
  rewrite (stored_notes_insert J _ _ (Hfaithful _)).
  exists now. eexists. split; [reflexivity|]. simpl.
  apply stored_notes_insert, Hfaithful.
Qed.

Lemma trySyncToNotion_marks_synced_witness :
  ∃ st',
    trySyncToNotion appendFailsEnv sampleJson newNote [newNote; syncedNote] notesState
    = (Ok {| note_after := newNoteSynced; notes_after := [newNoteSynced; syncedNote];
             settled := Ok tt |}, st')
    ∧ remote st' = []
    ∧ stored_notes sampleJson (storage st') = [syncedNote; newNoteSynced].
Proof.
  destruct (trySyncToNotion_marks_synced appendFailsEnv sampleJson newNote
              [newNote; syncedNote] notesState) as (now & st' & Hrun & Hstored).
  - reflexivity.
  - intros h r Hr. by destruct r.
  - intros h. split; [discriminate|reflexivity].
  - exists st'.
    assert (Hall : trySyncToNotion appendFailsEnv sampleJson newNote
                     [newNote; syncedNote] notesState
                   = (Ok {| note_after := newNoteSynced;
                            notes_after := [newNoteSynced; syncedNote];
                            settled := Ok tt |}, st')
                   ∧ remote st' = []).
    { rewrite Hrun.
      assert (Hst : st' = (trySyncToNotion appendFailsEnv sampleJson newNote
                             [newNote; syncedNote] notesState).2)
        by (by rewrite Hrun).
      assert (Hnow : now = 1700000000000%N).
      { assert (H := f_equal (λ r, match r.1 with
                                   | Ok a => Types.notionSyncStatus (note_after a)
                                   | Throw _ => None
                                   end) Hrun).
        vm_compute in H. by injection H as <-. }
      rewrite Hnow, Hst. split; reflexivity. }
    destruct Hall as [Hrun' Hremote]. split; [exact Hrun'|]. split; [exact Hremote|].
    rewrite Hstored.
    assert (Hnow : Types.setSyncStatus newNote (syncedAt now) = newNoteSynced).
    { assert (H := f_equal (λ r, match r.1 with
                                 | Ok a => Some (note_after a)
                                 | Throw _ => None
                                 end) Hrun).
      rewrite Hrun' in H. simpl in H. by injection H as <-. }
    rewrite Hnow. reflexivity.
Defined.

(** [updateNote] when the storage refuses every write of the notes. *)
Lemma updateNote_rejected E J updatedNote st :
  (∀ h text, is_Some (rejects E h (SetItem NOTES_STORAGE_KEY text))) →
  ∃ st',
    updateNote E J updatedNote st = (Throw "Failed to update note", st')
    ∧ storage st' = storage st
    ∧ remote st' = remote st
    ∧ config st' = config st.
Proof.
  intros Hfull. rewrite updateNote_run, write_notes_run. simpl.
  match goal with |- context [rejects E ?h (SetItem NOTES_STORAGE_KEY ?text)] =>
    destruct (Hfull h text) as [m Hm]; rewrite Hm end.
  eexists. split; [reflexivity|]. done.
Qed.

(** X23. When the storage refuses to write the notes, [trySyncToNotion]
    on a configured service rejects with "Failed to update note", raised
    by its own [catch] block, and leaves the note object marked as not
    synced with that error, the screen and the stored notes as they were;
    yet [syncNote] ran before: when the Notion API accepts its requests
    the note is on the page. *)
Theorem trySyncToNotion_write_failure E J note notes st :
  isConfigured st = true →
  (∀ h text, is_Some (rejects E h (SetItem NOTES_STORAGE_KEY text))) →
  ∃ now st',
    trySyncToNotion E J note notes st
    = (Ok {| note_after := Types.setSyncStatus note (failedAt now "Failed to update note");
             notes_after := notes;
             settled := Throw "Failed to update note" |}, st')
    ∧ storage st' = storage st
    ∧ (∀ c, updates_accepted E →
            (∀ h auth block_id text, rejects E h (BlocksAppend auth block_id text) = None) →
            config st = Some c →
            remote st' = (pageId c, noteBlock E (noteFields note)) :: remote st).
Proof.
  intros Hconfigured Hfull.
  destruct (trySyncToNotion_try_run E J note notes st Hconfigured)
    as (st1 & new & Hsync & _ & Hstorage & _ & _ & Htry).
  unfold trySyncToNotion, attempt. rewrite bind_run, Htry. clear Htry. simpl.
  rewrite bind_run.
  match goal with |- context [updateNote E J ?n ?s] =>
    destruct (updateNote_rejected E J n s Hfull) as (st3 & Hupdate & Hs3 & Hr3 & _) end.
  rewrite Hupdate. simpl. unfold dateNow, emit. run_pure.
  match goal with |- context [updateNote E J ?n ?s] =>
    destruct (updateNote_rejected E J n s Hfull) as (st5 & Hupdate' & Hs5 & Hr5 & _) end.
  rewrite Hupdate'. simpl.
  eexists _, st5. split; [reflexivity|].
  split; [simpl in *; congruence|].
  intros c Hupdates Happends Hc.
  destruct (isConfigured_true_inv st Hconfigured) as (c' & Hc' & Htoken & Hpage).
  assert (c' = c) as -> by congruence.
  destruct (syncNote_accepted E (noteFields note) st c Hupdates Happends Hc Htoken Hpage)
    as (st1' & Hsync' & _ & Hremote & _).
  assert (st1' = st1) as -> by congruence.
  simpl in *. congruence.
Qed.

Lemma trySyncToNotion_write_failure_witness :
  ∃ st',
    trySyncToNotion notesWriteFailsEnv sampleJson newNote [newNote; syncedNote] notesState
    = (Ok {| note_after :=
               Types.setSyncStatus newNote
                 (failedAt 1700000000000 "Failed to update note");
             notes_after := [newNote; syncedNote];
             settled := Throw "Failed to update note" |}, st')
    ∧ stored_notes sampleJson (storage st') = [syncedNote; newNote]
    ∧ length (remote st') = 1.
Proof.
  destruct (trySyncToNotion_write_failure notesWriteFailsEnv sampleJson newNote
              [newNote; syncedNote] notesState) as (now & st' & Hrun & Hstorage & Hremote).
  - reflexivity.
  - intros h text. eexists. reflexivity.
  - exists st'.
    assert (Hnow : now = 1700000000000%N).
    { assert (H := f_equal (λ r, match r.1 with
                                 | Ok a => Types.notionSyncStatus (note_after a)
                                 | Throw _ => None
                                 end) Hrun).
      vm_compute in H. by injection H as <-. }
    split; [by rewrite Hrun, Hnow|]. split; [by rewrite Hstorage|].
    rewrite (Hremote sampleConfig); [reflexivity| | |reflexivity].
    + intros h auth page. reflexivity.
    + intros h auth block_id text. reflexivity.
Defined.

Lemma handleDeleteNote_run E J noteId notes st :
  handleDeleteNote E J noteId notes st
  = match deleteNote E J noteId st with
    | (Ok _, st1) => loadNotes E J notes st1
    | (Throw _, st1) => (Ok notes, with_event deleteFailedAlert st1)
    end.
Proof.
  unfold handleDeleteNote, try_catch at 1. rewrite bind_run.
  destruct (deleteNote E J noteId st) as [[[]|message] st1]; [|done].
  rewrite loadNotes_run. done.
Qed.

(** X24. [handleDeleteNote] never raises.  On a working storage it leaves
    on the screen the stored notes without those of the given id, newest
    first, and shows no alert.  When the write is rejected it shows the
    alert "Failed to delete note" and keeps the list of the screen and the
    storage as they were. *)
Theorem handleDeleteNote_result E J noteId notes st :
  (∃ l st', handleDeleteNote E J noteId notes st = (Ok l, st'))
  ∧ (storage_works E →
     faithful_on J (remove_note noteId (stored_notes J (storage st))) →
     (handleDeleteNote E J noteId notes st).1
     = Ok (sortNotes (remove_note noteId (stored_notes J (storage st))))
     ∧ stored_notes J (storage (handleDeleteNote E J noteId notes st).2)
       = remove_note noteId (stored_notes J (storage st))
     ∧ deleteFailedAlert ∉ events_since st (handleDeleteNote E J noteId notes st).2)
  ∧ (∀ key value message,
       (SetItem key value, Some message)
         ∈ events_since st (handleDeleteNote E J noteId notes st).2 →
       (handleDeleteNote E J noteId notes st).1 = Ok notes
       ∧ storage (handleDeleteNote E J noteId notes st).2 = storage st
       ∧ deleteFailedAlert ∈ events_since st (handleDeleteNote E J noteId notes st).2).
Proof.
  rewrite handleDeleteNote_run, deleteNote_run, write_notes_run. simpl.
  set (answer := rejects E (_ :: trace st) (SetItem _ _)).
  destruct answer as [m|] eqn:Hanswer; simpl.
  - split; [by eexists _, _|]. split.
    + intros Hworks _. subst answer. by rewrite Hworks in Hanswer.
    + intros key value message _.
      split; [done|]. split; [done|].
      compute_events_since. left.
  - rewrite loadNotes_run. simpl.
    split; [by eexists _, _|]. split.
    + intros Hworks Hfaithful. rewrite !Hworks by done.
      rewrite (stored_notes_insert J _ _ Hfaithful).
      split; [done|]. split; [done|].
      compute_events_since. intros Hin. find_rejected Hin.
    + intros key value message. compute_events_since. intros Hin. find_rejected Hin.
Qed.

Lemma handleDeleteNote_result_witness :
  (handleDeleteNote quietEnv sampleJson "1" [newNote; syncedNote] notesState).1
    = Ok [newNote]
  ∧ (handleDeleteNote notesWriteFailsEnv sampleJson "1" [newNote; syncedNote] notesState).1
    = Ok [newNote; syncedNote].
Proof.
  destruct (handleDeleteNote_result quietEnv sampleJson "1" [newNote; syncedNote]
              notesState) as (_ & Hworks & _).
  destruct (handleDeleteNote_result notesWriteFailsEnv sampleJson "1"
              [newNote; syncedNote] notesState) as (_ & _ & Hfull).
  split.
  - destruct Hworks as (Hrun & _).
    + intros h r _. reflexivity.
    + split; [discriminate|reflexivity].
    + rewrite Hrun. reflexivity.
  - destruct (Hfull NOTES_STORAGE_KEY "[2]" "Storage is full") as (Hrun & _).
    + vm_compute. right. left.
    + exact Hrun.
Defined.

(** Every writer of the note store changes the entry of the notes only. *)
Lemma write_notes_frame E J f failure st :
  let st' := (try_catch
                (notes ← getNotes E J;
                 setItem E NOTES_STORAGE_KEY (JSON_stringify J (f notes)))
                (λ error, throw failure) st).2 in
  config st' = config st
  ∧ notion st' = notion st
  ∧ ∀ key, key ≠ NOTES_STORAGE_KEY → storage st' !! key = storage st !! key.
Proof.
  rewrite write_notes_run. simpl.
  set (answer := rejects E (_ :: trace st) (SetItem _ _)).
  destruct answer as [m|]; simpl; [done|].
  do 2 (split; [done|]). intros key Hkey. by rewrite lookup_insert_ne.
Qed.

(** X25. The credential store and the note store never touch each
    other's data.  [saveConfig], [loadConfig] and [disconnect] leave the
    stored notes as they are, whether they succeed or fail; [saveNote],
    [updateNote], [deleteNote] and [clearAllNotes] leave the cached
    record, the API client and every other entry of the storage as they
    are, so the service is as configured as before. *)
Theorem notes_and_credentials_are_apart E J c note noteId st :
  storage (saveConfig E c st).2 !! NOTES_STORAGE_KEY = storage st !! NOTES_STORAGE_KEY
  ∧ storage (loadConfig E st).2 = storage st
  ∧ storage (disconnect E st).2 !! NOTES_STORAGE_KEY = storage st !! NOTES_STORAGE_KEY
  ∧ ∀ write,
      write ∈ [saveNote E J note; updateNote E J note; deleteNote E J noteId;
               clearAllNotes E] →
      config (write st).2 = config st
      ∧ notion (write st).2 = notion st
      ∧ isConfigured (write st).2 = isConfigured st
      ∧ ∀ key, key ≠ NOTES_STORAGE_KEY → storage (write st).2 !! key = storage st !! key.
Proof.
  split; [|split; [|split]].
  - unfold saveConfig, try_catch, setItem.
    destruct (userId c) as [u|]; simpl; [destruct (truthy u)|];
      (destruct (workspaceId c) as [w|]; simpl; [destruct (truthy w)|]);
      run_cases; by simplify_map_eq.
  - unfold loadConfig, try_catch, getItem. run_cases; try done.
    by destruct (truthy_opt _).
  - unfold disconnect, try_catch, removeItem. run_cases; by simplify_map_eq.
  - assert (Hframe : ∀ write : M unit,
              (config (write st).2 = config st
               ∧ notion (write st).2 = notion st
               ∧ ∀ key, key ≠ NOTES_STORAGE_KEY →
                        storage (write st).2 !! key = storage st !! key) →
              config (write st).2 = config st
              ∧ notion (write st).2 = notion st
              ∧ isConfigured (write st).2 = isConfigured st
              ∧ ∀ key, key ≠ NOTES_STORAGE_KEY →
                       storage (write st).2 !! key = storage st !! key).
    { intros write (Hconfig & Hnotion & Hstorage). do 2 (split; [done|]).
      split; [|done]. unfold isConfigured. by rewrite Hconfig. }
    intros write Hwrite. apply Hframe.
    repeat (apply elem_of_cons in Hwrite as [->|Hwrite]);
      [rewrite saveNote_run|rewrite updateNote_run|rewrite deleteNote_run| |
       by apply elem_of_nil in Hwrite]; try apply write_notes_frame.
    unfold clearAllNotes, try_catch, removeItem. run_cases; [done|].
    do 2 (split; [done|]). intros key Hkey. by rewrite lookup_delete_ne.
Qed.

Lemma notes_and_credentials_are_apart_witness :
  stored_notes sampleJson (storage (disconnect quietEnv notesState).2)
    = [syncedNote; newNote]
  ∧ isConfigured (clearAllNotes quietEnv notesState).2 = true
  ∧ storage (deleteNote quietEnv sampleJson "1" notesState).2 !! NOTION_TOKEN_KEY
    = Some "tok_a".
Proof.
  destruct (notes_and_credentials_are_apart quietEnv sampleJson sampleConfig newNote "1"
              notesState) as (_ & _ & Hdisconnect & Hwrite).
  split; [unfold stored_notes; rewrite Hdisconnect; reflexivity|].
  split.
  - destruct (Hwrite (clearAllNotes quietEnv)) as (_ & _ & Hconfigured & _).
    + do 3 right. left.
    + rewrite Hconfigured. reflexivity.
  - destruct (Hwrite (deleteNote quietEnv sampleJson "1")) as (_ & _ & _ & Hstorage).
    + do 2 right. left.
    + rewrite Hstorage; [reflexivity|discriminate].
Defined.

(** X26. The statuses [handleSyncAll] sets are never saved.  On a working
    storage, what [loadNotes] reads after a run of [handleSyncAll] (the
    parent reloads when the sync is complete) are the notes that were
    stored before the run, newest first: the notes that were stored as
    unsynced come back unsynced, and the bar lists them again. *)
Theorem sync_marks_are_not_saved E J c st :
  storage_works E →
  ∃ c' st',
    handleSyncAll E c st = (Ok c', st')
    ∧ (loadNotes E J (SyncStatusBar.notes c') st').1
      = Ok (sortNotes (stored_notes J (storage st))).
Proof.
  intros Hworks.
  destruct (handleSyncAll_requests E c st) as (c' & st' & new & Hrun & _ & Hstorage & _).
  exists c', st'. split; [done|].
  rewrite loadNotes_run. simpl. rewrite Hworks by done. by rewrite Hstorage.
Qed.

Lemma sync_marks_are_not_saved_witness :
  ∃ c' st',
    handleSyncAll quietEnv (updateUnsyncedNotes sampleBar) notesState = (Ok c', st')
    ∧ SyncStatusBar.notes c' = [syncedNote; newNoteSynced]
    ∧ unsyncedNotes c' = []
    ∧ (loadNotes quietEnv sampleJson (SyncStatusBar.notes c') st').1
      = Ok [newNote; syncedNote]
    ∧ unsyncedNotes (updateUnsyncedNotes (setNotes [newNote; syncedNote] c')) = [0].
Proof.
  destruct (sync_marks_are_not_saved quietEnv sampleJson (updateUnsyncedNotes sampleBar)
              notesState) as (c' & st' & Hrun & Hload).
  - intros h r _. reflexivity.
  - exists c', st'. split; [exact Hrun|].
    assert (Hc : c' = syncedBar).
    { assert (H := f_equal (λ r, match r.1 with Ok a => Some a | Throw _ => None end) Hrun).
      vm_compute in H. by injection H as <-. }
    split; [by rewrite Hc|]. split; [by rewrite Hc|]. split.
    + rewrite Hload. reflexivity.
    + rewrite Hc. reflexivity.
Defined.

(** ** The settings screen *)

Lemma grows_ret {A} (a : A) : grows (mret a : M A).
Proof. intros st. by exists []. Qed.

Lemma grows_throw {A} message : grows (throw message : M A).
Proof. intros st. by exists []. Qed.

Lemma grows_get_state : grows get_state.
Proof. intros st. by exists []. Qed.

Lemma grows_modify f : (∀ st, trace (f st) = trace st) → grows (modify f).
Proof. intros Hf st. exists []. apply Hf. Qed.

Lemma grows_emit r : grows (emit r).
Proof. intros st. by exists [(r, None)]. Qed.

Lemma grows_perform E r : grows (perform E r).
Proof.
  intros st. unfold perform. destruct (rejects E (trace st) r) as [m|].
  - by exists [(r, Some m)].
  - by exists [(r, None)].
Qed.

Lemma grows_bind {A B} (m : M A) (f : A → M B) :
  grows m → (∀ a, grows (f a)) → grows (m ≫= f).
Proof.
  intros Hm Hf st. rewrite bind_run. destruct (Hm st) as [new1 H1].
  destruct (m st) as [[a|message] st1]; simpl in *.
  - destruct (Hf a st1) as [new2 H2]. exists (new2 ++ new1).
    by rewrite H2, H1, app_assoc.
  - by exists new1.
Qed.

Lemma grows_try_catch {A} (body : M A) handler :
  grows body → (∀ error, grows (handler error)) → grows (try_catch body handler).
Proof.
  intros Hm Hf st. unfold try_catch. destruct (Hm st) as [new1 H1].
  destruct (body st) as [[a|message] st1]; simpl in *.
  - by exists new1.
  - destruct (Hf message st1) as [new2 H2]. exists (new2 ++ new1).
    by rewrite H2, H1, app_assoc.
Qed.

(** Goes through a computation made of the steps above. *)
Ltac solve_grows :=
  repeat first
    [ apply grows_ret | apply grows_throw | apply grows_get_state
    | apply grows_emit | apply grows_perform
    | apply grows_modify; intros ?; reflexivity
    | apply grows_try_catch; [|intros ?]
    | apply grows_bind; [|intros ?]
    | match goal with
      | |- grows (if ?b then _ else _) => destruct b
      | |- grows (match ?x with _ => _ end) => destruct x
      end ].

Lemma grows_saveConfig E c : grows (saveConfig E c).
Proof.
  unfold saveConfig, setItem, set_storage, set_config. solve_grows.
Qed.

Lemma grows_authenticate E : grows (authenticate E).
Proof.
  unfold authenticate, authenticate_try, authenticate_catch, dateNow,
    openAuthSessionAsync, newURL, fetchToken, response_json.
  solve_grows; apply grows_saveConfig.
Qed.

Lemma grows_loadConfig E : grows (loadConfig E).
Proof. unfold loadConfig, getItem, set_config. solve_grows. Qed.

Lemma grows_getUserPages E : grows (getUserPages E).
Proof.
  unfold getUserPages, getUserPages_try, initializeNotion, notion_search, set_notion.
  solve_grows.
Qed.

Lemma events_since_trans st1 st2 st3 ev :
  (∃ new, trace st2 = new ++ trace st1) →
  (∃ new, trace st3 = new ++ trace st2) →
  ev ∈ events_since st1 st2 ∨ ev ∈ events_since st2 st3 →
  ev ∈ events_since st1 st3.
Proof.
  intros [new1 H1] [new2 H2] Hev.
  rewrite (events_since_app st1 st2 new1 H1), (events_since_app st2 st3 new2 H2) in Hev.
  rewrite (events_since_app st1 st3 (new2 ++ new1)) by (by rewrite H2, H1, app_assoc).
  apply elem_of_app. tauto.
Qed.

(** [getUserPages] resolves, and keeps the cached record and the
    storage. *)
Lemma getUserPages_frame E st :
  ∃ pages st',
    getUserPages E st = (Ok pages, st')
    ∧ config st' = config st
    ∧ storage st' = storage st.
Proof.
  unfold getUserPages, try_catch, getUserPages_try. rewrite bind_run.
  destruct (initializeNotion_cases st) as [[m Hi]|(c & auth & Hc & Ht & Hi)];
    rewrite Hi; [by eexists _, _|].
  rewrite bind_run. simpl. unfold notion_search. run_cases; by eexists _, _.
Qed.

(** [handleAuthenticate] after a call of [authenticate] that resolved to
    [true] and left a token in the storage. *)
Lemma handleAuthenticate_connected E s st st2 :
  storage_works E →
  authenticate E st = (Ok true, st2) →
  truthy_opt (storage st2 !! NOTION_TOKEN_KEY) = true →
  ∃ s' st',
    NotionSettingsScreen.handleAuthenticate E s st = (Ok s', st')
    ∧ connectedAlert ∈ events_since st st'
    ∧ NotionSettingsScreen.config s' = Some (stored_config (storage st2))
    ∧ config st' = Some (stored_config (storage st2))
    ∧ storage st' = storage st2
    ∧ NotionSettingsScreen.showPageSelection s' = true
    ∧ NotionSettingsScreen.isAuthenticating s' = false
    ∧ NotionSettingsScreen.isLoading s' = false.
Proof.
  intros Hworks Hauth Htoken.
  unfold NotionSettingsScreen.handleAuthenticate. rewrite bind_run.
  unfold try_catch at 1. rewrite bind_run, Hauth. unfold emit. run_pure.
  unfold NotionSettingsScreen.loadNotionConfig. rewrite bind_run.
  unfold try_catch at 1. rewrite bind_run.
  set (st3 := with_event _ st2).
  destruct (loadConfig_works E st3 Hworks) as (st4 & Hs4 & Hload).
  change (storage st3) with (storage st2) in Hload, Hs4.
  rewrite Htoken in Hload. destruct Hload as [Hload Hc4].
  destruct (grows_loadConfig E st3) as [new4 Ht4].
  rewrite Hload in Ht4. rewrite Hload. run_pure.
  unfold NotionSettingsScreen.handleLoadPages. rewrite bind_run.
  unfold try_catch at 1. rewrite bind_run.
  destruct (getUserPages_frame E st4) as (pages & st5 & Hpages & Hc5 & Hs5).
  destruct (grows_getUserPages E st4) as [new5 Ht5].
  rewrite Hpages in Ht5. rewrite Hpages. run_pure.
  eexists _, st5. split; [reflexivity|]. simpl in *.
  split.
  { apply (events_since_trans st st2 st5).
    - destruct (grows_authenticate E st) as [new Hnew]. rewrite Hauth in Hnew.
      by exists new.
    - exists (new5 ++ new4 ++ [connectedAlert]).
      rewrite Ht5, Ht4. subst st3. simpl. by rewrite <- !app_assoc.
    - right. rewrite (events_since_app st2 st5 (new5 ++ new4 ++ [connectedAlert])).
      + rewrite !elem_of_app. right. right. by left.
      + rewrite Ht5, Ht4. subst st3. simpl. by rewrite <- !app_assoc. }
  split; [done|]. split; [by rewrite Hc5, Hc4|]. split; [congruence|]. done.
Qed.

Lemma authenticate_catch_stored E error st :
  storage_works E →
  ∃ t1 t2 t3 st',
    authenticate_catch E error st = (Ok true, st')
    ∧ truthy_opt (storage st' !! NOTION_TOKEN_KEY) = true
    ∧ stored_config (storage st') = without_workspaceName (testConfig t1 t2 t3).
Proof.
  intros Hworks. unfold authenticate_catch, dateNow, emit. run_pure.
  match goal with |- context [saveConfig E ?c ?s] =>
    destruct (saveConfig_works E c s Hworks)
      as (st' & Hsave & Hconfig & _ & _ & Ht & Hp & Hn & Hu & Hw);
    rewrite Hsave end.
  eexists _, _, _, st'. split; [reflexivity|].
  unfold stored_config. rewrite Ht, Hp, Hn, Hu, Hw. done.
Qed.

(** X27. The settings screen reports a connection whenever the [try]
    block of [authenticate] fails, whatever the reason (the user denied
    the access, the token exchange failed, the browser could not be
    opened): on a working storage [handleAuthenticate] then shows the
    alert "Notion connected successfully!", opens the page selection, and
    the screen and the service hold the test connection, which makes the
    service configured. *)
Theorem handleAuthenticate_after_failure E s st message st1 :
  storage_works E →
  authenticate_try E st = (Throw message, st1) →
  ∃ t1 t2 t3 s' st',
    NotionSettingsScreen.handleAuthenticate E s st = (Ok s', st')
    ∧ connectedAlert ∈ events_since st st'
    ∧ NotionSettingsScreen.config s' = Some (without_workspaceName (testConfig t1 t2 t3))
    ∧ config st' = Some (without_workspaceName (testConfig t1 t2 t3))
    ∧ isConfigured st' = true
    ∧ NotionSettingsScreen.showPageSelection s' = true
    ∧ NotionSettingsScreen.isAuthenticating s' = false.
Proof.
  intros Hworks Htry.
  destruct (authenticate_catch_stored E message st1 Hworks)
    as (t1 & t2 & t3 & st2 & Hcatch & Htoken & Hstored).
  assert (Hauth : authenticate E st = (Ok true, st2)).
  { unfold authenticate, try_catch. by rewrite Htry. }
  destruct (handleAuthenticate_connected E s st st2 Hworks Hauth Htoken)
    as (s' & st' & Hrun & Halert & Hscreen & Hconfig & _ & Hshow & Hauthenticating & _).
  rewrite Hstored in Hscreen, Hconfig.
  exists t1, t2, t3, s', st'. do 4 (split; [done|]).
  split; [|done]. unfold isConfigured. by rewrite Hconfig.
Qed.

Lemma handleAuthenticate_after_failure_witness :
  ∃ s' st',
    NotionSettingsScreen.handleAuthenticate deniedEnv closedScreen freshState = (Ok s', st')
    ∧ connectedAlert ∈ events_since freshState st'
    ∧ (accessToken <$> NotionSettingsScreen.config s') = Some "secret_test_1700000000000"
    ∧ isConfigured st' = true.
Proof.
  destruct (handleAuthenticate_after_failure deniedEnv closedScreen freshState
              "OAuth error: access_denied" (authenticate_try deniedEnv freshState).2)
    as (t1 & t2 & t3 & s' & st' & Hrun & Halert & Hscreen & Hconfig & Hconfigured & _).
  - intros h r _. reflexivity.
  - reflexivity.
  - exists s', st'. do 2 (split; [done|]). split; [|done].
    assert (H := f_equal (λ r, match r.1 with
                               | Ok a => accessToken <$> NotionSettingsScreen.config a
                               | Throw _ => None
                               end) Hrun).
    simpl in H. rewrite <- H. reflexivity.
Defined.

Lemma authenticate_success_stored E st params code response data :
  storage_works E →
  redirect_with E params →
  truthy_opt (searchParams_get params "error") = false →
  searchParams_get params "code" = Some code →
  code ≠ "" →
  token_endpoint_answers E response →
  ok response = true →
  json response = Some data →
  ∃ st',
    authenticate E st = (Ok true, st')
    ∧ config st' = Some (tokenConfig data)
    ∧ storage st' !! NOTION_TOKEN_KEY = Some (access_token data)
    ∧ storage st' !! NOTION_PAGE_ID_KEY = Some "".
Proof.
  intros Hworks Hredirect Herror Hcode Hne [Hfetch Hresponse] Hok Hjson.
  destruct (authenticate_try_redirect E st params Hredirect)
    as (st1 & Htry & _ & _ & Hn1 & Hr1).
  unfold authenticate, try_catch. rewrite Htry. simpl.
  rewrite Herror, Hcode. simpl. unfold truthy at 1.
  rewrite (bool_decide_eq_true_2 _ Hne).
  unfold fetchToken. run_pure. run_accepted Hfetch. run_pure.
  rewrite Hresponse, Hok. unfold response_json. rewrite Hjson. run_pure.
  match goal with |- context [saveConfig E ?c ?s] =>
    destruct (saveConfig_works E c s Hworks)
      as (st' & Hsave & Hconfig & _ & _ & Ht & Hp & _);
    rewrite Hsave end.
  exists st'. by repeat split.
Qed.

(** X28. The workspace name does not survive the connection.  After a
    completed token exchange [authenticate] caches the record with the
    name of the workspace; [handleAuthenticate] then reloads the record
    from the storage, which holds no name: the screen and the cache end
    with the access token of the exchange, no page and no workspace
    name. *)
Theorem handleAuthenticate_drops_workspace_name E s st params code response data :
  storage_works E →
  redirect_with E params →
  truthy_opt (searchParams_get params "error") = false →
  searchParams_get params "code" = Some code →
  code ≠ "" →
  token_endpoint_answers E response →
  ok response = true →
  json response = Some data →
  access_token data ≠ "" →
  ∃ st2 name s' st',
    authenticate E st = (Ok true, st2)
    ∧ (workspaceName <$> config st2) = Some (Some name)
    ∧ NotionSettingsScreen.handleAuthenticate E s st = (Ok s', st')
    ∧ connectedAlert ∈ events_since st st'
    ∧ NotionSettingsScreen.config s' = config st'
    ∧ (accessToken <$> config st') = Some (access_token data)
    ∧ (pageId <$> config st') = Some ""
    ∧ (workspaceName <$> config st') = Some None
    ∧ isConfigured st' = false.
Proof.
  intros Hworks Hredirect Herror Hcode Hne Hanswers Hok Hjson Htoken.
  destruct (authenticate_success_stored E st params code response data
              Hworks Hredirect Herror Hcode Hne Hanswers Hok Hjson)
    as (st2 & Hauth & Hc2 & Ht2 & Hp2).
  assert (Htruthy : truthy_opt (storage st2 !! NOTION_TOKEN_KEY) = true).
  { rewrite Ht2. simpl. by apply bool_decide_eq_true_2. }
  destruct (handleAuthenticate_connected E s st st2 Hworks Hauth Htruthy)
    as (s' & st' & Hrun & Halert & Hscreen & Hconfig & _).
  exists st2. eexists. exists s', st'. split; [done|].
  split; [by rewrite Hc2|]. do 2 (split; [done|]).
  split; [by rewrite Hscreen, Hconfig|].
  unfold isConfigured. rewrite Hconfig. simpl. rewrite Ht2, Hp2. simpl.
  do 3 (split; [done|]). by rewrite andb_false_r.
Qed.

Lemma handleAuthenticate_drops_workspace_name_witness :
  ∃ st2 s' st',
    authenticate quietEnv freshState = (Ok true, st2)
    ∧ (workspaceName <$> config st2) = Some (Some "Acme")
    ∧ NotionSettingsScreen.handleAuthenticate quietEnv closedScreen freshState
      = (Ok s', st')
    ∧ (workspaceName <$> NotionSettingsScreen.config s') = Some None
    ∧ (workspaceId <$> NotionSettingsScreen.config s') = Some (Some "ws_1").
Proof.
  destruct (handleAuthenticate_drops_workspace_name quietEnv closedScreen freshState
              [("code", "abc"); ("state", "state_7")] "abc" okResponse sampleTokenData)
    as (st2 & name & s' & st' & Hauth & Hname & Hrun & _ & Hscreen & _ & _ & Hnone & _).
  - intros h r _. reflexivity.
  - split; [reflexivity|]. exists "speaktonote://auth?code=abc&state=state_7".
    split; [discriminate|]. split; reflexivity.
  - reflexivity.
  - reflexivity.
  - discriminate.
  - split; reflexivity.
  - reflexivity.
  - reflexivity.
  - discriminate.
  - exists st2, s', st'.
    assert (Hst2 : st2 = (authenticate quietEnv freshState).2) by (by rewrite Hauth).
    split; [done|]. split; [by rewrite Hst2|]. split; [done|].
    split; [by rewrite Hscreen|].
    assert (H := f_equal (λ r, match r.1 with
                               | Ok a => workspaceId <$> NotionSettingsScreen.config a
                               | Throw _ => None
                               end) Hrun).
    simpl in H. rewrite <- H. reflexivity.
Defined.

(** X29. The record of the settings screen follows the cached record of
    the service.  On a working storage, when the two agree before
    [handleSelectPage] or the handler of "Disconnect", they agree
    afterwards: selecting a page puts the page in both (and shows the
    error alert, changing nothing, when there is no connection), and
    disconnecting empties both, together with the list of pages. *)
Theorem settings_screen_follows_service E page s st :
  storage_works E →
  NotionSettingsScreen.config s = config st →
  (∃ s1 st1,
     NotionSettingsScreen.handleSelectPage E page s st = (Ok s1, st1)
     ∧ NotionSettingsScreen.config s1 = config st1
     ∧ (pageId <$> config st1) = (λ _, NotionService.id page) <$> config st
     ∧ (config st = None →
        s1 = s
        ∧ st1 = with_event
                  (Alert "Error" "Failed to select page. Please try again.", None) st))
  ∧ (∃ s2 st2,
       NotionSettingsScreen.handleDisconnect_onPress E s st = (Ok s2, st2)
       ∧ NotionSettingsScreen.config s2 = None
       ∧ config st2 = None
       ∧ isConfigured st2 = false
       ∧ NotionSettingsScreen.pages s2 = []).
Proof.
  intros Hworks Hsame. split.
  - unfold NotionSettingsScreen.handleSelectPage, try_catch at 1.
    rewrite bind_run. unfold setSelectedPage, try_catch at 1.
    rewrite bind_run. simpl. rewrite Hsame.
    destruct (config st) as [c|] eqn:Hc.
    + match goal with |- context [saveConfig E ?c' st] =>
        destruct (saveConfig_works E c' st Hworks) as (st1 & Hsave & Hc1 & _);
        rewrite Hsave end.
      simpl. unfold emit. run_pure.
      eexists _, _. split; [reflexivity|]. simpl. rewrite Hc1.
      split; [done|]. split; [done|]. done.
    + simpl. unfold emit. run_pure. eexists _, _. split; [reflexivity|].
      simpl. by rewrite Hc.
  - unfold NotionSettingsScreen.handleDisconnect_onPress, try_catch at 1.
    rewrite bind_run.
    destruct (disconnect_works E st Hworks) as (st2 & Hrun & Hc2 & _).
    rewrite Hrun. unfold emit. run_pure.
    eexists _, _. split; [reflexivity|]. simpl. rewrite Hc2.
    unfold isConfigured. simpl. by rewrite Hc2.
Qed.

Lemma settings_screen_follows_service_witness :
  ∃ s1 st1,
    NotionSettingsScreen.handleSelectPage quietEnv
      {| id := "p-2"; title := "Untitled"; url := "https://notion.so/p-2" |}
      (NotionSettingsScreen.setConfig (Some sampleConfig) closedScreen) configuredState
    = (Ok s1, st1)
    ∧ NotionSettingsScreen.config s1 = config st1
    ∧ (pageId <$> config st1) = Some "p-2".
Proof.
  destruct (settings_screen_follows_service quietEnv
              {| id := "p-2"; title := "Untitled"; url := "https://notion.so/p-2" |}
              (NotionSettingsScreen.setConfig (Some sampleConfig) closedScreen)
              configuredState) as [(s1 & st1 & Hrun & Hsame & Hpage & _) _].
  - intros h r _. reflexivity.
  - reflexivity.
  - exists s1, st1. split; [exact Hrun|]. split; [exact Hsame|].
    rewrite Hpage. reflexivity.
Defined.

(** ** The edit screen *)

(** X30. Editing a note keeps its sync status.  On a working storage,
    [handleSave] on the screen of an existing note stores, in the place of
    the note, a note with the trimmed title and content (the title
    "Untitled Note" when it is blank), the id, the creation date and the
    sync status of before, gives that note to [onSave] and asks for the
    home screen; it sends nothing to Notion, so a note that was synced
    stays listed as synced with its new content.  With a blank title and
    a blank content it only shows an alert. *)
Theorem handleSave_keeps_sync_status E J trim s st note :
  NoteEditScreen.processedNote s = Some note →
  (trim (NoteEditScreen.title s) = "" → trim (NoteEditScreen.content s) = "" →
   NoteEditScreen.handleSave E J trim s st
   = (Ok {| NoteEditScreen.screen_after := s;
            NoteEditScreen.onSave_called := None;
            NoteEditScreen.navigate_called := false |},
      with_event (Alert "Error" "Please enter a title or content for your note", None)
        st))
  ∧ (trim (NoteEditScreen.title s) ≠ "" ∨ trim (NoteEditScreen.content s) ≠ "" →
     storage_works E →
     (∀ h, faithful_on J (replace_note (edited trim s note (clock E h))
                            (stored_notes J (storage st)))) →
     ∃ now saved st',
       NoteEditScreen.handleSave E J trim s st = (Ok saved, st')
       ∧ NoteEditScreen.onSave_called saved
         = (if NoteEditScreen.onSave s then Some (edited trim s note now) else None)
       ∧ NoteEditScreen.navigate_called saved = NoteEditScreen.navigation s
       ∧ stored_notes J (storage st')
         = replace_note (edited trim s note now) (stored_notes J (storage st))
       ∧ unsynced (edited trim s note now) = unsynced note
       ∧ ∀ ev, ev ∈ events_since st st' → notion_request_auth ev.1 = None).
Proof.
  intros Hnote. unfold NoteEditScreen.handleSave, truthy. split.
  - intros -> ->. simpl. unfold emit. by run_pure.
  - intros Hfilled Hworks Hfaithful.
    assert (Hcheck : negb (bool_decide (trim (NoteEditScreen.title s) ≠ ""))
                     && negb (bool_decide (trim (NoteEditScreen.content s) ≠ ""))
                     = false).
    { destruct Hfilled as [H|H]; rewrite (bool_decide_eq_true_2 _ H); simpl;
        [done|by rewrite andb_false_r]. }
    rewrite Hcheck. unfold try_catch at 1, NoteEditScreen.writeNote.
    rewrite Hnote. unfold dateNow, emit. run_pure.
    set (now := clock E ((DateNow, None) :: trace st)).
    change {| Types.id := Types.id note;
              Types.title := NoteEditScreen.noteTitle trim s;
              Types.content := trim (NoteEditScreen.content s);
              Types.createdAt := Types.createdAt note;
              Types.updatedAt := now;
              Types.audioDuration := Types.audioDuration note;
              Types.notionSyncStatus := Types.notionSyncStatus note |}
      with (edited trim s note now).
    rewrite updateNote_run, write_notes_run. simpl. rewrite !Hworks by done.
    exists now. eexists _, _. split; [reflexivity|]. simpl.
    do 2 (split; [done|]).
    split; [apply stored_notes_insert, Hfaithful|]. split; [done|].
    compute_events_since. intros ev Hev.
    repeat (apply elem_of_cons in Hev as [->|Hev]; [done|]).
    by apply elem_of_nil in Hev.
Qed.

Lemma handleSave_keeps_sync_status_witness :
  ∃ saved st',
    NoteEditScreen.handleSave quietEnv sampleJson sampleTrim editScreen notesState
    = (Ok saved, st')
    ∧ NoteEditScreen.onSave_called saved = Some editedNote
    ∧ NoteEditScreen.navigate_called saved = true
    ∧ stored_notes sampleJson (storage st') = [editedNote; newNote]
    ∧ filter_refs 0 (stored_notes sampleJson (storage st')) = [1].
Proof.
  destruct (handleSave_keeps_sync_status quietEnv sampleJson sampleTrim editScreen
              notesState syncedNote eq_refl) as [_ Hsave].
  destruct Hsave as (now & saved & st' & Hrun & Hcalled & Hnavigated & Hstored & _).
  - left. discriminate.
  - intros h r _. reflexivity.
  - intros h. split; [discriminate|reflexivity].
  - exists saved, st'.
    assert (Hnow : edited sampleTrim editScreen syncedNote now = editedNote).
    { assert (H := f_equal (λ r, match r.1 with
                                 | Ok a => NoteEditScreen.onSave_called a
                                 | Throw _ => None
                                 end) Hrun).
      simpl in H. rewrite Hcalled in H. vm_compute in H. unfold editedNote.
      injection H as H. inversion H. unfold edited. simpl. f_equal. }
    rewrite Hnow in Hcalled, Hstored.
    split; [exact Hrun|]. split; [exact Hcalled|]. split; [exact Hnavigated|].
    rewrite Hstored. split; reflexivity.
Defined.

(** ** The bar on the home screen *)

Lemma reads_only_ret {A} (a : A) : reads_only (mret a : M A).
Proof. intros st. exists []. do 2 (split; [done|]). by intros ev ?%elem_of_nil. Qed.

Lemma reads_only_throw {A} message : reads_only (throw message : M A).
Proof. intros st. exists []. do 2 (split; [done|]). by intros ev ?%elem_of_nil. Qed.

Lemma reads_only_get_state : reads_only get_state.
Proof. intros st. exists []. do 2 (split; [done|]). by intros ev ?%elem_of_nil. Qed.

Lemma reads_only_modify f :
  (∀ st, trace (f st) = trace st ∧ storage (f st) = storage st) →
  reads_only (modify f).
Proof.
  intros Hf st. exists []. destruct (Hf st) as [Ht Hs].
  do 2 (split; [done|]). by intros ev ?%elem_of_nil.
Qed.

Lemma reads_only_perform E r : is_read r → reads_only (perform E r).
Proof.
  intros Hr st. unfold perform. destruct (rejects E (trace st) r) as [m|].
  - exists [(r, Some m)]. do 2 (split; [done|]). by intros ev ->%list_elem_of_singleton.
  - exists [(r, None)]. do 2 (split; [done|]). by intros ev ->%list_elem_of_singleton.
Qed.

Lemma reads_only_bind {A B} (m : M A) (f : A → M B) :
  reads_only m → (∀ a, reads_only (f a)) → reads_only (m ≫= f).
Proof.
  intros Hm Hf st. rewrite bind_run. destruct (Hm st) as (new1 & H1 & Hs1 & Hev1).
  destruct (m st) as [[a|message] st1]; simpl in *.
  - destruct (Hf a st1) as (new2 & H2 & Hs2 & Hev2). exists (new2 ++ new1).
    split; [by rewrite H2, H1, app_assoc|]. split; [congruence|].
    intros ev [?|?]%elem_of_app; auto.
  - by exists new1.
Qed.

Lemma reads_only_try_catch {A} (body : M A) handler :
  reads_only body → (∀ error, reads_only (handler error)) →
  reads_only (try_catch body handler).
Proof.
  intros Hm Hf st. unfold try_catch. destruct (Hm st) as (new1 & H1 & Hs1 & Hev1).
  destruct (body st) as [[a|message] st1]; simpl in *.
  - by exists new1.
  - destruct (Hf message st1) as (new2 & H2 & Hs2 & Hev2). exists (new2 ++ new1).
    split; [by rewrite H2, H1, app_assoc|]. split; [congruence|].
    intros ev [?|?]%elem_of_app; auto.
Qed.

(** [loadConfig] and [checkNotionConfig] only read the storage. *)
Lemma reads_only_loadConfig E : reads_only (loadConfig E).
Proof.
  unfold loadConfig, getItem, set_config.
  repeat first
    [ apply reads_only_ret | apply reads_only_get_state
    | apply reads_only_perform; intros _; by eexists
    | apply reads_only_modify; intros ?; by split
    | apply reads_only_try_catch; [|intros ?]
    | apply reads_only_bind; [|intros ?]
    | match goal with |- reads_only (if ?b then _ else _) => destruct b end ].
Qed.

Lemma checkNotionConfig_reads E c st :
  ∃ b st' new,
    checkNotionConfig E c st = (Ok (setIsNotionConfigured b c), st')
    ∧ trace st' = new ++ trace st
    ∧ storage st' = storage st
    ∧ ∀ ev, ev ∈ new → is_read ev.1.
Proof.
  destruct (reads_only_loadConfig E st) as (new & Htrace & Hstorage & Hev).
  destruct (loadConfig_resolves E st) as (r & st' & Hload).
  rewrite Hload in Htrace, Hstorage. simpl in *.
  unfold checkNotionConfig, try_catch. rewrite bind_run, Hload. simpl.
  by eexists _, st', new.
Qed.

(** With a page selected, a callback and a note that is not synced,
    [handleSyncAll] calls the callback. *)
Lemma handleSyncAll_calls_back E c st i note :
  truthy_opt (config_pageId st) = true →
  onSyncComplete c = true →
  SyncStatusBar.notes c !! i = Some note →
  synced note = false →
  ∃ c1 st1 new,
    handleSyncAll E (updateUnsyncedNotes c) st = (Ok c1, st1)
    ∧ trace st1 = new ++ trace st
    ∧ (OnSyncComplete, None) ∈ new
    ∧ storage st1 = storage st
    ∧ unsyncedNotes c1 = [].
Proof.
  intros Hpage Hcallback Hnote Hunsynced.
  destruct (handleSyncAll_spec E c st Hpage)
    as (c1 & st1 & new & Hrun & _ & Htrace & _ & Hsynced & _).
  destruct (handleSyncAll_requests E (updateUnsyncedNotes c) st)
    as (c1' & st1' & new' & Hrun' & _ & Hstorage & _).
  assert (st1' = st1) as -> by congruence.
  exists c1, st1, new. do 2 (split; [done|]).
  split; [|split; [done|]].
  2:{ rewrite (handleSyncAll_result_refs E c st c1 st1 Hrun).
      by apply filter_refs_all_synced. }
  revert Hrun. unfold handleSyncAll. simpl.
  pose proof (filter_refs_elem (SyncStatusBar.notes c) 0) as Helem.
  pose proof (filter_refs_valid (SyncStatusBar.notes c) 0) as Hvalid. simpl in Hvalid.
  set (refs := filter_refs 0 (SyncStatusBar.notes c)) in *.
  assert (Hi : i ∈ refs).
  { apply Helem. split; [lia|]. exists note. rewrite Nat.sub_0_r.
    split; [done|]. by rewrite unsynced_synced, Hunsynced. }
  case_bool_decide as Hempty.
  { apply length_zero_iff_nil in Hempty. rewrite Hempty in Hi.
    by apply elem_of_nil in Hi. }
  rewrite bind_run. unfold try_catch at 1. rewrite bind_run.
  rewrite (ensurePageExists_ok st Hpage). rewrite bind_run.
  assert (Hvalid' : Forall (λ j, j < length (SyncStatusBar.notes c)) refs).
  { eapply Forall_impl; [exact Hvalid|]. simpl. lia. }
  destruct (syncLoop_spec E refs (SyncStatusBar.notes c) 0 0 st Hvalid')
    as (l' & st2 & new2 & Hloop & _ & Ht2 & _).
  simpl in Hloop. simpl. rewrite Hloop. rewrite bind_run.
  unfold showResults, callOnSyncComplete. simpl. rewrite Hcallback.
  rewrite bool_decide_eq_true_2 by lia. simpl. unfold emit. run_pure.
  intros [= <- <-]. simpl in Htrace. rewrite Ht2 in Htrace.
  assert (Hnew : new = (OnSyncComplete, None) :: syncCompleteAlert (length refs) :: new2).
  { apply (app_inv_tail (trace st)). rewrite <- Htrace. done. }
  rewrite Hnew. left.
Qed.

(** X9. On the home screen a run of [handleSyncAll] empties the bar for a
    moment only.  With a page selected, a working storage and a note that
    is not synced, the handler ends with no note listed as unsynced, but
    it has called [onSyncComplete]: the screen reloads the stored notes,
    which the run has not changed, and once the bar gets them it lists
    again the notes that are stored as unsynced. *)
Theorem handleSyncAll_refills_the_bar E J c st i note :
  storage_works E →
  truthy_opt (config_pageId st) = true →
  onSyncComplete c = true →
  SyncStatusBar.notes c !! i = Some note →
  synced note = false →
  ∃ c1 st1 c2 st2,
    handleSyncAll E (updateUnsyncedNotes c) st = (Ok c1, st1)
    ∧ unsyncedNotes c1 = []
    ∧ (OnSyncComplete, None) ∈ events_since st st1
    ∧ handleSyncAll_onScreen E J (updateUnsyncedNotes c) st = (Ok c2, st2)
    ∧ SyncStatusBar.notes c2 = sortNotes (stored_notes J (storage st))
    ∧ unsyncedNotes c2 = filter_refs 0 (sortNotes (stored_notes J (storage st))).
Proof.
  intros Hworks Hpage Hcallback Hnote Hunsynced.
  destruct (handleSyncAll_calls_back E c st i note Hpage Hcallback Hnote Hunsynced)
    as (c1 & st1 & new & Hrun & Htrace & Hcalled & Hstorage & Hrefs).
  assert (Hev : (OnSyncComplete, None) ∈ events_since st st1)
    by (by rewrite (events_since_app st st1 new Htrace)).
  unfold handleSyncAll_onScreen. run_pure. rewrite Hrun. run_pure.
  unfold called_onSyncComplete. rewrite (bool_decide_eq_true_2 _ Hev).
  unfold handleSyncComplete. rewrite bind_run, loadNotes_run. simpl.
  rewrite Hworks by done. unfold notesEffect. rewrite bind_run.
  match goal with |- context [checkNotionConfig E ?c0 ?s0] =>
    destruct (checkNotionConfig_reads E c0 s0) as (b & st2 & new2 & Hcheck & _);
    rewrite Hcheck end.
  run_pure. rewrite Hstorage.
  eexists c1, st1, _, st2. by repeat split.
Qed.

Lemma handleSyncAll_refills_the_bar_witness :
  ∃ c1 st1 c2 st2,
    handleSyncAll quietEnv (updateUnsyncedNotes sampleBar) notesState = (Ok c1, st1)
    ∧ unsyncedNotes c1 = []
    ∧ handleSyncAll_onScreen quietEnv sampleJson (updateUnsyncedNotes sampleBar)
        notesState = (Ok c2, st2)
    ∧ SyncStatusBar.notes c2 = [newNote; syncedNote]
    ∧ unsyncedNotes c2 = [0]
    ∧ rendered c2 = true.
Proof.
  destruct (handleSyncAll_refills_the_bar quietEnv sampleJson sampleBar notesState
              1 newNote)
    as (c1 & st1 & c2 & st2 & Hrun1 & Hrefs1 & _ & Hrun2 & Hnotes & Hrefs2).
  - intros h r _. reflexivity.
  - reflexivity.
  - reflexivity.
  - reflexivity.
  - reflexivity.
  - exists c1, st1, c2, st2. do 3 (split; [done|]).
    split; [by rewrite Hnotes|]. split; [by rewrite Hrefs2|].
    assert (H := f_equal (λ r, match r.1 with
                               | Ok a => rendered a
                               | Throw _ => false
                               end) Hrun2).
    simpl in H. rewrite <- H. by vm_compute.
Defined.

(** X11. A run of [handleSyncAll] on the home screen, with the reload
    that its call of [onSyncComplete] starts and the effect of the bar
    that follows, never raises and never writes AsyncStorage: the storage
    is what it was, and every storage request of the run is a read.  Up
    to the call of the callback the handler sends no storage request at
    all, and it leaves the cached credential record as it was: the
    statuses it sets exist only in the note objects in memory. *)
Theorem handleSyncAll_keeps_storage E J c st :
  ∃ c1 st1 c2 st2,
    handleSyncAll E c st = (Ok c1, st1)
    ∧ storage st1 = storage st
    ∧ config st1 = config st
    ∧ (∀ ev, ev ∈ events_since st st1 → is_storage_request ev.1 = false)
    ∧ handleSyncAll_onScreen E J c st = (Ok c2, st2)
    ∧ storage st2 = storage st
    ∧ ∀ ev, ev ∈ events_since st st2 → is_read ev.1.
Proof.
  destruct (handleSyncAll_requests E c st)
    as (c1 & st1 & new & Hrun & Htrace & Hstorage & Hconfig & Hev).
  assert (Hread : ∀ ev, ev ∈ new → is_read ev.1).
  { intros ev Hin Hs. by rewrite (Hev ev Hin) in Hs. }
  exists c1, st1. unfold handleSyncAll_onScreen. run_pure. rewrite Hrun. run_pure.
  destruct (called_onSyncComplete st st1).
  - unfold handleSyncComplete. rewrite bind_run, loadNotes_run. simpl.
    unfold notesEffect. rewrite bind_run.
    match goal with |- context [checkNotionConfig E ?c0 ?s0] =>
      destruct (checkNotionConfig_reads E c0 s0)
        as (b & st2 & new2 & Hcheck & Ht2 & Hs2 & Hev2);
      rewrite Hcheck end.
    run_pure. eexists _, st2. split; [done|]. do 2 (split; [done|]).
    split; [by rewrite (events_since_app st st1 new Htrace)|].
    split; [reflexivity|]. simpl in *. split; [congruence|].
    rewrite (events_since_app st st2
               (new2 ++ (GetItem NOTES_STORAGE_KEY,
                         rejects E (trace st1) (GetItem NOTES_STORAGE_KEY)) :: new)).
    + intros ev [Hin|[->|Hin]%elem_of_cons]%elem_of_app;
        [by apply Hev2|intros _; by eexists|by apply Hread].
    + rewrite Ht2, Htrace. by rewrite <- app_assoc.
  - eexists _, st1. split; [done|]. do 2 (split; [done|]).
    split; [by rewrite (events_since_app st st1 new Htrace)|].
    split; [reflexivity|]. split; [done|].
    by rewrite (events_since_app st st1 new Htrace).
Qed.
